(** * Canvas board server (session-based API): a shallow embedding

    The development follows the Express server of the repository: the
    session resolver, the per-session item store (Redis with an in-memory
    fallback), the zone layout engine, the per-session lock that guards
    deletions, the SSE broadcaster and the item creation handlers.

    Conventions of the embedding.
    - JavaScript numbers that the server computes with (coordinates, sizes,
      lab ranges) are integers [Z]; [Math.floor (a / b)] with a positive
      divisor is [Z.div].
    - A JavaScript value that may be missing is an [option]; truthiness is
      written out where the source relies on it ([0] and the empty string
      are falsy).
    - [Date.now ()], [Math.random ()] and [uuidv4 ()] are inputs of the
      handlers; timestamps, colours and rotation are not part of the item
      record, no modelled function reads them.
    - The fields of a request body have the types the API documents for
      them (strings, integers, arrays of objects); session identifiers are
      strings; strings are ASCII, so that [String.length] is the [length]
      of JavaScript.
    - Maps ([Map], Redis keys) are [gmap]s; what Redis holds under a key is
      the array whose JSON was stored.
    - An [async] handler is cut at its [await]s where requests served
      together are concerned; served alone it is a function of the state. *)

From Stdlib Require Import ZArith Lia Bool Ascii.
From stdpp Require Import gmap strings list.

Local Open Scope Z_scope.

(** ** Board items *)

(** [item.height] is a number, the sentinel ["auto"], or missing. *)
Inductive jsheight :=
| HNum (n : Z)
| HAuto
| HAbsent.

Record subTodo := SubTodo {
  sub_text : string;
  sub_status : string;
}.

Record todoEntry := TodoEntry {
  todo_text : string;
  todo_status : string;
  todo_agent : option string;
  todo_id : option string;
  todo_subTodos : option (list subTodo);
}.

Record todoData := TodoData {
  td_title : string;
  td_description : option string;
  td_todos : option (list todoEntry);
}.

Record agentData := AgentData {
  ad_title : string;
  ad_markdown : option string;
}.

Record labResultData := LabResultData {
  lab_parameter : string;
  lab_value : Z;
  lab_unit : string;
  lab_status : string;
  lab_min : Z;
  lab_max : Z;
  lab_trend : string;
}.

Record item := Item {
  item_id : string;
  item_type : string;
  item_x : Z;
  item_y : Z;
  item_width : Z;
  item_height : jsheight;
  item_todoData : option todoData;
  item_agentData : option agentData;
  item_labResultData : option labResultData;
  item_noteData : option string;
}.

#[global] Instance jsheight_eq_dec : EqDecision jsheight.
Proof. solve_decision. Defined.
#[global] Instance subTodo_eq_dec : EqDecision subTodo.
Proof. solve_decision. Defined.
#[global] Instance todoEntry_eq_dec : EqDecision todoEntry.
Proof. solve_decision. Defined.
#[global] Instance todoData_eq_dec : EqDecision todoData.
Proof. solve_decision. Defined.
#[global] Instance agentData_eq_dec : EqDecision agentData.
Proof. solve_decision. Defined.
#[global] Instance labResultData_eq_dec : EqDecision labResultData.
Proof. solve_decision. Defined.
#[global] Instance item_eq_dec : EqDecision item.
Proof. solve_decision. Defined.

(** A bare item of a kind at a place, as the handlers build their
    [tempItem]. *)
Definition plainItem (id type : string) (x y width : Z) (height : jsheight)
  : item :=
  Item id type x y width height None None None None.

(** [{ type, width, height }], the item a handler hands to the layout
    engine; it has no identifier and no position yet. *)
Definition tempItemOf (type : string) (width : Z) (height : jsheight) : item :=
  plainItem EmptyString type 0 0 width height.

(** ** Zones *)

Record zone := Zone {
  zone_x : Z;
  zone_y : Z;
  zone_width : Z;
  zone_height : Z;
}.

Definition TASK_ZONE : zone := Zone 4200 0 2000 2100.
Definition RETRIEVED_DATA_ZONE : zone := Zone 4200 (-4600) 2000 2100.
Definition DOCTORS_NOTE_ZONE : zone := Zone 4200 (-2300) 2000 2100.

(** The test every placement function applies to an existing item: its
    top-left corner lies in the zone rectangle. *)
Definition inZone (z : zone) (it : item) : bool :=
  (zone_x z <=? item_x it) && (item_x it <? zone_x z + zone_width z) &&
  (zone_y z <=? item_y it) && (item_y it <? zone_y z + zone_height z).

(** ** Height estimation *)

Definition clamp (lo hi v : Z) : Z := Z.min (Z.max v lo) hi.

Definition nonEmpty (s : string) : bool := negb (String.eqb s EmptyString).

Definition truthyStr (s : option string) : bool :=
  match s with Some s => nonEmpty s | None => false end.

(** The string of a field that is there. *)
Definition textOf (s : option string) : string :=
  default EmptyString s.

(** JavaScript [s || d] on strings. *)
Definition strOr (s : option string) (d : string) : string :=
  if truthyStr s then textOf s else d.

(** [Math.ceil (n / d)] for a length [n] and a positive [d]. *)
Definition ceilDiv (n d : Z) : Z := (n + d - 1) / d.

Definition todoEntryHeight (t : todoEntry) : Z :=
  50 + match todo_subTodos t with
       | Some subs => Z.of_nat (length subs) * 30
       | None => 0
       end.

Definition estimateTodoHeight (d : todoData) : Z :=
  let baseHeight := 120 in
  let descriptionHeight := if truthyStr (td_description d) then 30 else 0 in
  let totalHeight :=
    fold_left (fun acc t => acc + todoEntryHeight t)
              (default [] (td_todos d)) (baseHeight + descriptionHeight) in
  clamp 200 1200 totalHeight.

Definition estimateAgentHeight (d : agentData) : Z :=
  let baseHeight := 100 in
  let contentLength :=
    match ad_markdown d with
    | Some s => Z.of_nat (String.length s)
    | None => 0
    end in
  let estimatedLines := ceilDiv contentLength 60 in
  clamp 200 800 (baseHeight + estimatedLines * 20).

(** The branches of [estimateItemHeight] that look at the content. *)
Definition estimateFromContent (it : item) : Z :=
  match String.eqb (item_type it) "todo", item_todoData it with
  | true, Some d => estimateTodoHeight d
  | _, _ =>
    match String.eqb (item_type it) "agent", item_agentData it with
    | true, Some d => estimateAgentHeight d
    | _, _ => if String.eqb (item_type it) "lab-result" then 280 else 450
    end
  end.

(** [estimateItemHeight]: a declared numeric height wins, unless it is
    [0], which is falsy. *)
Definition estimateItemHeight (it : item) : Z :=
  match item_height it with
  | HNum h => if h =? 0 then estimateFromContent it else h
  | HAuto | HAbsent => estimateFromContent it
  end.

(** ** Column packing *)

(** One turn of the [forEach] that raises the bottom of the column an
    existing item falls in. *)
Definition bumpColumn (startX maxColumns : Z) (columns : list Z) (it : item)
  : list Z :=
  let padding := 60 in
  let colWidth := 520 in
  let col := (item_x it - startX) / (colWidth + padding) in
  if (0 <=? col) && (col <? maxColumns) then
    let itemBottom := item_y it + estimateItemHeight it + padding in
    match columns !! Z.to_nat col with
    | Some bottom =>
        if bottom <? itemBottom then <[Z.to_nat col := itemBottom]> columns
        else columns
    | None => columns
    end
  else columns.

Definition columnBottoms (startX startY maxColumns : Z) (zoneItems : list item)
  : list Z :=
  fold_left (bumpColumn startX maxColumns) zoneItems
            (replicate (Z.to_nat maxColumns) startY).

(** The loop that keeps the first column of least bottom; [col] is the
    index of the head of [rest]. *)
Fixpoint bestColumnFrom (rest : list Z) (col bestCol : nat) (bestY : Z)
  : nat * Z :=
  match rest with
  | [] => (bestCol, bestY)
  | c :: rest' =>
      if c <? bestY then bestColumnFrom rest' (S col) col c
      else bestColumnFrom rest' (S col) bestCol bestY
  end.

(** [bestCol = 0; bestY = columns[0]] and the loop. The three zones have
    three columns each; with no column at all [columns[0]] is undefined in
    the source, the embedding then keeps [startY]. *)
Definition bestColumn (startY : Z) (columns : list Z) : nat * Z :=
  bestColumnFrom columns 0 0 (default startY (columns !! 0%nat)).

(** The retry loop: the first column where the new item still fits above
    [limit]. *)
Fixpoint firstFitFrom (limit newItemHeight : Z) (rest : list Z) (col : nat)
  : option (nat * Z) :=
  match rest with
  | [] => None
  | c :: rest' =>
      if c + newItemHeight <=? limit then Some (col, c)
      else firstFitFrom limit newItemHeight rest' (S col)
  end.

Definition columnX (startX : Z) (col : nat) : Z :=
  startX + Z.of_nat col * (520 + 60).

(** [findTaskZonePosition]: task zone, three columns, TODO items only. *)
Definition findTaskZonePosition (newItem : item) (existingItems : list item)
  : Z * Z :=
  let startX := zone_x TASK_ZONE + 60 in
  let startY := zone_y TASK_ZONE + 60 in
  let maxColumns := 3 in
  let taskZoneItems :=
    filter (fun it => inZone TASK_ZONE it && String.eqb (item_type it) "todo" = true)
           existingItems in
  let newItemHeight := estimateItemHeight newItem in
  let columns := columnBottoms startX startY maxColumns taskZoneItems in
  let '(bestCol, bestY) := bestColumn startY columns in
  let limit := zone_y TASK_ZONE + zone_height TASK_ZONE in
  if limit <? bestY + newItemHeight then
    match firstFitFrom limit newItemHeight columns 0 with
    | Some (col, altY) => (columnX startX col, altY)
    | None => (columnX startX bestCol, bestY)
    end
  else (columnX startX bestCol, bestY).

(** [findPositionInZone]: the generic column packing, any zone, every item
    of the rectangle. The zones of the program are 2000 wide and have
    three columns. The definition follows the code for a zone with a
    column at least, that is at least 700 wide: for a narrower one the
    code has no [columns[0]] to start from, or [Array (maxColumns)] throws,
    and the statements about [findPositionInZone] leave such zones out. *)
Definition findPositionInZone (newItem : item) (existingItems : list item)
    (zoneConfig : zone) : Z * Z :=
  let padding := 60 in
  let colWidth := 520 in
  let startX := zone_x zoneConfig + 60 in
  let startY := zone_y zoneConfig + 60 in
  let maxColumns := (zone_width zoneConfig - 120) / (colWidth + padding) in
  let zoneItems :=
    filter (fun it => inZone zoneConfig it = true) existingItems in
  let newItemHeight := estimateItemHeight newItem in
  let columns := columnBottoms startX startY maxColumns zoneItems in
  let '(bestCol, bestY) := bestColumn startY columns in
  let limit := zone_y zoneConfig + zone_height zoneConfig in
  if limit <? bestY + newItemHeight then
    match firstFitFrom limit newItemHeight columns 0 with
    | Some (col, altY) => (columnX startX col, altY)
    | None => (startX, startY)
    end
  else (columnX startX bestCol, bestY).

(** ** Grid-slot packing *)

(** The cell an existing item is bucketed into, by integer division of its
    offset from [(originX, originY)]. *)
Definition gridCell (originX originY colWidth rowHeight : Z) (it : item)
  : Z * Z :=
  ((item_y it - originY) / rowHeight, (item_x it - originX) / colWidth).

(** One turn of the [forEach] that marks [grid[row][col] = true]. *)
Definition markCell (originX originY colWidth rowHeight : Z)
    (maxRows maxCols : Z) (grid : list (list bool)) (it : item)
  : list (list bool) :=
  let '(row, col) := gridCell originX originY colWidth rowHeight it in
  if (0 <=? row) && (row <? maxRows) && (0 <=? col) && (col <? maxCols) then
    alter (fun cells => <[Z.to_nat col := true]> cells) (Z.to_nat row) grid
  else grid.

Definition emptyGrid (maxRows maxCols : Z) : list (list bool) :=
  replicate (Z.to_nat maxRows) (replicate (Z.to_nat maxCols) false).

Definition markGrid (originX originY colWidth rowHeight : Z)
    (maxRows maxCols : Z) (zoneItems : list item) : list (list bool) :=
  fold_left (markCell originX originY colWidth rowHeight maxRows maxCols)
            zoneItems (emptyGrid maxRows maxCols).

(** The inner loop: the first free column of a row, [col] being the index
    of the head of [cells]. *)
Fixpoint scanRow (cells : list bool) (col : nat) : option nat :=
  match cells with
  | [] => None
  | occupied :: cells' =>
      if occupied then scanRow cells' (S col) else Some col
  end.

(** The outer loop: rows from the top, each from the left. *)
Fixpoint scanGrid (grid : list (list bool)) (row : nat) : option (nat * nat) :=
  match grid with
  | [] => None
  | cells :: grid' =>
      match scanRow cells 0 with
      | Some col => Some (row, col)
      | None => scanGrid grid' (S row)
      end
  end.

(** [findDoctorsNotePosition]: a 3 x 4 grid of 470 x 620 cells over the
    doctor's-notes zone, doctor notes only. *)
Definition findDoctorsNotePosition (newItem : item) (existingItems : list item)
  : Z * Z :=
  let padding := 50 in
  let rowHeight := 620 in
  let colWidth := 470 in
  let noteZoneItems :=
    filter (fun it => inZone DOCTORS_NOTE_ZONE it &&
                      String.eqb (item_type it) "doctor-note" = true)
           existingItems in
  let maxCols := zone_width DOCTORS_NOTE_ZONE / colWidth in
  let maxRows := zone_height DOCTORS_NOTE_ZONE / rowHeight in
  let grid :=
    markGrid (zone_x DOCTORS_NOTE_ZONE + padding)
             (zone_y DOCTORS_NOTE_ZONE + padding)
             colWidth rowHeight maxRows maxCols noteZoneItems in
  match scanGrid grid 0 with
  | Some (row, col) =>
      (zone_x DOCTORS_NOTE_ZONE + Z.of_nat col * colWidth + padding,
       zone_y DOCTORS_NOTE_ZONE + Z.of_nat row * rowHeight + padding)
  | None =>
      (zone_x DOCTORS_NOTE_ZONE + padding,
       zone_y DOCTORS_NOTE_ZONE + padding
       + Z.of_nat (length noteZoneItems) * rowHeight)
  end.

Definition isRetrievedKind (type : string) : bool :=
  String.eqb type "ehr-data" || String.eqb type "lab-result" ||
  String.eqb type "patient-data" || String.eqb type "clinical-data".

(** [findRetrievedDataZonePosition]: a 4 x 3 grid of 560 x 490 cells over
    the retrieved-data zone, EHR, lab, patient and clinical items only. *)
Definition findRetrievedDataZonePosition (newItem : item)
    (existingItems : list item) : Z * Z :=
  let padding := 60 in
  let rowHeight := 490 in
  let colWidth := 560 in
  let retrievedDataZoneItems :=
    filter (fun it => inZone RETRIEVED_DATA_ZONE it &&
                      isRetrievedKind (item_type it) = true)
           existingItems in
  let maxCols := zone_width RETRIEVED_DATA_ZONE / colWidth in
  let maxRows := zone_height RETRIEVED_DATA_ZONE / rowHeight in
  let grid :=
    markGrid (zone_x RETRIEVED_DATA_ZONE)
             (zone_y RETRIEVED_DATA_ZONE + 60)
             colWidth rowHeight maxRows maxCols retrievedDataZoneItems in
  match scanGrid grid 0 with
  | Some (row, col) =>
      (zone_x RETRIEVED_DATA_ZONE + Z.of_nat col * colWidth + padding,
       zone_y RETRIEVED_DATA_ZONE + Z.of_nat row * rowHeight + 60)
  | None =>
      (zone_x RETRIEVED_DATA_ZONE + padding,
       zone_y RETRIEVED_DATA_ZONE + 60
       + Z.of_nat (length retrievedDataZoneItems) * (rowHeight + padding))
  end.

(** ** The process state *)

(** What the server writes on an SSE connection: the [event:] line and the
    [data:] line with its serialised payload. *)
Inductive ssePayload :=
| PayloadConnected (sessionId : string)
| PayloadNewItem (it : item) (action : string)
| PayloadFocus (itemId : string) (subElement : option string).

Inductive sseChunk :=
| ChunkEvent (eventType : string)
| ChunkData (data : ssePayload).

(** The module-level state of the server and the part of its environment
    it talks to.
    - [isRedisConnected] stands for [isRedisConnected && redisClient].
    - [redisFaults] scripts the Redis client: each call consumes the head,
      [true] makes the call throw; an empty script means no call throws.
    - [redisStore] holds, per key, the item array whose JSON is stored.
    - [staticFile] is [data/boardItems.json], [None] when it cannot be read
      or parsed.
    - a connection ([res] object) is a number; [clientOutput] is what has
      been written on it, a write on a connection of [brokenClients]
      throws. *)
Record world := World {
  isRedisConnected : bool;
  redisFaults : list bool;
  redisStore : gmap string (list item);
  inMemorySessions : gmap string (list item);
  staticFile : option (list item);
  sseClientsBySession : gmap string (list nat);
  clientOutput : gmap nat (list sseChunk);
  brokenClients : gset nat;
  nextClient : nat;
  sessionLocks : gmap string bool;
}.

Definition set_redisFaults (v : list bool) (w : world) : world :=
  World (isRedisConnected w) v (redisStore w) (inMemorySessions w)
        (staticFile w) (sseClientsBySession w) (clientOutput w)
        (brokenClients w) (nextClient w) (sessionLocks w).

Definition set_redisStore (v : gmap string (list item)) (w : world) : world :=
  World (isRedisConnected w) (redisFaults w) v (inMemorySessions w)
        (staticFile w) (sseClientsBySession w) (clientOutput w)
        (brokenClients w) (nextClient w) (sessionLocks w).

Definition set_inMemorySessions (v : gmap string (list item)) (w : world)
  : world :=
  World (isRedisConnected w) (redisFaults w) (redisStore w) v
        (staticFile w) (sseClientsBySession w) (clientOutput w)
        (brokenClients w) (nextClient w) (sessionLocks w).

Definition set_sseClientsBySession (v : gmap string (list nat)) (w : world)
  : world :=
  World (isRedisConnected w) (redisFaults w) (redisStore w)
        (inMemorySessions w) (staticFile w) v (clientOutput w)
        (brokenClients w) (nextClient w) (sessionLocks w).

Definition set_clientOutput (v : gmap nat (list sseChunk)) (w : world)
  : world :=
  World (isRedisConnected w) (redisFaults w) (redisStore w)
        (inMemorySessions w) (staticFile w) (sseClientsBySession w) v
        (brokenClients w) (nextClient w) (sessionLocks w).

Definition set_nextClient (v : nat) (w : world) : world :=
  World (isRedisConnected w) (redisFaults w) (redisStore w)
        (inMemorySessions w) (staticFile w) (sseClientsBySession w)
        (clientOutput w) (brokenClients w) v (sessionLocks w).

Definition set_sessionLocks (v : gmap string bool) (w : world) : world :=
  World (isRedisConnected w) (redisFaults w) (redisStore w)
        (inMemorySessions w) (staticFile w) (sseClientsBySession w)
        (clientOutput w) (brokenClients w) (nextClient w) v.

(** A server that has just started, without Redis. *)
Definition freshWorld (static : option (list item)) : world :=
  World false [] ∅ ∅ static ∅ ∅ ∅ 0 ∅.

(** ** Item store *)

(** One call of the Redis client: [true] when it throws. *)
Definition redisCall (w : world) : bool * world :=
  match redisFaults w with
  | [] => (false, w)
  | fault :: rest => (fault, set_redisFaults rest w)
  end.

Definition redisKey (sessionId : string) : string :=
  "boardItems:" +:+ sessionId.

Definition saveToMemory (sessionId : string) (items : list item) (w : world)
  : world :=
  set_inMemorySessions (<[sessionId := items]> (inMemorySessions w)) w.

(** [saveBoardItems]: [set] then [expire] on Redis; when Redis is not
    connected or either call throws, the in-memory map. *)
Definition saveBoardItems (sessionId : string) (items : list item) (w : world)
  : world :=
  if isRedisConnected w then
    let '(setThrows, w1) := redisCall w in
    if setThrows then saveToMemory sessionId items w1
    else
      let w2 :=
        set_redisStore (<[redisKey sessionId := items]> (redisStore w1)) w1 in
      let '(expireThrows, w3) := redisCall w2 in
      if expireThrows then saveToMemory sessionId items w3 else w3
  else saveToMemory sessionId items w.

(** [loadStaticItems]: the template file, or [[]] when reading fails. *)
Definition loadStaticItems (w : world) : list item :=
  default [] (staticFile w).

(** The Redis branch of [loadBoardItems]: the stored array when the key is
    there and [get] does not throw. *)
Definition redisGet (sessionId : string) (w : world)
  : option (list item) * world :=
  if isRedisConnected w then
    let '(getThrows, w1) := redisCall w in
    if getThrows then (None, w1)
    else (redisStore w1 !! redisKey sessionId, w1)
  else (None, w).

(** [loadBoardItems]: Redis, then the in-memory map, then the static
    template, which is saved under the session. The boolean tells whether
    the array returned is the very object held by [inMemorySessions] (it
    is not when it was parsed from Redis): a later [push] on it then shows
    in the map. *)
Definition loadBoardItems (sessionId : string) (w : world)
  : list item * bool * world :=
  let '(data, w1) := redisGet sessionId w in
  match data with
  | Some items => (items, false, w1)
  | None =>
      match inMemorySessions w1 !! sessionId with
      | Some items => (items, true, w1)
      | None =>
          let staticItems := loadStaticItems w1 in
          let w2 := saveBoardItems sessionId staticItems w1 in
          (staticItems,
           bool_decide (is_Some (inMemorySessions w2 !! sessionId)), w2)
      end
  end.

(** [existingItems.push (newItem)] on an array returned by
    [loadBoardItems]. *)
Definition pushItem (sessionId : string) (aliased : bool) (items : list item)
    (newItem : item) (w : world) : list item * world :=
  (items ++ [newItem],
   if aliased then saveToMemory sessionId (items ++ [newItem]) w else w).

(** ** Event broadcaster *)

(** [client.write (chunk)]: [None] when the write throws. *)
Definition clientWrite (client : nat) (chunk : sseChunk) (w : world)
  : option world :=
  if decide (client ∈ brokenClients w) then None
  else Some (set_clientOutput
               (<[client := default [] (clientOutput w !! client) ++ [chunk]]>
                  (clientOutput w)) w).

(** The body of the broadcast loop: two writes under one [try]. *)
Definition sendEvent (eventType : string) (data : ssePayload) (w : world)
    (client : nat) : world :=
  match clientWrite client (ChunkEvent eventType) w with
  | None => w
  | Some w1 =>
      match clientWrite client (ChunkData data) w1 with
      | None => w1
      | Some w2 => w2
      end
  end.

Record sseMessage := SseMessage {
  msg_event : option string;
  msg_data : ssePayload;
}.

(** [broadcastSSE]: every connection registered under the session gets
    the event. *)
Definition broadcastSSE (sessionId : string) (message : sseMessage) (w : world)
  : world :=
  let clients := default [] (sseClientsBySession w !! sessionId) in
  let eventType := strOr (msg_event message) "new-item" in
  fold_left (sendEvent eventType (msg_data message)) clients w.

Definition newItemEvent (it : item) : sseMessage :=
  SseMessage (Some "new-item") (PayloadNewItem it "created").

(** [GET /api/events]: a new connection, greeted and registered under the
    session of the request. *)
Definition openEvents (sessionId : string) (w : world) : nat * world :=
  let res := nextClient w in
  let w1 := set_nextClient (S res) w in
  let w2 := sendEvent "connected" (PayloadConnected sessionId) w1 res in
  let clients := default [] (sseClientsBySession w2 !! sessionId) in
  (res,
   set_sseClientsBySession
     (<[sessionId := clients ++ [res]]> (sseClientsBySession w2)) w2).

(** The [close] handler of such a connection. *)
Definition closeEvents (sessionId : string) (res : nat) (w : world) : world :=
  match sseClientsBySession w !! sessionId with
  | None => w
  | Some clients =>
      let clients' := filter (fun c => c ≠ res) clients in
      match clients' with
      | [] => set_sseClientsBySession
                (delete sessionId (sseClientsBySession w)) w
      | _ => set_sseClientsBySession
               (<[sessionId := clients']> (sseClientsBySession w)) w
      end
  end.

(** ** Session resolver *)

Record sessionSources := SessionSources {
  header_x_session_id : option string;
  query_sessionId : option string;
  query_session_id : option string;
  body_sessionId : option string;
  body_session_id : option string;
}.

(** JavaScript [a || b]. *)
Definition orElse (a b : option string) : option string :=
  if truthyStr a then a else b.

(** What a middleware can do with a request: pass it on with a session id
    (echoed in the [X-Session-Id] response header), or answer it. *)
Inductive middlewareResult :=
| Next (sessionId : string) (responseHeader : string)
| Respond (status : Z) (error : string).

(** [sessionMiddleware]; [uuid] is the value [uuidv4 ()] returns when it
    is called. *)
Definition sessionMiddleware (uuid : string) (req : sessionSources)
  : middlewareResult :=
  let sessionId :=
    orElse (orElse (orElse (orElse (header_x_session_id req)
                                   (query_sessionId req))
                           (query_session_id req))
                   (body_sessionId req))
           (body_session_id req) in
  let sessionId := strOr sessionId uuid in
  Next sessionId sessionId.

(** ** Mutation serializer *)

(** One test of the [while] of [acquireLock]: [None] when the lock is
    held and the caller sleeps, else the lock is taken. *)
Definition tryAcquireLock (sessionId : string) (w : world) : option world :=
  match sessionLocks w !! sessionId with
  | Some true => None
  | _ => Some (set_sessionLocks (<[sessionId := true]> (sessionLocks w)) w)
  end.

Definition releaseLock (sessionId : string) (w : world) : world :=
  set_sessionLocks (delete sessionId (sessionLocks w)) w.

(** ** Request handlers *)

Inductive response :=
| RespItems (sessionId : string) (items : list item) (count : nat)
| RespCreated (sessionId : string) (it : item)
| RespDeleted (sessionId : string)
| RespBatchDeleted (sessionId : string) (deletedCount remainingCount : Z)
| RespSynced (sessionId : string) (itemCount : nat)
| RespError (status : Z) (error : string).

(** [GET /api/board-items] *)
Definition get_board_items (sessionId : string) (w : world)
  : response * world :=
  let '(items, _, w1) := loadBoardItems sessionId w in
  (RespItems sessionId items (length items), w1).

(** The end every creation handler shares: [[...existingItems, newItem]]
    is saved and the new item is broadcast to the session. *)
Definition appendAndBroadcast (sessionId : string) (existingItems : list item)
    (newItem : item) (w : world) : response * world :=
  let w1 := saveBoardItems sessionId (existingItems ++ [newItem]) w in
  let w2 := broadcastSSE sessionId (newItemEvent newItem) w1 in
  (RespCreated sessionId newItem, w2).

(** *** POST /api/todos *)

Inductive todoInput :=
| TodoString (text : string)
| TodoObject (text : string) (status : option string)
| TodoOther (shown : string).

Record todosBody := TodosBody {
  todos_title : option string;
  todos_description : option string;
  todos_todo_items : option (list todoInput);
  todos_x : option Z;
  todos_y : option Z;
}.

Definition lowerAscii (c : ascii) : ascii :=
  let n := nat_of_ascii c in
  if ((65 <=? n) && (n <=? 90))%nat then ascii_of_nat (n + 32) else c.

Fixpoint toLowerCase (s : string) : string :=
  match s with
  | EmptyString => EmptyString
  | String c s' => String (lowerAscii c) (toLowerCase s')
  end.

Definition normalizeStatus (s : option string) : string :=
  let lowered := toLowerCase (strOr s EmptyString) in
  if String.eqb lowered "todo" || String.eqb lowered "in_progress" ||
     String.eqb lowered "done"
  then lowered else "todo".

Definition normalizeTodo (t : todoInput) : todoEntry :=
  match t with
  | TodoString text => TodoEntry text "todo" None None None
  | TodoObject text status =>
      TodoEntry text (normalizeStatus status) None None None
  | TodoOther shown => TodoEntry shown "todo" None None None
  end.

Definition calculateTodoHeight (todos : list todoEntry)
    (description : option string) : Z :=
  let baseHeight := 80 in
  let itemHeight := 35 in
  let descriptionHeight := if truthyStr description then 20 else 0 in
  let padding := 20 in
  let contentHeight :=
    baseHeight + Z.of_nat (length todos) * itemHeight + descriptionHeight
    + padding in
  clamp 200 600 contentHeight.

Definition post_todos (sessionId id : string) (body : todosBody) (w : world)
  : response * world :=
  match truthyStr (todos_title body), todos_todo_items body with
  | true, Some todo_items =>
      let todos := map normalizeTodo todo_items in
      let dynamicHeight := calculateTodoHeight todos (todos_description body) in
      let '(existingItems, _, w1) := loadBoardItems sessionId w in
      let '(itemX, itemY) :=
        match todos_x body, todos_y body with
        | Some x, Some y => (x, y)
        | _, _ =>
            let tempItem := tempItemOf "todo" 420 (HNum dynamicHeight) in
            findPositionInZone tempItem existingItems TASK_ZONE
        end in
      let description := strOr (todos_description body) EmptyString in
      let newItem :=
        Item id "todo" itemX itemY 420 (HNum dynamicHeight)
             (Some (TodoData (textOf (todos_title body))
                             (Some description) (Some todos)))
             None None None in
      appendAndBroadcast sessionId existingItems newItem w1
  | _, _ =>
      (RespError 400 "title (string) and todo_items (array) are required", w)
  end.

(** *** POST /api/agents *)

Record agentsBody := AgentsBody {
  agents_title : option string;
  agents_content : option string;
  agents_zone : option string;
  agents_x : option Z;
  agents_y : option Z;
}.

Definition zoneConfig (name : string) : option zone :=
  if String.eqb name "task-management-zone" then Some TASK_ZONE
  else if String.eqb name "retrieved-data-zone" then Some RETRIEVED_DATA_ZONE
  else if String.eqb name "doctors-note-zone" then Some DOCTORS_NOTE_ZONE
  else None.

(** [zoneConfig] is an object literal: besides its three keys,
    [zoneConfig[zone]] is truthy for the names every object inherits.
    What it then yields is no zone: its [x] and [width] are undefined,
    [maxColumns] is [NaN], [Array (maxColumns)] throws in
    [findPositionInZone], and the handler answers from its [catch]. *)
Definition inheritedKeys : list string :=
  ["constructor"; "__proto__"; "toString"; "toLocaleString"; "valueOf";
   "hasOwnProperty"; "isPrototypeOf"; "propertyIsEnumerable";
   "__defineGetter__"; "__defineSetter__"; "__lookupGetter__";
   "__lookupSetter__"].

Definition inheritedKey (name : string) : bool :=
  existsb (String.eqb name) inheritedKeys.

(** [Math.ceil (content.length / (520 / 12))] is the ceiling of
    [12 * length / 520]. *)
Definition calculateHeight (content : string) : Z :=
  let baseHeight := 80 in
  let lineHeight := 20 in
  let estimatedLines := ceilDiv (12 * Z.of_nat (String.length content)) 520 in
  let contentHeight := Z.max (estimatedLines * lineHeight) 100 in
  Z.min (baseHeight + contentHeight) 800.

Definition post_agents (sessionId id : string) (body : agentsBody) (w : world)
  : response * world :=
  if truthyStr (agents_title body) && truthyStr (agents_content body) then
    let title := textOf (agents_title body) in
    let content := textOf (agents_content body) in
    let dynamicHeight := calculateHeight content in
    let '(existingItems, _, w1) := loadBoardItems sessionId w in
    let tempItem := tempItemOf "agent" 520 (HNum dynamicHeight) in
    let placed :=
      match agents_x body, agents_y body with
      | Some x, Some y => Some (x, y)
      | _, _ =>
          if truthyStr (agents_zone body) then
            match zoneConfig (textOf (agents_zone body)) with
            | Some z => Some (findPositionInZone tempItem existingItems z)
            | None =>
                if inheritedKey (textOf (agents_zone body)) then None
                else Some (findPositionInZone tempItem existingItems TASK_ZONE)
            end
          else Some (findPositionInZone tempItem existingItems TASK_ZONE)
      end in
    match placed with
    | Some (itemX, itemY) =>
        let newItem :=
          Item id "agent" itemX itemY 520 (HNum dynamicHeight)
               None (Some (AgentData title (Some content))) None None in
        appendAndBroadcast sessionId existingItems newItem w1
    | None => (RespError 500 "Failed to create agent item", w1)
    end
  else (RespError 400 "title (string) and content (string) are required", w).

(** *** POST /api/lab-results *)

Record labRange := LabRange {
  range_min : option Z;
  range_max : option Z;
}.

Record labBody := LabBody {
  labreq_parameter : option string;
  labreq_value : option Z;
  labreq_unit : option string;
  labreq_status : option string;
  labreq_range : option labRange;
  labreq_trend : option string;
  labreq_x : option Z;
  labreq_y : option Z;
}.

Definition truthyNum (n : option Z) : bool :=
  match n with Some n => negb (n =? 0) | None => false end.

Definition validStatus (status : string) : bool :=
  String.eqb status "optimal" || String.eqb status "warning" ||
  String.eqb status "critical".

Definition post_lab_results (sessionId id : string) (body : labBody)
    (w : world) : response * world :=
  match labreq_range body with
  | Some range =>
      if truthyStr (labreq_parameter body) && truthyNum (labreq_value body) &&
         truthyStr (labreq_unit body) && truthyStr (labreq_status body)
      then
        let parameter := textOf (labreq_parameter body) in
        let status := textOf (labreq_status body) in
        if negb (validStatus status) then
          (RespError 400 "status must be one of: optimal, warning, critical", w)
        else if negb (truthyNum (range_min range)) ||
                negb (truthyNum (range_max range)) ||
                (default 0 (range_max range) <=? default 0 (range_min range))
        then
          (RespError 400
             "range must have valid min and max values where min < max", w)
        else
          let '(existingItems, _, w1) := loadBoardItems sessionId w in
          let '(itemX, itemY) :=
            match labreq_x body, labreq_y body with
            | Some x, Some y => (x, y)
            | _, _ =>
                let tempItem := tempItemOf "lab-result" 400 (HNum 280) in
                findPositionInZone tempItem existingItems RETRIEVED_DATA_ZONE
            end in
          let trend := strOr (labreq_trend body) "stable" in
          let newItem :=
            Item id "lab-result" itemX itemY 400 (HNum 280) None None
                 (Some (LabResultData parameter
                          (default 0 (labreq_value body))
                          (textOf (labreq_unit body)) status
                          (default 0 (range_min range))
                          (default 0 (range_max range)) trend))
                 None in
          appendAndBroadcast sessionId existingItems newItem w1
      else
        (RespError 400
           "parameter, value, unit, status, and range are required", w)
  | None =>
      (RespError 400 "parameter, value, unit, status, and range are required",
       w)
  end.

(** *** POST /api/ehr-data *)

Record ehrBody := EhrBody {
  ehr_title : option string;
  ehr_content : option string;
  ehr_x : option Z;
  ehr_y : option Z;
  ehr_width : option Z;
  ehr_height : option Z;
}.

(** JavaScript [n || d] on numbers. *)
Definition numOr (n : option Z) (d : Z) : Z :=
  if truthyNum n then default 0 n else d.

Definition post_ehr_data (sessionId itemId : string) (body : ehrBody)
    (w : world) : response * world :=
  if truthyStr (ehr_title body) && truthyStr (ehr_content body) then
    let '(existingItems, aliased, w1) := loadBoardItems sessionId w in
    let width := numOr (ehr_width body) 400 in
    let height := numOr (ehr_height body) 300 in
    let '(itemX, itemY) :=
      match ehr_x body, ehr_y body with
      | Some x, Some y => (x, y)
      | _, _ =>
          let tempItem := tempItemOf "ehr-data" width (HNum height) in
          findPositionInZone tempItem existingItems RETRIEVED_DATA_ZONE
      end in
    let newItem := plainItem itemId "ehr-data" itemX itemY width (HNum height) in
    let '(items, w2) := pushItem sessionId aliased existingItems newItem w1 in
    let w3 := saveBoardItems sessionId items w2 in
    let w4 := broadcastSSE sessionId (newItemEvent newItem) w3 in
    (RespCreated sessionId newItem, w4)
  else
    (RespError 400 "Title and content are required for EHR data items", w).

(** *** POST /api/doctor-notes *)

Record noteBody := NoteBody {
  note_content : option string;
  note_x : option Z;
  note_y : option Z;
  note_width : option Z;
  note_height : option Z;
}.

Definition post_doctor_notes (sessionId noteId : string) (body : noteBody)
    (w : world) : response * world :=
  let noteX := default 4300 (note_x body) in
  let noteY := default (-2200) (note_y body) in
  let noteWidth := numOr (note_width body) 450 in
  let noteHeight := numOr (note_height body) 600 in
  let content := strOr (note_content body) EmptyString in
  let noteItem :=
    Item noteId "doctor-note" noteX noteY noteWidth (HNum noteHeight)
         None None None (Some content) in
  let '(items, aliased, w1) := loadBoardItems sessionId w in
  let position := findPositionInZone noteItem items DOCTORS_NOTE_ZONE in
  let noteItem :=
    Item noteId "doctor-note" (fst position) (snd position) noteWidth
         (HNum noteHeight) None None None (Some content) in
  let '(items', w2) := pushItem sessionId aliased items noteItem w1 in
  let w3 := saveBoardItems sessionId items' w2 in
  let w4 := broadcastSSE sessionId (newItemEvent noteItem) w3 in
  (RespCreated sessionId noteItem, w4).

(** *** POST /api/enhanced-todo *)

Record subTodoInput := SubTodoInput {
  subin_text : option string;
  subin_status : option string;
}.

Record enhancedTodoInput := EnhancedTodoInput {
  etodo_text : option string;
  etodo_status : option string;
  etodo_agent : option string;
  etodo_id : option string;
  etodo_subTodos : option (list subTodoInput);
}.

Record enhancedTodoBody := EnhancedTodoBody {
  etb_title : option string;
  etb_description : option string;
  etb_todos : option (list enhancedTodoInput);
  etb_x : option Z;
  etb_y : option Z;
  etb_width : option Z;
  etb_height : option jsheight;
}.

Definition validTaskStatus (status : string) : bool :=
  String.eqb status "pending" || String.eqb status "executing" ||
  String.eqb status "finished".

(** The inner loop over the sub-todos: the first error, or the
    sub-todos. *)
Fixpoint validateSubTodos (subs : list subTodoInput)
  : string + list subTodo :=
  match subs with
  | [] => inr []
  | sub :: subs' =>
      if negb (truthyStr (subin_text sub) && truthyStr (subin_status sub))
      then inl "Each sub-todo item must have text and status fields"
      else if negb (validTaskStatus (textOf (subin_status sub)))
      then inl "Sub-todo status must be one of: pending, executing, finished"
      else
        match validateSubTodos subs' with
        | inl error => inl error
        | inr rest =>
            inr (SubTodo (textOf (subin_text sub))
                         (textOf (subin_status sub)) :: rest)
        end
  end.

(** The loop over the todos, [i] being the index of the head; [taskId i]
    is the identifier generated for a todo that has none. *)
Fixpoint validateTodos (taskId : nat → string) (i : nat)
    (todos : list enhancedTodoInput) : string + list todoEntry :=
  match todos with
  | [] => inr []
  | todo :: todos' =>
      if negb (truthyStr (etodo_text todo) && truthyStr (etodo_status todo) &&
               truthyStr (etodo_agent todo))
      then inl "Each main todo item must have text, status, and agent fields"
      else if negb (validTaskStatus (textOf (etodo_status todo)))
      then inl "Todo status must be one of: pending, executing, finished"
      else
        let id := strOr (etodo_id todo) (taskId i) in
        let checked :=
          match etodo_subTodos todo with
          | Some subs =>
              match validateSubTodos subs with
              | inl error => inl error
              | inr subs' => inr (Some subs')
              end
          | None => inr None
          end in
        match checked with
        | inl error => inl error
        | inr subs =>
            match validateTodos taskId (S i) todos' with
            | inl error => inl error
            | inr rest =>
                inr (TodoEntry (textOf (etodo_text todo))
                               (textOf (etodo_status todo))
                               (etodo_agent todo) (Some id) subs :: rest)
            end
        end
  end.

Definition post_enhanced_todo (sessionId id : string) (taskId : nat → string)
    (body : enhancedTodoBody) (w : world) : response * world :=
  match truthyStr (etb_title body), etb_todos body with
  | true, Some todos =>
      match validateTodos taskId 0 todos with
      | inl error => (RespError 400 error, w)
      | inr todos =>
          let width := default 450 (etb_width body) in
          let height := default HAuto (etb_height body) in
          let '(existingItems, _, w1) := loadBoardItems sessionId w in
          let '(itemX, itemY) :=
            match etb_x body, etb_y body with
            | Some x, Some y => (x, y)
            | _, _ =>
                let tempItem :=
                  Item EmptyString "todo" 0 0 width height
                       (Some (TodoData EmptyString (etb_description body)
                                       (Some todos)))
                       None None None in
                findPositionInZone tempItem existingItems TASK_ZONE
            end in
          let description := strOr (etb_description body) EmptyString in
          let newItem :=
            Item id "todo" itemX itemY width height
                 (Some (TodoData (textOf (etb_title body))
                                 (Some description) (Some todos)))
                 None None None in
          appendAndBroadcast sessionId existingItems newItem w1
      end
  | _, _ => (RespError 400 "title and todos array are required", w)
  end.

(** *** POST /api/board-items *)

Record boardItemBody := BoardItemBody {
  bi_type : option string;
  bi_componentType : option string;
  bi_x : option Z;
  bi_y : option Z;
  bi_width : option Z;
  bi_height : option Z;
}.

Definition componentSize (componentType : option string) : Z * Z :=
  match componentType with
  | Some c =>
      if String.eqb c "PatientContext" then (1600, 300)
      else if String.eqb c "MedicationTimeline" then (1600, 400)
      else if String.eqb c "AdverseEventAnalytics" then (1600, 500)
      else if String.eqb c "LabTable" || String.eqb c "LabChart" ||
              String.eqb c "DifferentialDiagnosis" then (520, 400)
      else (600, 400)
  | None => (600, 400)
  end.

Definition defaultSize (type : string) (componentType : option string)
  : Z * Z :=
  if String.eqb type "component" then componentSize componentType
  else if String.eqb type "text" then (200, 100)
  else if String.eqb type "ehr" then (550, 450)
  else (150, 150).

(** [randomX] and [randomY] are the values of
    [Math.random () * 8000 + 100] and [Math.random () * 7000 + 100]. *)
Definition post_board_items (sessionId id : string) (randomX randomY : Z)
    (body : boardItemBody) (w : world) : response * world :=
  if truthyStr (bi_type body) then
    let type := textOf (bi_type body) in
    let '(defaultWidth, defaultHeight) :=
      defaultSize type (bi_componentType body) in
    let newItem :=
      plainItem id type (numOr (bi_x body) randomX) (numOr (bi_y body) randomY)
                (numOr (bi_width body) defaultWidth)
                (HNum (numOr (bi_height body) defaultHeight)) in
    let '(existingItems, _, w1) := loadBoardItems sessionId w in
    appendAndBroadcast sessionId existingItems newItem w1
  else (RespError 400 "Type is required", w).

(** *** The lock-guarded handlers *)

Inductive lockedRequest :=
| DeleteItem (id : string)
| BatchDelete (itemIds : option (list string))
| SyncItems (items : option (list item)).

(** Where an exception escapes the body of the [try]: from the awaited
    load, from the awaited save, or from sending the answer. A call that
    throws leaves the store as it was. *)
Inductive throwPoint :=
| NoThrow
| ThrowInLoad
| ThrowInSave
| ThrowInRespond.

#[global] Instance throwPoint_eq_dec : EqDecision throwPoint.
Proof. solve_decision. Defined.

(** Where a handler stands between two of its [await]s. *)
Inductive phase :=
| AtStart
| Locked
| Loaded (items : list item)
| Saved (answer : response)
| Finished (answer : response).

(** The [catch] block of a handler. *)
Definition caught (sessionId : string) (error : string) (w : world)
  : phase * world :=
  (Finished (RespError 500 error), releaseLock sessionId w).

Definition failureMessage (rq : lockedRequest) : string :=
  match rq with
  | DeleteItem _ => "Failed to delete board item"
  | BatchDelete _ => "Failed to batch delete items"
  | SyncItems _ => "Failed to sync items"
  end.

(** The check made before the [try]: an array is required. *)
Definition rejected (rq : lockedRequest) : option string :=
  match rq with
  | DeleteItem _ => None
  | BatchDelete None => Some "itemIds array is required"
  | BatchDelete (Some _) => None
  | SyncItems None => Some "items array is required"
  | SyncItems (Some _) => None
  end.

(** The list the handler saves once it has loaded [items]; [None] is the
    not-found exit of the single delete. *)
Definition keepItems (rq : lockedRequest) (items : list item)
  : option (list item) :=
  match rq with
  | DeleteItem id =>
      let filteredItems := filter (fun it => item_id it ≠ id) items in
      if (length filteredItems =? length items)%nat then None
      else Some filteredItems
  | BatchDelete itemIds =>
      Some (filter (fun it => item_id it ∉ default [] itemIds) items)
  | SyncItems _ => Some items
  end.

Definition successAnswer (sessionId : string) (rq : lockedRequest)
    (items filteredItems : list item) : response :=
  match rq with
  | DeleteItem _ => RespDeleted sessionId
  | BatchDelete _ =>
      RespBatchDeleted sessionId
        (Z.of_nat (length items) - Z.of_nat (length filteredItems))
        (Z.of_nat (length filteredItems))
  | SyncItems _ => RespSynced sessionId (length filteredItems)
  end.

(** One run of a handler from an [await] to the next.
    - [AtStart]: the validation, then one test of the lock loop;
    - [Locked]: [loadBoardItems] (delete, batch delete), or for a sync the
      save of the items of the request;
    - [Loaded]: the filter, the not-found exit, [saveBoardItems];
    - [Saved]: [releaseLock] and the answer.
    [loadBoardItems] and [saveBoardItems] await the Redis client inside;
    each is one step here, since the handlers served beside them take the
    same lock first and, while they wait for it, touch nothing but the
    lock map. *)
Definition handlerStep (sessionId : string) (rq : lockedRequest)
    (thr : throwPoint) (p : phase) (w : world) : phase * world :=
  match p with
  | AtStart =>
      match rejected rq with
      | Some error => (Finished (RespError 400 error), w)
      | None =>
          match tryAcquireLock sessionId w with
          | None => (AtStart, w)
          | Some w1 => (Locked, w1)
          end
      end
  | Locked =>
      match rq with
      | SyncItems items =>
          if decide (thr = ThrowInSave)
          then caught sessionId (failureMessage rq) w
          else
            let items := default [] items in
            (Saved (successAnswer sessionId rq items items),
             saveBoardItems sessionId items w)
      | _ =>
          if decide (thr = ThrowInLoad)
          then caught sessionId (failureMessage rq) w
          else
            let '(items, _, w1) := loadBoardItems sessionId w in
            (Loaded items, w1)
      end
  | Loaded items =>
      match keepItems rq items with
      | None =>
          (Finished (RespError 404 "Board item not found"),
           releaseLock sessionId w)
      | Some filteredItems =>
          if decide (thr = ThrowInSave)
          then caught sessionId (failureMessage rq) w
          else
            (Saved (successAnswer sessionId rq items filteredItems),
             saveBoardItems sessionId filteredItems w)
      end
  | Saved answer =>
      let w1 := releaseLock sessionId w in
      if decide (thr = ThrowInRespond)
      then caught sessionId (failureMessage rq) w1
      else (Finished answer, w1)
  | Finished answer => (Finished answer, w)
  end.

(** A request served alone: its steps one after the other. *)
Fixpoint runHandler (fuel : nat) (sessionId : string) (rq : lockedRequest)
    (thr : throwPoint) (p : phase) (w : world) : phase * world :=
  match fuel with
  | O => (p, w)
  | S fuel' =>
      let '(p1, w1) := handlerStep sessionId rq thr p w in
      runHandler fuel' sessionId rq thr p1 w1
  end.


(** *** The creation endpoints as one request type *)

Inductive createRequest :=
| PostTodos (id : string) (body : todosBody)
| PostAgents (id : string) (body : agentsBody)
| PostLabResults (id : string) (body : labBody)
| PostEhrData (id : string) (body : ehrBody)
| PostDoctorNotes (id : string) (body : noteBody)
| PostEnhancedTodo (id : string) (taskId : nat → string)
                   (body : enhancedTodoBody)
| PostBoardItems (id : string) (randomX randomY : Z) (body : boardItemBody).

Definition create (sessionId : string) (rq : createRequest) (w : world)
  : response * world :=
  match rq with
  | PostTodos id body => post_todos sessionId id body w
  | PostAgents id body => post_agents sessionId id body w
  | PostLabResults id body => post_lab_results sessionId id body w
  | PostEhrData id body => post_ehr_data sessionId id body w
  | PostDoctorNotes id body => post_doctor_notes sessionId id body w
  | PostEnhancedTodo id taskId body =>
      post_enhanced_todo sessionId id taskId body w
  | PostBoardItems id rx ry body => post_board_items sessionId id rx ry body w
  end.

(** ** Notions the statements use *)

(** What a read of the session returns. *)
Definition currentItems (sessionId : string) (w : world) : list item :=
  (loadBoardItems sessionId w).1.1.

Definition clientsOf (sessionId : string) (w : world) : list nat :=
  default [] (sseClientsBySession w !! sessionId).

(** Every connection is registered under one session at most, and was
    handed out by [openEvents]. *)
Definition registryOk (w : world) : Prop :=
  (∀ s1 s2 c, s1 ≠ s2 → c ∈ clientsOf s1 w → c ∉ clientsOf s2 w) ∧
  (∀ s c, c ∈ clientsOf s w → (c < nextClient w)%nat).

(** The phases in which a handler holds the lock. *)
Definition inCritical (p : phase) : bool :=
  match p with
  | Locked | Loaded _ | Saved _ => true
  | AtStart | Finished _ => false
  end.


(** A cell of a grid is taken when an item of the list is bucketed into
    it. *)
Definition cellTaken (originX originY colWidth rowHeight : Z)
    (zoneItems : list item) (row col : nat) : Prop :=
  ∃ it, it ∈ zoneItems ∧
        gridCell originX originY colWidth rowHeight it
        = (Z.of_nat row, Z.of_nat col).

(** Row-major order on cells. *)
Definition cellBefore (row col row' col' : nat) : Prop :=
  (row < row')%nat ∨ (row = row' ∧ (col < col')%nat).

(** A request without any session id. *)
Definition noSessionId : sessionSources :=
  SessionSources None None None None None.

(** What the store functions leave alone. *)
Definition sameOutside (w w' : world) : Prop :=
  isRedisConnected w' = isRedisConnected w ∧
  staticFile w' = staticFile w ∧
  sseClientsBySession w' = sseClientsBySession w ∧
  clientOutput w' = clientOutput w ∧
  brokenClients w' = brokenClients w ∧
  nextClient w' = nextClient w ∧
  sessionLocks w' = sessionLocks w.

(** The column an item falls in and the bottom it claims there, as
    [bumpColumn] computes them. *)
Definition columnOf (startX : Z) (it : item) : Z :=
  (item_x it - startX) / (520 + 60).

Definition bottomOf (it : item) : Z :=
  item_y it + estimateItemHeight it + 60.

(** The bottom of column [j] of a zone as a packing counts it: the top
    of the column, or the lowest bottom, padding included, of the existing
    items whose corner lies in the zone rectangle and in that column; the
    type of an item plays no part. *)
Definition occupiedBottom (z : zone) (existingItems : list item) (j : nat)
  : Z :=
  fold_left Z.max
    (map bottomOf
       (filter (fun it => inZone z it = true ∧
                          columnOf (zone_x z + 60) it = Z.of_nat j)
               existingItems))
    (zone_y z + 60).

(** Two items stand at the same place and are estimated as high. *)
Definition sameBox (it it' : item) : Prop :=
  item_x it = item_x it' ∧ item_y it = item_y it' ∧
  estimateItemHeight it = estimateItemHeight it'.

(** [(row, col)] is the first cell in row-major order that no item of the
    list is bucketed into. *)
Definition firstFreeCell (originX originY colWidth rowHeight : Z)
    (rows cols : nat) (zoneItems : list item) (row col : nat) : Prop :=
  (row < rows)%nat ∧ (col < cols)%nat ∧
  ¬ cellTaken originX originY colWidth rowHeight zoneItems row col ∧
  ∀ r c, (r < rows)%nat → (c < cols)%nat → cellBefore r c row col →
         cellTaken originX originY colWidth rowHeight zoneItems r c.

Definition gridFull (originX originY colWidth rowHeight : Z)
    (rows cols : nat) (zoneItems : list item) : Prop :=
  ∀ r c, (r < rows)%nat → (c < cols)%nat →
         cellTaken originX originY colWidth rowHeight zoneItems r c.

(** The invariant of the marking loop: the grid has its shape, and a cell
    is set exactly when an item seen so far is bucketed into it. *)
Definition gridInv (originX originY colWidth rowHeight maxRows maxCols : Z)
    (grid : list (list bool)) (seen : list item) : Prop :=
  length grid = Z.to_nat maxRows ∧
  (∀ r cells, grid !! r = Some cells → length cells = Z.to_nat maxCols) ∧
  ∀ r c cells b, grid !! r = Some cells → cells !! c = Some b →
                 (b = true ↔
                  cellTaken originX originY colWidth rowHeight seen r c).

(** How many steps a handler that is not kept waiting still has to make. *)
Definition phaseRank (p : phase) : nat :=
  match p with
  | AtStart => 4
  | Locked => 3
  | Loaded _ => 2
  | Saved _ => 1
  | Finished _ => 0
  end.

(** The lock of the session is held exactly while the handler is between
    its acquire and its release. *)
Definition lockFollows (sessionId : string) (p : phase) (w : world) : Prop :=
  sessionLocks w !! sessionId = if inCritical p then Some true else None.

(** *** Two deletes served together *)

(** An item is still there when no delete that has saved was aimed at
    it. *)
Definition survives (saved1 saved2 : bool) (idA idB : string) (it : item)
  : Prop :=
  (saved1 = true → item_id it ≠ idA) ∧ (saved2 = true → item_id it ≠ idB).

#[global] Instance survives_dec saved1 saved2 idA idB it :
  Decision (survives saved1 saved2 idA idB it).
Proof. unfold survives. apply _. Defined.



(** *** Session isolation *)

(** Two states show the same to a session: the same Redis connection and
    template, the same Redis entry and the same in-memory entry for it. *)
Definition sameSession (sessionId : string) (w w' : world) : Prop :=
  isRedisConnected w' = isRedisConnected w ∧
  staticFile w' = staticFile w ∧
  redisStore w' !! redisKey sessionId = redisStore w !! redisKey sessionId ∧
  inMemorySessions w' !! sessionId = inMemorySessions w !! sessionId.

(** Two states have the same connections, registered alike. *)
Definition sameRegistry (w w' : world) : Prop :=
  sseClientsBySession w' = sseClientsBySession w ∧
  brokenClients w' = brokenClients w ∧
  nextClient w' = nextClient w.

(** * The rest of the server, and its callers *)

(** ** Legacy free placement *)

Definition collisionHeight (h : jsheight) : Z :=
  match h with
  | HNum n => n
  | HAuto | HAbsent => 500
  end.

Definition isAuto (h : jsheight) : bool :=
  match h with
  | HAuto => true
  | HNum _ | HAbsent => false
  end.

(** [checkCollision]: the boxes of two items overlap; an item of height
    ["auto"] collides with nothing, a missing height counts as 500. *)
Definition checkCollision (item1 item2 : item) : bool :=
  if isAuto (item_height item1) || isAuto (item_height item2) then false
  else
    let h1 := collisionHeight (item_height item1) in
    let h2 := collisionHeight (item_height item2) in
    let noCollision :=
      (item_x item1 + item_width item1 <=? item_x item2) ||
      (item_x item2 + item_width item2 <=? item_x item1) ||
      (item_y item1 + h1 <=? item_y item2) ||
      (item_y item2 + h2 <=? item_y item1) in
    negb noCollision.

(** The [testItem] of [findNonOverlappingPosition]: the new item moved to
    the position under test. *)
Definition testItemAt (newItem : item) (testX testY : Z) : item :=
  plainItem EmptyString EmptyString testX testY (item_width newItem)
            (item_height newItem).

(** The inner [for] with its [break]: some existing item collides. *)
Definition hasCollision (newItem : item) (existingItems : list item)
    (testX testY : Z) : bool :=
  existsb (checkCollision (testItemAt newItem testX testY)) existingItems.

(** The lowest bottom edge, from [0]; [y + height] is a number only for a
    numeric height, otherwise the comparison with it fails. *)
Definition lowestBottom (existingItems : list item) : Z :=
  fold_left
    (fun maxBottom existing =>
       match item_height existing with
       | HNum h =>
           if maxBottom <? item_y existing + h
           then item_y existing + h else maxBottom
       | HAuto | HAbsent => maxBottom
       end)
    existingItems 0.

(** The [while] loop; [random k] is the [k]-th pair drawn for
    [(Math.random () * 8000 + 100, Math.random () * 7000 + 100)], [draws]
    counts the pairs drawn so far. *)
Fixpoint searchPosition (attemptsLeft : nat) (random : nat → Z * Z)
    (draws : nat) (newItem : item) (existingItems : list item)
    (testX testY : Z) : Z * Z :=
  match attemptsLeft with
  | O => (testX, testY)
  | S attemptsLeft' =>
      if hasCollision newItem existingItems testX testY then
        let padding := 20 in
        let testY' := lowestBottom existingItems + padding in
        if 8000 <? testY' then
          searchPosition attemptsLeft' random (S draws) newItem existingItems
                         (random draws).1 (random draws).2
        else
          searchPosition attemptsLeft' random draws newItem existingItems
                         testX testY'
      else (testX, testY)
  end.

(** [findNonOverlappingPosition]: the position of the item when it has
    one ([0] is falsy) and collides with nothing, else below the lowest
    item, else at random, for fifty attempts at most. *)
Definition findNonOverlappingPosition (random : nat → Z * Z) (newItem : item)
    (existingItems : list item) : Z * Z :=
  let maxAttempts := 50%nat in
  if (item_x newItem =? 0) || (item_y newItem =? 0) then
    searchPosition maxAttempts random 1 newItem existingItems
                   (random 0%nat).1 (random 0%nat).2
  else
    searchPosition maxAttempts random 0 newItem existingItems
                   (item_x newItem) (item_y newItem).

(** ** PUT /api/board-items/:id *)

(** The body of the request, spread over the item: a field that is there
    replaces the field of the item. *)
Record itemPatch := ItemPatch {
  patch_id : option string;
  patch_type : option string;
  patch_x : option Z;
  patch_y : option Z;
  patch_width : option Z;
  patch_height : option jsheight;
  patch_todoData : option todoData;
  patch_agentData : option agentData;
  patch_labResultData : option labResultData;
  patch_noteData : option string;
}.

Definition orKeep {A} (new old : option A) : option A :=
  match new with
  | Some v => Some v
  | None => old
  end.

(** [{ ...items[itemIndex], ...updates }] *)
Definition applyPatch (it : item) (updates : itemPatch) : item :=
  Item (default (item_id it) (patch_id updates))
       (default (item_type it) (patch_type updates))
       (default (item_x it) (patch_x updates))
       (default (item_y it) (patch_y updates))
       (default (item_width it) (patch_width updates))
       (default (item_height it) (patch_height updates))
       (orKeep (patch_todoData updates) (item_todoData it))
       (orKeep (patch_agentData updates) (item_agentData it))
       (orKeep (patch_labResultData updates) (item_labResultData it))
       (orKeep (patch_noteData updates) (item_noteData it)).

Inductive putResponse :=
| PutOk (sessionId : string) (it : item)
| PutError (status : Z) (error : string).

(** [items.findIndex (item => item.id === id)] *)
Definition findIndexById (id : string) (items : list item)
  : option (nat * item) :=
  list_find (fun it => item_id it = id) items.

(** The handler writes the merged item into the array it has loaded, which
    shows in [inMemorySessions] when the array is the one held there, and
    saves the array. *)
Definition put_board_item (sessionId id : string) (updates : itemPatch)
    (w : world) : putResponse * world :=
  let '(items, aliased, w1) := loadBoardItems sessionId w in
  match findIndexById id items with
  | None => (PutError 404 "Board item not found", w1)
  | Some (itemIndex, it) =>
      let merged := applyPatch it updates in
      let items' := <[itemIndex := merged]> items in
      let w2 := if aliased then saveToMemory sessionId items' w1 else w1 in
      let w3 := saveBoardItems sessionId items' w2 in
      (PutOk sessionId merged, w3)
  end.

(** ** POST /api/focus *)

Record focusOptions := FocusOptions {
  fo_zoom : QArith_base.Q;
  fo_highlight : bool;
  fo_duration : Z;
  fo_scrollIntoView : bool;
}.

Record focusOverrides := FocusOverrides {
  over_zoom : option QArith_base.Q;
  over_highlight : option bool;
  over_duration : option Z;
  over_scrollIntoView : option bool;
}.

Record focusBody := FocusBody {
  focus_objectId : option string;
  focus_itemId : option string;
  focus_subElement : option string;
  focus_focusOptions : option focusOverrides;
}.

Inductive focusResponse :=
| FocusOk (sessionId itemId : string) (subElement : option string)
          (options : focusOptions)
| FocusError (status : Z) (error : string).

Definition defaultFocusOptions (subElement : option string) : focusOptions :=
  if truthyStr subElement
  then FocusOptions (QArith_base.Qmake 3 2) true 1500 true
  else FocusOptions (QArith_base.Qmake 6 5) false 1200 true.

(** [{ ...defaultOptions, ...(focusOptions || {}) }] *)
Definition mergeFocusOptions (defaults : focusOptions)
    (given : option focusOverrides) : focusOptions :=
  match given with
  | None => defaults
  | Some o =>
      FocusOptions (default (fo_zoom defaults) (over_zoom o))
                   (default (fo_highlight defaults) (over_highlight o))
                   (default (fo_duration defaults) (over_duration o))
                   (default (fo_scrollIntoView defaults)
                            (over_scrollIntoView o))
  end.

Definition post_focus (sessionId : string) (body : focusBody) (w : world)
  : focusResponse * world :=
  let targetId := orElse (focus_itemId body) (focus_objectId body) in
  if truthyStr targetId then
    let subElement :=
      if truthyStr (focus_subElement body) then focus_subElement body
      else None in
    let options :=
      mergeFocusOptions (defaultFocusOptions (focus_subElement body))
                        (focus_focusOptions body) in
    let w1 :=
      broadcastSSE sessionId
        (SseMessage (Some "focus") (PayloadFocus (textOf targetId) subElement))
        w in
    (FocusOk sessionId (textOf targetId) subElement options, w1)
  else (FocusError 400 "objectId or itemId is required", w).

(** ** GET /api/session and DELETE /api/session *)

Record sessionInfo := SessionInfo {
  info_sessionId : string;
  info_itemCount : nat;
  info_connectedClients : nat;
}.

Definition get_session (sessionId : string) (w : world)
  : sessionInfo * world :=
  let '(items, _, w1) := loadBoardItems sessionId w in
  (SessionInfo sessionId (length items) (length (clientsOf sessionId w1)), w1).

(** [redisClient.del] under its [try]. *)
Definition redisDel (sessionId : string) (w : world) : world :=
  if isRedisConnected w then
    let '(delThrows, w1) := redisCall w in
    if delThrows then w1
    else set_redisStore (delete (redisKey sessionId) (redisStore w1)) w1
  else w.

(** The record of the session is dropped from Redis and from memory, its
    connections are ended and forgotten. The state does not tell an ended
    connection from an open one; it is written on no more, being
    registered nowhere. *)
Definition delete_session (sessionId : string) (w : world) : world :=
  let w1 := redisDel sessionId w in
  let w2 :=
    set_inMemorySessions (delete sessionId (inMemorySessions w1)) w1 in
  set_sseClientsBySession (delete sessionId (sseClientsBySession w2)) w2.

(** ** The viewer (App.tsx) *)

(** The state update of the [new-item] listener: an item whose id is
    already shown is skipped. *)
Definition applyNewItem (prev : list item) (newItem : item) : list item :=
  if existsb (fun it => String.eqb (item_id it) (item_id newItem)) prev
  then prev
  else prev ++ [newItem].

(** ** Notions the further statements use *)

(** No connection is registered twice under a session, and nothing has
    been written yet on a connection that has not been handed out. *)
Definition connectionsOk (w : world) : Prop :=
  (∀ s, NoDup (clientsOf s w)) ∧
  (∀ c, (nextClient w ≤ c)%nat → clientOutput w !! c = None).

(** The top-left corner [(x, y)] lies in the zone. *)
Definition cornerInZone (z : zone) (position : Z * Z) : Prop :=
  zone_x z ≤ position.1 < zone_x z + zone_width z ∧
  zone_y z ≤ position.2 < zone_y z + zone_height z.

(** The first of the candidates that is truthy. *)
Fixpoint firstTruthy (candidates : list (option string)) : option string :=
  match candidates with
  | [] => None
  | c :: candidates' => if truthyStr c then c else firstTruthy candidates'
  end.

(** What is written on a connection. *)
Definition outputOf (client : nat) (w : world) : list sseChunk :=
  default [] (clientOutput w !! client).

(** The column bottoms [findPositionInZone] computes for a zone. *)
Definition zoneColumns (z : zone) (existingItems : list item) : list Z :=
  columnBottoms (zone_x z + 60) (zone_y z + 60)
                ((zone_width z - 120) / (520 + 60))
                (filter (fun it => inZone z it = true) existingItems).

Definition zoneBottom (z : zone) : Z := zone_y z + zone_height z.

(** [m] is the least of the column bottoms and [c] the first column that
    has it. *)
Definition firstLeast (columns : list Z) (c : nat) (m : Z) : Prop :=
  columns !! c = Some m ∧
  (∀ j b, columns !! j = Some b → m ≤ b) ∧
  (∀ j b, (j < c)%nat → columns !! j = Some b → m < b).

(** The identifier the handler gives the item it creates. *)
Definition createId (rq : createRequest) : string :=
  match rq with
  | PostTodos id _ | PostAgents id _ | PostLabResults id _ | PostEhrData id _
  | PostDoctorNotes id _ | PostEnhancedTodo id _ _ | PostBoardItems id _ _ _ =>
      id
  end.

(** Both coordinates came with the request. *)
Definition positioned (x y : option Z) : bool :=
  match x, y with
  | Some _, Some _ => true
  | _, _ => false
  end.

(** The zone a creation request is packed into, when the handler asks the
    layout engine for the position. *)
Definition placementZone (rq : createRequest) : option zone :=
  match rq with
  | PostTodos _ body =>
      if positioned (todos_x body) (todos_y body) then None else Some TASK_ZONE
  | PostAgents _ body =>
      if positioned (agents_x body) (agents_y body) then None
      else
        if truthyStr (agents_zone body) then
          match zoneConfig (textOf (agents_zone body)) with
          | Some z => Some z
          | None =>
              if inheritedKey (textOf (agents_zone body)) then None
              else Some TASK_ZONE
          end
        else Some TASK_ZONE
  | PostLabResults _ body =>
      if positioned (labreq_x body) (labreq_y body) then None
      else Some RETRIEVED_DATA_ZONE
  | PostEhrData _ body =>
      if positioned (ehr_x body) (ehr_y body) then None
      else Some RETRIEVED_DATA_ZONE
  | PostDoctorNotes _ _ => Some DOCTORS_NOTE_ZONE
  | PostEnhancedTodo _ _ body =>
      if positioned (etb_x body) (etb_y body) then None else Some TASK_ZONE
  | PostBoardItems _ _ _ _ => None
  end.

(** The height the request asks for, where it may ask for one, is not
    negative. *)
Definition heightOk (rq : createRequest) : bool :=
  match rq with
  | PostEhrData _ body => 0 <? numOr (ehr_height body) 300
  | PostDoctorNotes _ body => 0 <? numOr (note_height body) 600
  | PostEnhancedTodo _ _ body =>
      match etb_height body with
      | Some (HNum h) => 0 <=? h
      | _ => true
      end
  | _ => true
  end.


(** What the validation loops of [POST /api/enhanced-todo] ask of a
    sub-todo and of a todo, and what they make of one that passes; [id] is
    the identifier generated for the todo. *)
Definition validSubTodoInput (sub : subTodoInput) : bool :=
  truthyStr (subin_text sub) && truthyStr (subin_status sub) &&
  validTaskStatus (textOf (subin_status sub)).

Definition validTodoInput (todo : enhancedTodoInput) : bool :=
  truthyStr (etodo_text todo) && truthyStr (etodo_status todo) &&
  truthyStr (etodo_agent todo) &&
  validTaskStatus (textOf (etodo_status todo)) &&
  forallb validSubTodoInput (default [] (etodo_subTodos todo)).

Definition acceptedSubTodo (sub : subTodoInput) : subTodo :=
  SubTodo (textOf (subin_text sub)) (textOf (subin_status sub)).

Definition acceptedTodo (id : string) (todo : enhancedTodoInput) : todoEntry :=
  TodoEntry (textOf (etodo_text todo)) (textOf (etodo_status todo))
            (etodo_agent todo) (Some (strOr (etodo_id todo) id))
            (map acceptedSubTodo <$> etodo_subTodos todo).

(** ** Histories *)

(** What happens to the server, one thing at a time: a request is served
    (a lock-guarded one step by step, from any point), a connection is
    closed, or Redis changes its mind about being connected and about the
    calls that will throw. *)
Inductive serverEvent :=
| EvEvents (sessionId : string)
| EvClose (sessionId : string) (res : nat)
| EvGet (sessionId : string)
| EvSession (sessionId : string)
| EvCreate (sessionId : string) (rq : createRequest)
| EvPut (sessionId id : string) (updates : itemPatch)
| EvFocus (sessionId : string) (body : focusBody)
| EvLockedStep (sessionId : string) (rq : lockedRequest) (thr : throwPoint)
               (p : phase)
| EvDeleteSession (sessionId : string)
| EvRedis (connected : bool) (faults : list bool).

Definition after (w : world) (e : serverEvent) : world :=
  match e with
  | EvEvents sessionId => (openEvents sessionId w).2
  | EvClose sessionId res => closeEvents sessionId res w
  | EvGet sessionId => (get_board_items sessionId w).2
  | EvSession sessionId => (get_session sessionId w).2
  | EvCreate sessionId rq => (create sessionId rq w).2
  | EvPut sessionId id updates => (put_board_item sessionId id updates w).2
  | EvFocus sessionId body => (post_focus sessionId body w).2
  | EvLockedStep sessionId rq thr p => (handlerStep sessionId rq thr p w).2
  | EvDeleteSession sessionId => delete_session sessionId w
  | EvRedis connected faults =>
      World connected faults (redisStore w) (inMemorySessions w)
            (staticFile w) (sseClientsBySession w) (clientOutput w)
            (brokenClients w) (nextClient w) (sessionLocks w)
  end.

(** The state of a server started on the template [static] after a
    history. *)
Definition history (static : option (list item)) (events : list serverEvent)
  : world :=
  fold_left after events (freshWorld static).

(** * Properties *)

(** ** Session resolver *)

(** C2 (the code departs from it): a request without a session id in the
    header, the query (either spelling) or the body (either spelling) is
    not refused; the middleware passes it on under the identifier
    [uuidv4 ()] has just produced, and no request at all is answered with a
    "session id required" error. *)
Theorem missing_session_id_is_synthesized (uuid : string) :
  sessionMiddleware uuid noSessionId = Next uuid uuid ∧
  ∀ req status error, sessionMiddleware uuid req ≠ Respond status error.
Proof.
  split; [reflexivity|].
  intros req status error. unfold sessionMiddleware. discriminate.
Qed.

(** ** Item store *)

Ltac store_unfold :=
  unfold currentItems, get_board_items, loadBoardItems, redisGet,
    saveBoardItems, pushItem, loadStaticItems, saveToMemory, redisCall,
    releaseLock, tryAcquireLock in *.

Ltac store_cases :=
  store_unfold; repeat (case_match; simplify_eq/=); simplify_map_eq; auto.

Lemma saveBoardItems_outside sid items w :
  sameOutside w (saveBoardItems sid items w).
Proof. unfold sameOutside. store_cases; repeat split; auto. Qed.

Lemma loadBoardItems_outside sid w :
  sameOutside w (loadBoardItems sid w).2.
Proof. unfold sameOutside. store_cases; repeat split; auto. Qed.

(** C10: a session that has a record neither in Redis nor in the in-memory
    map is not read as empty: [loadBoardItems] returns the items of the
    static template ([[]] only when the file cannot be read, or holds no
    item), leaves them stored under the session, in Redis or in memory, and
    [GET /api/board-items] reports their number. *)
Theorem new_session_starts_from_template (sessionId : string) (w : world) :
  redisStore w !! redisKey sessionId = None →
  inMemorySessions w !! sessionId = None →
  let template := match staticFile w with Some l => l | None => [] end in
  let w' := (loadBoardItems sessionId w).2 in
  (loadBoardItems sessionId w).1.1 = template ∧
  (redisStore w' !! redisKey sessionId = Some template ∨
   inMemorySessions w' !! sessionId = Some template) ∧
  (get_board_items sessionId w).1
  = RespItems sessionId template (length template).
Proof.
  intros Hredis Hmem. cbn zeta.
  store_unfold.
  destruct w as [conn faults rstore mem static sse out broken next locks].
  simpl in *.
  repeat (case_match; simplify_eq/=); simplify_map_eq; auto.
  all: destruct static; simpl; auto.
Qed.

(** An instance: a server without Redis whose template holds one item; the
    first read of a new session returns that item and keeps it in memory. *)
Lemma new_session_starts_from_template_witness :
  let template := [plainItem "ehr-patient-001" "ehr" 100 100 550 (HNum 450)] in
  (get_board_items "fresh" (freshWorld (Some template))).1
  = RespItems "fresh" template 1 ∧
  inMemorySessions (loadBoardItems "fresh" (freshWorld (Some template))).2
    !! "fresh" = Some template.
Proof.
  cbn zeta.
  pose proof (new_session_starts_from_template "fresh"
    (freshWorld
       (Some [plainItem "ehr-patient-001" "ehr" 100 100 550 (HNum 450)])))
    as H.
  cbn zeta in H. destruct H as (_ & Hstored & Hget).
  - reflexivity.
  - reflexivity.
  - split; [exact Hget|].
    destruct Hstored as [Hredis|Hmem]; [discriminate Hredis|exact Hmem].
Defined.

(** ** Creation handlers *)

(** C6 (the code departs from it): [POST /api/doctor-notes] reads [x] and
    [y] from the request and then overwrites them with the position the
    layout engine returns: the answer and the state are the same as for the
    request without coordinates, and on an empty board a note asked for at
    (100, 200) is stored at (4260, -2240). *)
Theorem doctor_note_ignores_supplied_position
    (sessionId noteId : string) (content : option string)
    (x y width height : option Z) (w : world) :
  post_doctor_notes sessionId noteId (NoteBody content x y width height) w
  = post_doctor_notes sessionId noteId
      (NoteBody content None None width height) w
  ∧ (post_doctor_notes sessionId noteId
       (NoteBody content (Some 100) (Some 200) None None)
       (freshWorld (Some []))).1
    = RespCreated sessionId
        (Item noteId "doctor-note" 4260 (-2240) 450 (HNum 600) None None None
              (Some (strOr content EmptyString))).
Proof.
  split.
  - unfold post_doctor_notes, findPositionInZone. simpl. reflexivity.
  - reflexivity.
Qed.

(** C7 (the code departs from it): a lab result whose range starts at [0],
    as in the requests of the deployment notes, is refused although
    [0 < max], and so is one whose value is [0]; both are answered with a
    400 and nothing is stored. *)
Theorem lab_result_zero_is_refused
    (sessionId id : string) (max : Z) (w : world) :
  post_lab_results sessionId id
    (LabBody (Some "Test") (Some 100) (Some "mg/dL") (Some "optimal")
             (Some (LabRange (Some 0) (Some max))) None None None) w
  = (RespError 400
       "range must have valid min and max values where min < max", w)
  ∧ post_lab_results sessionId id
      (LabBody (Some "Test") (Some 0) (Some "mg/dL") (Some "optimal")
               (Some (LabRange (Some 70) (Some 100))) None None None) w
    = (RespError 400
         "parameter, value, unit, status, and range are required", w).
Proof. split; reflexivity. Qed.

(** ** Column packing *)

Section Columns.
Variables (startX maxColumns : Z).

Lemma bumpColumn_length columns it :
  length (bumpColumn startX maxColumns columns it) = length columns.
Proof.
  unfold bumpColumn. repeat case_match; rewrite ?length_insert; done.
Qed.

Lemma bumpColumn_mono columns it (i : nat) b :
  columns !! i = Some b →
  ∃ b', bumpColumn startX maxColumns columns it !! i = Some b' ∧ b ≤ b'.
Proof.
  intros Hi. unfold bumpColumn.
  repeat case_match; try (exists b; split; [done|lia]).
  destruct (decide (i = Z.to_nat ((item_x it - startX) / (520 + 60))))
    as [->|Hne].
  - rewrite list_lookup_insert_eq by (by eapply lookup_lt_Some).
    eexists; split; [done|]. simplify_eq. lia.
  - rewrite list_lookup_insert_ne by done. exists b; split; [done|lia].
Qed.

Lemma bumpColumn_covers columns it :
  0 ≤ columnOf startX it < maxColumns →
  (Z.to_nat (columnOf startX it) < length columns)%nat →
  ∃ b', bumpColumn startX maxColumns columns it !! Z.to_nat (columnOf startX it)
        = Some b' ∧ bottomOf it ≤ b'.
Proof.
  intros Hcol Hlen. unfold bumpColumn, columnOf, bottomOf in *.
  destruct (lookup_lt_is_Some_2 _ _ Hlen) as [b Hb].
  rewrite Hb.
  replace ((0 <=? (item_x it - startX) / (520 + 60)) &&
           ((item_x it - startX) / (520 + 60) <? maxColumns)) with true
    by (symmetry; apply andb_true_iff; split; lia).
  case_match.
  - rewrite list_lookup_insert_eq by done. eexists; split; [done|lia].
  - exists b; split; [done|lia].
Qed.

Lemma fold_bumpColumn_length items columns :
  length (fold_left (bumpColumn startX maxColumns) items columns)
  = length columns.
Proof.
  revert columns. induction items as [|it items IH]; intros columns;
    simpl; [done|]. by rewrite IH, bumpColumn_length.
Qed.

Lemma fold_bumpColumn_mono items columns (i : nat) b :
  columns !! i = Some b →
  ∃ b', fold_left (bumpColumn startX maxColumns) items columns !! i
        = Some b' ∧ b ≤ b'.
Proof.
  revert columns b. induction items as [|it items IH]; intros columns b Hi;
    simpl; [exists b; split; [done|lia]|].
  destruct (bumpColumn_mono columns it i b Hi) as (b1 & Hb1 & Hle1).
  destruct (IH _ _ Hb1) as (b2 & Hb2 & Hle2).
  exists b2; split; [done|lia].
Qed.

Lemma fold_bumpColumn_covers items columns it :
  it ∈ items →
  0 ≤ columnOf startX it < maxColumns →
  (Z.to_nat (columnOf startX it) < length columns)%nat →
  ∃ b', fold_left (bumpColumn startX maxColumns) items columns
          !! Z.to_nat (columnOf startX it) = Some b' ∧ bottomOf it ≤ b'.
Proof.
  revert columns. induction items as [|it' items IH]; intros columns Hin Hcol Hlen.
  - by apply elem_of_nil in Hin.
  - simpl. apply elem_of_cons in Hin as [->|Hin].
    + destruct (bumpColumn_covers columns it' Hcol Hlen) as (b1 & Hb1 & Hle1).
      destruct (fold_bumpColumn_mono items _ _ _ Hb1) as (b2 & Hb2 & Hle2).
      exists b2; split; [done|lia].
    + apply IH; [done..|]. by rewrite bumpColumn_length.
Qed.
End Columns.

Lemma columnBottoms_covers startX startY maxColumns zoneItems it :
  it ∈ zoneItems →
  0 ≤ columnOf startX it < maxColumns →
  ∃ bottom,
    columnBottoms startX startY maxColumns zoneItems
      !! Z.to_nat (columnOf startX it) = Some bottom ∧
    bottomOf it ≤ bottom.
Proof.
  intros Hin Hcol. unfold columnBottoms.
  apply fold_bumpColumn_covers; [done..|].
  rewrite length_replicate. lia.
Qed.

Lemma filter_inZone_idemp z (l : list item) :
  filter (fun it => inZone z it = true) (filter (fun it => inZone z it = true) l)
  = filter (fun it => inZone z it = true) l.
Proof.
  rewrite list_filter_filter. apply list_filter_iff. intros it. tauto.
Qed.

(** C4 as stated fails: with one agent note standing in the first column of
    the task zone, [POST /api/todos] sends a new todo to the second column,
    at (4840, 60); packing against the todo items of the zone only, as the
    claim has it and as [findTaskZonePosition] does, gives (4260, 60). *)
Lemma todo_packing_counts_agent_note :
  let agent := plainItem "a1" "agent" 4260 60 520 (HNum 300) in
  let w := saveBoardItems "s" [agent] (freshWorld None) in
  let body := TodosBody (Some "T") None (Some [TodoString "a"]) None None in
  ∃ it, (post_todos "s" "t1" body w).1 = RespCreated "s" it ∧
        (item_x it, item_y it) = (4840, 60) ∧
        (item_x it, item_y it)
        ≠ findPositionInZone (tempItemOf "todo" 420 (item_height it))
            (filter (fun e => item_type e = "todo") (currentItems "s" w))
            TASK_ZONE ∧
        (item_x it, item_y it)
        ≠ findTaskZonePosition (tempItemOf "todo" 420 (item_height it))
            (currentItems "s" w).
Proof.
  cbn zeta. eexists. split; [vm_compute; reflexivity|].
  split; [reflexivity|]. split; vm_compute; discriminate.
Qed.

(** ** Grid-slot packing *)

Lemma scanRow_Some cells k j :
  scanRow cells k = Some j →
  ∃ i, j = (k + i)%nat ∧ cells !! i = Some false ∧
       ∀ i', (i' < i)%nat → cells !! i' = Some true.
Proof.
  revert k. induction cells as [|b cells IH]; intros k Hscan; [done|].
  simpl in Hscan. destruct b.
  - destruct (IH _ Hscan) as (i & -> & Hi & Hbefore).
    exists (S i). split; [lia|]. split; [done|].
    intros [|i'] Hlt; [done|]. simpl. apply Hbefore. lia.
  - simplify_eq. exists 0%nat. split; [lia|]. split; [done|]. lia.
Qed.

Lemma scanRow_None cells k i b :
  scanRow cells k = None → cells !! i = Some b → b = true.
Proof.
  revert k i. induction cells as [|b' cells IH]; intros k i Hscan Hi; [done|].
  simpl in Hscan. destruct b'; [|done].
  destruct i as [|i]; simpl in Hi; [by simplify_eq|]. by eapply IH.
Qed.

Lemma scanGrid_Some grid k r c :
  scanGrid grid k = Some (r, c) →
  ∃ i cells, r = (k + i)%nat ∧ grid !! i = Some cells ∧
    cells !! c = Some false ∧
    (∀ c', (c' < c)%nat → cells !! c' = Some true) ∧
    ∀ i' cells' c' b, (i' < i)%nat → grid !! i' = Some cells' →
                      cells' !! c' = Some b → b = true.
Proof.
  revert k. induction grid as [|cells grid IH]; intros k Hscan; [done|].
  simpl in Hscan. destruct (scanRow cells 0) as [col|] eqn:Hrow.
  - simplify_eq. destruct (scanRow_Some _ _ _ Hrow) as (i & -> & Hi & Hbefore).
    exists 0%nat, cells. split; [lia|]. split; [done|]. split; [done|].
    split; [done|]. lia.
  - destruct (IH _ Hscan) as (i & cells0 & -> & Hi & Hc & Hbefore & Habove).
    exists (S i), cells0. split; [lia|]. split; [done|]. split; [done|].
    split; [done|].
    intros [|i'] cells' c' b Hlt Hrow' Hcell; simpl in Hrow'.
    + simplify_eq. by eapply scanRow_None.
    + eapply Habove; [|done..]. lia.
Qed.

Lemma scanGrid_None grid k i cells c b :
  scanGrid grid k = None → grid !! i = Some cells → cells !! c = Some b →
  b = true.
Proof.
  revert k i. induction grid as [|cells' grid IH]; intros k i Hscan Hi Hc;
    [done|].
  simpl in Hscan. destruct (scanRow cells' 0) as [col|] eqn:Hrow; [done|].
  destruct i as [|i]; simpl in Hi.
  - simplify_eq. by eapply scanRow_None.
  - by eapply IH.
Qed.

Section Grid.
Variables (originX originY colWidth rowHeight maxRows maxCols : Z).

Local Abbreviation taken := (cellTaken originX originY colWidth rowHeight).
Local Abbreviation mark :=
  (markCell originX originY colWidth rowHeight maxRows maxCols).
Local Abbreviation gridInv :=
  (gridInv originX originY colWidth rowHeight maxRows maxCols).

Lemma emptyGrid_inv : gridInv (emptyGrid maxRows maxCols) [].
Proof.
  unfold gridInv, emptyGrid. split; [by rewrite length_replicate|]. split.
  - intros r cells [-> _]%lookup_replicate. by rewrite length_replicate.
  - intros r c cells b [-> _]%lookup_replicate [-> _]%lookup_replicate.
    split; [done|]. intros (it & Hin & _). by apply elem_of_nil in Hin.
Qed.

Lemma taken_snoc seen it r c :
  taken (seen ++ [it]) r c ↔
  taken seen r c ∨
  gridCell originX originY colWidth rowHeight it = (Z.of_nat r, Z.of_nat c).
Proof.
  unfold cellTaken. split.
  - intros (it' & Hin & Hcell). apply elem_of_app in Hin as [Hin|Hin].
    + left. eauto.
    + apply list_elem_of_singleton in Hin as ->. by right.
  - intros [(it' & Hin & Hcell)|Hcell].
    + exists it'. split; [|done]. apply elem_of_app. by left.
    + exists it. split; [|done]. apply elem_of_app. right.
      by apply list_elem_of_singleton.
Qed.

Lemma markCell_inv grid seen it :
  gridInv grid seen → gridInv (mark grid it) (seen ++ [it]).
Proof.
  intros (Hrows & Hcols & Hcells). unfold markCell.
  destruct (gridCell originX originY colWidth rowHeight it) as [row col]
    eqn:Hcell.
  case_match eqn:Hrange.
  - apply andb_true_iff in Hrange as [Hrange Hc2].
    apply andb_true_iff in Hrange as [Hrange Hc1].
    apply andb_true_iff in Hrange as [Hr1 Hr2].
    apply Z.leb_le in Hr1, Hc1. apply Z.ltb_lt in Hr2, Hc2.
    split; [by rewrite length_alter|]. split.
    + intros r cells Hr.
      destruct (decide (r = Z.to_nat row)) as [->|Hne].
      * rewrite list_lookup_alter_eq in Hr.
        destruct (grid !! Z.to_nat row) as [cells0|] eqn:Hrow;
          simplify_eq/=. rewrite length_insert. by eapply Hcols.
      * rewrite list_lookup_alter_ne in Hr by done. by eapply Hcols.
    + intros r c cells b Hr Hc. rewrite taken_snoc.
      destruct (decide (r = Z.to_nat row)) as [->|Hne].
      * rewrite list_lookup_alter_eq in Hr.
        destruct (grid !! Z.to_nat row) as [cells0|] eqn:Hrow;
          simplify_eq/=.
        destruct (decide (c = Z.to_nat col)) as [->|Hnec].
        -- assert (Z.to_nat col < length cells0)%nat as Hlt
             by (apply lookup_lt_Some in Hc; by rewrite length_insert in Hc).
           rewrite list_lookup_insert_eq in Hc by done.
           simplify_eq. split; [|done]. intros _. right.
           rewrite Hcell. f_equal; lia.
        -- rewrite list_lookup_insert_ne in Hc by done.
           rewrite (Hcells _ _ _ _ Hrow Hc). split; [by left|].
           intros [?|Heq]; [done|].
           rewrite Hcell in Heq. injection Heq as ? ?. lia.
      * rewrite list_lookup_alter_ne in Hr by done.
        rewrite (Hcells _ _ _ _ Hr Hc). split; [by left|].
        intros [?|Heq]; [done|].
           rewrite Hcell in Heq. injection Heq as ? ?. lia.
  - split; [done|]. split; [done|].
    intros r c cells b Hr Hc. rewrite taken_snoc.
    rewrite (Hcells _ _ _ _ Hr Hc). split; [by left|].
    intros [?|Heq]; [done|]. rewrite Hcell in Heq. injection Heq as ? ?.
    specialize (Hcols _ _ Hr) as Hlen.
    apply lookup_lt_Some in Hr.
    apply lookup_lt_Some in Hc.
    exfalso. apply not_true_iff_false in Hrange. apply Hrange.
    repeat (apply andb_true_iff; split);
      first [apply Z.leb_le; lia | apply Z.ltb_lt; lia].
Qed.

Lemma fold_markCell_inv items grid seen :
  gridInv grid seen → gridInv (fold_left mark items grid) (seen ++ items).
Proof.
  revert grid seen. induction items as [|it items IH]; intros grid seen Hinv;
    simpl.
  - by rewrite app_nil_r.
  - replace (seen ++ it :: items) with ((seen ++ [it]) ++ items)
      by (by rewrite <- app_assoc).
    apply IH. by apply markCell_inv.
Qed.

Lemma markGrid_inv items :
  gridInv (markGrid originX originY colWidth rowHeight maxRows maxCols items)
          items.
Proof. apply (fold_markCell_inv items _ []). apply emptyGrid_inv. Qed.

(** The scan of the marked grid finds the first free cell, or none when
    the grid is full. *)
Lemma scanGrid_markGrid items :
  match scanGrid (markGrid originX originY colWidth rowHeight
                           maxRows maxCols items) 0 with
  | Some (row, col) =>
      firstFreeCell originX originY colWidth rowHeight
        (Z.to_nat maxRows) (Z.to_nat maxCols) items row col
  | None =>
      gridFull originX originY colWidth rowHeight
        (Z.to_nat maxRows) (Z.to_nat maxCols) items
  end.
Proof.
  destruct (markGrid_inv items) as (Hrows & Hcols & Hcells).
  destruct (scanGrid _ 0) as [[row col]|] eqn:Hscan.
  - destruct (scanGrid_Some _ _ _ _ Hscan)
      as (i & cells & -> & Hrow & Hc & Hleft & Habove). simpl in *.
    split; [apply lookup_lt_Some in Hrow; lia|].
    split; [apply lookup_lt_Some in Hc; by rewrite (Hcols _ _ Hrow) in Hc|].
    split.
    + intros Htaken. by apply (Hcells _ _ _ _ Hrow Hc) in Htaken.
    + intros r c Hr Hcc [Hlt|[-> Hlt]].
      * destruct (lookup_lt_is_Some_2
                    (markGrid originX originY colWidth rowHeight
                              maxRows maxCols items) r) as [cells' Hrow'];
          [by rewrite Hrows|].
        destruct (lookup_lt_is_Some_2 cells' c) as [b Hb];
          [by rewrite (Hcols _ _ Hrow')|].
        apply (Hcells _ _ _ _ Hrow' Hb). by eapply Habove.
      * apply (Hcells _ _ _ _ Hrow (Hleft _ Hlt)). done.
  - intros r c Hr Hc.
    destruct (lookup_lt_is_Some_2
                    (markGrid originX originY colWidth rowHeight
                              maxRows maxCols items) r) as [cells' Hrow'];
      [by rewrite Hrows|].
    destruct (lookup_lt_is_Some_2 cells' c) as [b Hb];
      [by rewrite (Hcols _ _ Hrow')|].
    apply (Hcells _ _ _ _ Hrow' Hb). by eapply scanGrid_None.
Qed.
End Grid.

Lemma findPositionInZone_height newItem newItem' existingItems z :
  estimateItemHeight newItem = estimateItemHeight newItem' →
  findPositionInZone newItem existingItems z
  = findPositionInZone newItem' existingItems z.
Proof. intros Hh. unfold findPositionInZone. by rewrite Hh. Qed.

Lemma findDoctorsNotePosition_unfold newItem existingItems :
  findDoctorsNotePosition newItem existingItems
  = let notes :=
      filter (fun it => inZone DOCTORS_NOTE_ZONE it &&
                        String.eqb (item_type it) "doctor-note" = true)
             existingItems in
    match scanGrid (markGrid 4250 (-2250) 470 620 3 4 notes) 0 with
    | Some (row, col) =>
        (4200 + Z.of_nat col * 470 + 50, -2300 + Z.of_nat row * 620 + 50)
    | None => (4250, -2250 + Z.of_nat (length notes) * 620)
    end.
Proof. reflexivity. Qed.

Lemma findRetrievedDataZonePosition_unfold newItem existingItems :
  findRetrievedDataZonePosition newItem existingItems
  = let data :=
      filter (fun it => inZone RETRIEVED_DATA_ZONE it &&
                        isRetrievedKind (item_type it) = true)
             existingItems in
    match scanGrid (markGrid 4200 (-4540) 560 490 4 3 data) 0 with
    | Some (row, col) =>
        (4200 + Z.of_nat col * 560 + 60, -4600 + Z.of_nat row * 490 + 60)
    | None => (4260, -4540 + Z.of_nat (length data) * 550)
    end.
Proof. reflexivity. Qed.

(** C5 (amended): the grid-slot rule is what [findDoctorsNotePosition] and
    [findRetrievedDataZonePosition] compute. Over the grid of 3 rows and 4
    columns (doctor's notes; 4 rows and 3 columns for retrieved data) they
    return the padded corner of the first cell, rows from the top and each
    row from the left, into which no existing item of the zone and of the
    kind falls; when every cell is taken they return the first column, one
    row height further down per such item. The endpoints do not call them:
    [POST /api/doctor-notes] and [POST /api/lab-results] (without
    coordinates) store the item where [findPositionInZone] packs it. *)
Theorem grid_slot_rule_and_endpoint_placement
    (newItem : item) (existingItems : list item) :
  let notes :=
    filter (fun it => inZone DOCTORS_NOTE_ZONE it &&
                      String.eqb (item_type it) "doctor-note" = true)
           existingItems in
  let data :=
    filter (fun it => inZone RETRIEVED_DATA_ZONE it &&
                      isRetrievedKind (item_type it) = true)
           existingItems in
  ((∃ row col,
      firstFreeCell 4250 (-2250) 470 620 3 4 notes row col ∧
      findDoctorsNotePosition newItem existingItems
      = (4200 + Z.of_nat col * 470 + 50, -2300 + Z.of_nat row * 620 + 50))
   ∨ (gridFull 4250 (-2250) 470 620 3 4 notes ∧
      findDoctorsNotePosition newItem existingItems
      = (4250, -2250 + Z.of_nat (length notes) * 620)))
  ∧ ((∃ row col,
        firstFreeCell 4200 (-4540) 560 490 4 3 data row col ∧
        findRetrievedDataZonePosition newItem existingItems
        = (4200 + Z.of_nat col * 560 + 60, -4600 + Z.of_nat row * 490 + 60))
     ∨ (gridFull 4200 (-4540) 560 490 4 3 data ∧
        findRetrievedDataZonePosition newItem existingItems
        = (4260, -4540 + Z.of_nat (length data) * 550)))
  ∧ (∀ sessionId noteId body w,
       ∃ it, (post_doctor_notes sessionId noteId body w).1
             = RespCreated sessionId it ∧
             (item_x it, item_y it)
             = findPositionInZone it (currentItems sessionId w)
                 DOCTORS_NOTE_ZONE)
  ∧ (∀ sessionId id parameter value unit status range trend w,
       match (post_lab_results sessionId id
                (LabBody parameter value unit status range trend None None)
                w).1 with
       | RespCreated _ it =>
           (item_x it, item_y it)
           = findPositionInZone (tempItemOf "lab-result" 400 (HNum 280))
               (currentItems sessionId w) RETRIEVED_DATA_ZONE
       | RespError status _ => status = 400
       | _ => False
       end).
Proof.
  cbn zeta. split; [|split; [|split]].
  - rewrite findDoctorsNotePosition_unfold. cbn zeta.
    pose proof (scanGrid_markGrid 4250 (-2250) 470 620 3 4
                  (filter (fun it => inZone DOCTORS_NOTE_ZONE it &&
                             String.eqb (item_type it) "doctor-note" = true)
                          existingItems)) as Hscan.
    destruct (scanGrid _ 0) as [[row col]|]; [left|right]; eauto.
  - rewrite findRetrievedDataZonePosition_unfold. cbn zeta.
    pose proof (scanGrid_markGrid 4200 (-4540) 560 490 4 3
                  (filter (fun it => inZone RETRIEVED_DATA_ZONE it &&
                             isRetrievedKind (item_type it) = true)
                          existingItems)) as Hscan.
    destruct (scanGrid _ 0) as [[row col]|]; [left|right]; eauto.
  - intros sessionId noteId body w.
    unfold post_doctor_notes, currentItems, pushItem.
    destruct (loadBoardItems sessionId w) as [[items aliased] w1].
    eexists. split; [reflexivity|].
    cbn [item_x item_y]. rewrite <- surjective_pairing.
    apply findPositionInZone_height. reflexivity.
  - intros sessionId id parameter value unit status range trend w.
    unfold post_lab_results, currentItems, appendAndBroadcast.
    cbn [labreq_parameter labreq_value labreq_unit labreq_status labreq_range
         labreq_trend labreq_x labreq_y].
    destruct range as [range|]; [|reflexivity].
    destruct (_ && truthyStr status); [|reflexivity].
    destruct (negb (validStatus _)); [reflexivity|].
    destruct (_ || _); [reflexivity|].
    destruct (loadBoardItems sessionId w) as [[existing aliased] w1].
    cbv beta iota zeta.
    destruct (findPositionInZone _ existing RETRIEVED_DATA_ZONE) as [px py]
      eqn:Hpos.
    cbn [fst snd item_x item_y]. by rewrite Hpos.
Qed.

(** C5 as stated fails: on an empty board [POST /api/doctor-notes] stores
    the note at (4260, -2240), the top of the first packing column, and not
    at (4250, -2250), the corner of the first grid cell; with one lab result
    in the first cell of the retrieved-data zone, [POST /api/lab-results]
    stores the next one at (4840, -4540) and not in the second cell, at
    (4820, -4540). *)
Lemma endpoints_do_not_use_grid_slots :
  let w := freshWorld (Some []) in
  let lab :=
    LabBody (Some "Glucose") (Some 95) (Some "mg/dL") (Some "optimal")
            (Some (LabRange (Some 70) (Some 100))) None None None in
  let w1 := (post_lab_results "s" "lab1" lab w).2 in
  (∃ it, (post_doctor_notes "s" "n1" (NoteBody None None None None None) w).1
         = RespCreated "s" it ∧
         (item_x it, item_y it) = (4260, -2240) ∧
         findDoctorsNotePosition it (currentItems "s" w) = (4250, -2250) ∧
         (item_x it, item_y it)
         ≠ findDoctorsNotePosition it (currentItems "s" w)) ∧
  (∃ it, (post_lab_results "s" "lab2" lab w1).1 = RespCreated "s" it ∧
         (item_x it, item_y it) = (4840, -4540) ∧
         findRetrievedDataZonePosition it (currentItems "s" w1)
         = (4820, -4540) ∧
         (item_x it, item_y it)
         ≠ findRetrievedDataZonePosition it (currentItems "s" w1)).
Proof.
  cbn zeta. split.
  - eexists. split; [vm_compute; reflexivity|].
    split; [vm_compute; reflexivity|].
    split; [vm_compute; reflexivity|vm_compute; discriminate].
  - eexists. split; [vm_compute; reflexivity|].
    split; [vm_compute; reflexivity|].
    split; [vm_compute; reflexivity|vm_compute; discriminate].
Qed.

(** ** Lock-guarded handlers, one request at a time *)

Lemma loadBoardItems_locks sid w :
  sessionLocks (loadBoardItems sid w).2 = sessionLocks w.
Proof. apply loadBoardItems_outside. Qed.

Lemma saveBoardItems_locks sid items w :
  sessionLocks (saveBoardItems sid items w) = sessionLocks w.
Proof. apply saveBoardItems_outside. Qed.

Lemma releaseLock_lookup sid w :
  sessionLocks (releaseLock sid w) !! sid = None.
Proof. unfold releaseLock. simpl. apply lookup_delete_eq. Qed.

(** A step keeps the lock in line with the phase and, unless the handler
    has finished, brings it closer to its end. *)
Lemma handlerStep_lockFollows sid rq thr p w :
  lockFollows sid p w →
  let '(p', w') := handlerStep sid rq thr p w in
  lockFollows sid p' w' ∧
  (phaseRank p' ≤ pred (phaseRank p))%nat.
Proof.
  unfold lockFollows. intros Hlock.
  destruct p as [| |items|answer|answer]; simpl in *.
  - destruct (rejected rq); [simpl; split; [done|lia]|].
    unfold tryAcquireLock. rewrite Hlock. simpl.
    split; [apply lookup_insert_eq|lia].
  - destruct rq as [id|ids|items];
      repeat case_decide; simpl;
      try (split; [apply releaseLock_lookup|lia]).
    + destruct (loadBoardItems sid w) as [[items aliased] w1] eqn:Hload.
      simpl. split; [|lia].
      pose proof (loadBoardItems_locks sid w) as Hl. rewrite Hload in Hl.
      simpl in Hl. by rewrite Hl.
    + destruct (loadBoardItems sid w) as [[items aliased] w1] eqn:Hload.
      simpl. split; [|lia].
      pose proof (loadBoardItems_locks sid w) as Hl. rewrite Hload in Hl.
      simpl in Hl. by rewrite Hl.
    + split; [|lia]. by rewrite saveBoardItems_locks.
  - destruct (keepItems rq items) as [filtered|];
      [|simpl; split; [apply releaseLock_lookup|lia]].
    case_decide; simpl; [split; [apply releaseLock_lookup|lia]|].
    split; [|lia]. by rewrite saveBoardItems_locks.
  - case_decide; simpl; (split; [|lia]); apply lookup_delete_eq.
  - split; [done|simpl; lia].
Qed.

Lemma handlerStep_leaves_start sid rq thr p w :
  (handlerStep sid rq thr p w).1 = AtStart →
  p = AtStart ∧ sessionLocks w !! sid = Some true.
Proof.
  destruct p as [| |items|answer|answer]; simpl.
  - destruct (rejected rq); [done|].
    unfold tryAcquireLock. by repeat case_match.
  - by destruct rq; repeat case_decide; repeat case_match.
  - by destruct (keepItems rq items); repeat case_decide.
  - by case_decide.
  - done.
Qed.

Lemma runHandler_lockFollows fuel sid rq thr p w :
  lockFollows sid p w →
  let '(p', w') := runHandler fuel sid rq thr p w in
  lockFollows sid p' w' ∧
  ((phaseRank p ≤ fuel)%nat → ∃ answer, p' = Finished answer) ∧
  (p' = AtStart → p = AtStart ∧ w' = w).
Proof.
  revert p w. induction fuel as [|fuel IH]; intros p w Hlock; simpl.
  - split; [done|]. split; [|done].
    destruct p; simpl; try lia. eauto.
  - pose proof (handlerStep_lockFollows sid rq thr p w Hlock) as Hstep.
    pose proof (handlerStep_leaves_start sid rq thr p w) as Hstart.
    destruct (handlerStep sid rq thr p w) as [p1 w1]. simpl in Hstart.
    destruct Hstep as [Hlock1 Hrank].
    specialize (IH p1 w1 Hlock1).
    destruct (runHandler fuel sid rq thr p1 w1) as [p' w'].
    destruct IH as (Hlock' & Hfin & Hat).
    split; [done|]. split.
    + intros Hle. apply Hfin. lia.
    + intros ->. destruct (Hat eq_refl) as [-> ->].
      destruct (Hstart eq_refl) as [-> Hheld].
      unfold lockFollows in Hlock. simpl in Hlock. congruence.
Qed.

Lemma runHandler_S n sid rq thr p w :
  runHandler (S n) sid rq thr p w
  = runHandler n sid rq thr (handlerStep sid rq thr p w).1
               (handlerStep sid rq thr p w).2.
Proof. cbn [runHandler]. by destruct (handlerStep sid rq thr p w). Qed.

Lemma runHandler_snoc n sid rq thr p w :
  runHandler (S n) sid rq thr p w
  = handlerStep sid rq thr (runHandler n sid rq thr p w).1
                (runHandler n sid rq thr p w).2.
Proof.
  revert p w. induction n as [|n IH]; intros p w.
  - rewrite runHandler_S. cbn [runHandler fst snd].
    by destruct (handlerStep sid rq thr p w).
  - by rewrite (runHandler_S (S n) sid rq thr p w), IH,
      <- (runHandler_S n sid rq thr p w).
Qed.

(** A step taken while the handler does not hold the lock changes nothing
    but the lock map. *)
Lemma handlerStep_outside_lock sid rq thr p w :
  inCritical p = false →
  (handlerStep sid rq thr p w).2
  = set_sessionLocks (sessionLocks (handlerStep sid rq thr p w).2) w.
Proof.
  assert (∀ v, set_sessionLocks v w = set_sessionLocks v w) as _ by done.
  destruct p as [| |items|answer|answer]; try discriminate; intros _;
    cbn [handlerStep].
  - destruct (rejected rq); cbn [snd]; [by destruct w|].
    unfold tryAcquireLock. repeat case_match; simplify_eq; cbn [snd];
      by destruct w.
  - cbn [snd]. by destruct w.
Qed.

(** C9: a single delete, a batch delete or a sync that finds the lock of
    its session free takes it before it loads or saves anything, holds it
    exactly while it is between the acquire and the release, and finishes
    within four steps on every path (saved, not found, refused, exception
    thrown by the load, the save or the answer), with no lock left for
    the session. Its first step does nothing but refuse the request or
    take the lock; its second, with the lock held, is the load (the save,
    for a sync) or the exit through [catch]; and no step taken without the
    lock changes anything but the lock map. *)
Theorem lock_released_on_every_exit
    (sessionId : string) (rq : lockedRequest) (thr : throwPoint) (w : world)
    (fuel : nat) :
  sessionLocks w !! sessionId = None →
  let locked :=
    set_sessionLocks (<[sessionId := true]> (sessionLocks w)) w in
  (let '(p, w') := runHandler fuel sessionId rq thr AtStart w in
   sessionLocks w' !! sessionId = (if inCritical p then Some true else None) ∧
   (p = AtStart → w' = w) ∧
   ((4 ≤ fuel)%nat →
    ∃ answer, p = Finished answer ∧ sessionLocks w' !! sessionId = None) ∧
   (inCritical p = false →
    (runHandler (S fuel) sessionId rq thr AtStart w).2
    = set_sessionLocks
        (sessionLocks (runHandler (S fuel) sessionId rq thr AtStart w).2) w'))
  ∧ runHandler 1 sessionId rq thr AtStart w
    = match rejected rq with
      | Some error => (Finished (RespError 400 error), w)
      | None => (Locked, locked)
      end
  ∧ (rejected rq = None →
     sessionLocks locked !! sessionId = Some true ∧
     runHandler 2 sessionId rq thr AtStart w
     = match rq with
       | SyncItems items =>
           if decide (thr = ThrowInSave)
           then (Finished (RespError 500 "Failed to sync items"),
                 releaseLock sessionId locked)
           else (Saved (RespSynced sessionId (length (default [] items))),
                 saveBoardItems sessionId (default [] items) locked)
       | _ =>
           if decide (thr = ThrowInLoad)
           then (Finished (RespError 500 (failureMessage rq)),
                 releaseLock sessionId locked)
           else (Loaded (loadBoardItems sessionId locked).1.1,
                 (loadBoardItems sessionId locked).2)
       end).
Proof.
  intros Hfree. cbn zeta. split; [|split].
  - pose proof (runHandler_lockFollows fuel sessionId rq thr AtStart w Hfree)
      as Hrun.
    pose proof (runHandler_snoc fuel sessionId rq thr AtStart w) as Hnext.
    destruct (runHandler fuel sessionId rq thr AtStart w) as [p w'].
    cbn [fst snd] in Hnext.
    destruct Hrun as (Hlock & Hfin & Hat).
    split; [done|]. split; [by intros []%Hat|]. split.
    + intros Hfuel. destruct (Hfin Hfuel) as [answer ->].
      exists answer. split; [done|]. apply Hlock.
    + intros Hout. rewrite Hnext. by apply handlerStep_outside_lock.
  - cbn [runHandler handlerStep]. destruct (rejected rq); [done|].
    unfold tryAcquireLock. by rewrite Hfree.
  - intros Hok. split; [apply lookup_insert_eq|].
    cbn [runHandler handlerStep]. rewrite Hok.
    unfold tryAcquireLock. rewrite Hfree. cbn [handlerStep].
    destruct rq as [id|ids|items]; case_decide; try done;
      by destruct (loadBoardItems sessionId _) as [[? ?] ?].
Qed.

(** An instance: a delete on a session of one item, served alone, once to
    its end and once with the save throwing. *)
Lemma lock_released_on_every_exit_witness :
  let w := saveBoardItems "s" [plainItem "a" "todo" 0 0 420 (HNum 200)]
             (freshWorld None) in
  sessionLocks w !! "s" = None ∧
  (runHandler 4 "s" (DeleteItem "a") NoThrow AtStart w).1
  = Finished (RespDeleted "s") ∧
  sessionLocks (runHandler 4 "s" (DeleteItem "a") ThrowInSave AtStart w).2
    !! "s" = None.
Proof.
  cbn zeta. split; [reflexivity|]. split; [vm_compute; reflexivity|].
  pose proof (lock_released_on_every_exit "s" (DeleteItem "a") ThrowInSave
    (saveBoardItems "s" [plainItem "a" "todo" 0 0 420 (HNum 200)]
       (freshWorld None)) 4 eq_refl) as H.
  cbn zeta in H. destruct H as [H _].
  destruct (runHandler 4 "s" (DeleteItem "a") ThrowInSave AtStart _)
    as [p w'].
  destruct H as (_ & _ & H & _). destruct (H (le_n 4)) as (answer & _ & Hfree).
  exact Hfree.
Defined.

(** ** The store while Redis does not fail *)

Lemma saveBoardItems_set_sessionLocks sid items v w :
  saveBoardItems sid items (set_sessionLocks v w)
  = set_sessionLocks v (saveBoardItems sid items w).
Proof.
  destruct w as [conn faults rstore mem static sse out broken next locks].
  unfold saveBoardItems, redisCall, saveToMemory. simpl.
  destruct conn; [|done]. simpl.
  destruct faults as [|[] faults]; simpl; try done.
  all: destruct faults as [|[] faults]; simpl; done.
Qed.

Lemma redisGet_set_sessionLocks sid v w :
  redisGet sid (set_sessionLocks v w)
  = ((redisGet sid w).1, set_sessionLocks v (redisGet sid w).2).
Proof.
  destruct w as [conn faults rstore mem static sse out broken next locks].
  unfold redisGet, redisCall. simpl.
  destruct conn; [|done]. by destruct faults as [|[] faults].
Qed.

Lemma loadBoardItems_set_sessionLocks sid v w :
  loadBoardItems sid (set_sessionLocks v w)
  = ((loadBoardItems sid w).1, set_sessionLocks v (loadBoardItems sid w).2).
Proof.
  unfold loadBoardItems. rewrite redisGet_set_sessionLocks.
  destruct (redisGet sid w) as [data w1]. cbn [fst snd].
  destruct data as [items|]; [done|].
  change (inMemorySessions (set_sessionLocks v w1))
    with (inMemorySessions w1).
  destruct (inMemorySessions w1 !! sid); [done|].
  change (loadStaticItems (set_sessionLocks v w1)) with (loadStaticItems w1).
  cbv zeta. by rewrite saveBoardItems_set_sessionLocks.
Qed.

Lemma currentItems_set_sessionLocks sid v w :
  currentItems sid (set_sessionLocks v w) = currentItems sid w.
Proof. unfold currentItems. by rewrite loadBoardItems_set_sessionLocks. Qed.

Lemma saveBoardItems_noFaults sid items w :
  redisFaults w = [] →
  redisFaults (saveBoardItems sid items w) = [].
Proof.
  destruct w as [conn faults rstore mem static sse out broken next locks].
  simpl. intros ->. by destruct conn.
Qed.

Lemma loadBoardItems_noFaults sid w :
  redisFaults w = [] →
  redisFaults (loadBoardItems sid w).2 = [].
Proof.
  destruct w as [conn faults rstore mem static sse out broken next locks].
  simpl. intros ->.
  unfold loadBoardItems, redisGet, redisCall, loadStaticItems. simpl.
  destruct conn; simpl; repeat case_match; simplify_eq/=; done.
Qed.

(** What has been saved is what is read next. *)
Lemma loadBoardItems_saveBoardItems sid items w :
  redisFaults w = [] →
  (loadBoardItems sid (saveBoardItems sid items w)).1.1 = items ∧
  (loadBoardItems sid (saveBoardItems sid items w)).2
  = saveBoardItems sid items w.
Proof.
  destruct w as [conn faults rstore mem static sse out broken next locks].
  simpl. intros ->.
  unfold loadBoardItems, redisGet, saveBoardItems, redisCall, saveToMemory.
  simpl. destruct conn; simpl; by rewrite lookup_insert_eq.
Qed.

(** A read leaves the session as it has just been read. *)
Lemma loadBoardItems_twice sid w :
  redisFaults w = [] →
  (loadBoardItems sid (loadBoardItems sid w).2).1.1
  = (loadBoardItems sid w).1.1 ∧
  (loadBoardItems sid (loadBoardItems sid w).2).2 = (loadBoardItems sid w).2.
Proof.
  destruct w as [conn faults rstore mem static sse out broken next locks].
  simpl. intros ->.
  unfold loadBoardItems, redisGet, saveBoardItems, redisCall, saveToMemory,
    loadStaticItems.
  simpl. destruct conn; simpl.
  - destruct (rstore !! redisKey sid) eqn:Hr; simpl; [by rewrite Hr|].
    destruct (mem !! sid) eqn:Hm; simpl; [by rewrite Hr, Hm|].
    by rewrite lookup_insert_eq.
  - destruct (mem !! sid) eqn:Hm; simpl; [by rewrite Hm|].
    by rewrite lookup_insert_eq.
Qed.


Lemma currentItems_saveBoardItems sid items w :
  redisFaults w = [] → currentItems sid (saveBoardItems sid items w) = items.
Proof. intros. by apply loadBoardItems_saveBoardItems. Qed.

Lemma currentItems_loadBoardItems sid w :
  redisFaults w = [] →
  currentItems sid (loadBoardItems sid w).2 = currentItems sid w.
Proof. intros. by apply loadBoardItems_twice. Qed.

(** ** Single delete and batch delete *)

(** A delete or a batch delete served alone, with the lock free. *)
Lemma runHandler_alone sid rq w :
  sessionLocks w !! sid = None →
  rejected rq = None →
  (∀ items, rq ≠ SyncItems items) →
  let taken := <[sid := true]> (sessionLocks w) in
  let items := currentItems sid w in
  let w1 := set_sessionLocks taken (loadBoardItems sid w).2 in
  runHandler 4 sid rq NoThrow AtStart w
  = match keepItems rq items with
    | None =>
        (Finished (RespError 404 "Board item not found"), releaseLock sid w1)
    | Some filteredItems =>
        (Finished (successAnswer sid rq items filteredItems),
         releaseLock sid (saveBoardItems sid filteredItems w1))
    end.
Proof.
  intros Hfree Hok Hnosync. cbn zeta. unfold currentItems.
  cbn [runHandler handlerStep]. rewrite Hok.
  unfold tryAcquireLock. rewrite Hfree.
  assert (handlerStep sid rq NoThrow Locked
            (set_sessionLocks (<[sid:=true]> (sessionLocks w)) w)
          = (Loaded (loadBoardItems sid w).1.1,
             set_sessionLocks (<[sid:=true]> (sessionLocks w))
               (loadBoardItems sid w).2)) as ->.
  { destruct rq as [id|ids|items]; [| |by destruct (Hnosync items)];
      cbn [handlerStep]; rewrite decide_False by done;
      rewrite loadBoardItems_set_sessionLocks;
      by destruct (loadBoardItems sid w) as [[items aliased] w1]. }
  cbn [handlerStep].
  destruct (keepItems rq _) as [filtered|]; [|done].
  rewrite decide_False by done. cbn [handlerStep].
  by rewrite decide_False by done.
Qed.


Lemma keepItems_delete_present id (items : list item) :
  id ∈ item_id <$> items →
  keepItems (DeleteItem id) items
  = Some (filter (fun it => item_id it ≠ id) items).
Proof.
  intros (it & -> & Hin)%list_elem_of_fmap. unfold keepItems.
  pose proof (length_filter_lt (fun it' => item_id it' ≠ item_id it) items it
                Hin) as Hlt.
  destruct (Nat.eqb_spec
              (length (filter (fun it' => item_id it' ≠ item_id it) items))
              (length items)) as [Heq|]; [|done].
  exfalso. assert (¬ item_id it ≠ item_id it) as Hnot by tauto.
  specialize (Hlt Hnot). lia.
Qed.







(** ** Two deletes served together *)













Lemma runHandler_Finished n sid rq thr answer w :
  runHandler n sid rq thr (Finished answer) w = (Finished answer, w).
Proof. induction n as [|n IH]; [done|]. apply IH. Qed.









(** ** Session isolation *)

Lemma redisKey_inj s1 s2 : redisKey s1 = redisKey s2 → s1 = s2.
Proof. unfold redisKey. apply (inj (String.app "boardItems:")). Qed.

Lemma sameSession_refl sid w : sameSession sid w w.
Proof. by repeat split. Qed.

Lemma sameSession_trans sid w1 w2 w3 :
  sameSession sid w1 w2 → sameSession sid w2 w3 → sameSession sid w1 w3.
Proof.
  intros (? & ? & ? & ?) (? & ? & ? & ?). repeat split; congruence.
Qed.

Lemma saveToMemory_other s1 s2 items w :
  s1 ≠ s2 → sameSession s2 w (saveToMemory s1 items w).
Proof.
  intros Hne. repeat split. unfold saveToMemory. simpl.
  by rewrite lookup_insert_ne.
Qed.

Lemma saveBoardItems_other s1 s2 items w :
  s1 ≠ s2 → sameSession s2 w (saveBoardItems s1 items w).
Proof.
  intros Hne.
  assert (redisKey s1 ≠ redisKey s2) as Hkey
    by (by intros ?%redisKey_inj).
  destruct w as [conn faults rstore mem static sse out broken next locks].
  unfold sameSession, saveBoardItems, redisCall, saveToMemory. simpl.
  destruct conn; simpl.
  - destruct faults as [|[] faults]; simpl;
      try destruct faults as [|[] faults]; simpl;
      repeat split; rewrite ?lookup_insert_ne; done.
  - repeat split. by rewrite lookup_insert_ne.
Qed.

Lemma redisGet_same sid w : 
  (redisGet sid w).2 = w ∨
  ∃ faults, (redisGet sid w).2 = set_redisFaults faults w.
Proof.
  destruct w as [conn faults rstore mem static sse out broken next locks].
  unfold redisGet, redisCall. simpl.
  destruct conn; [|by left]. destruct faults as [|[] faults]; simpl; eauto.
Qed.

Lemma loadBoardItems_other s1 s2 w :
  s1 ≠ s2 → sameSession s2 w (loadBoardItems s1 w).2.
Proof.
  intros Hne. unfold loadBoardItems.
  assert (sameSession s2 w (redisGet s1 w).2) as Hget.
  { destruct (redisGet_same s1 w) as [->|[faults ->]]; by repeat split. }
  destruct (redisGet s1 w) as [data w1]. cbn [snd] in Hget.
  destruct data as [items|]; [done|].
  destruct (inMemorySessions w1 !! s1); [done|]. cbn [snd].
  eapply sameSession_trans; [exact Hget|]. by apply saveBoardItems_other.
Qed.

(** What a read returns is a function of what the session is shown and of
    the script of Redis faults. *)
Lemma currentItems_sameSession sid w w' faults :
  sameSession sid w w' →
  currentItems sid (set_redisFaults faults w')
  = currentItems sid (set_redisFaults faults w).
Proof.
  intros (Hconn & Hstatic & Hredis & Hmem).
  destruct w as [conn fs rstore mem static sse out broken next locks].
  destruct w' as [conn' fs' rstore' mem' static' sse' out' broken' next'
                  locks'].
  simpl in *. subst conn' static'.
  unfold currentItems, loadBoardItems, redisGet, redisCall, loadStaticItems.
  simpl. destruct conn; simpl.
  - destruct faults as [|[] faults]; simpl; rewrite ?Hredis, ?Hmem;
      repeat case_match; done.
  - rewrite Hmem. by repeat case_match.
Qed.

Lemma sendEvent_store eventType data w client :
  let w' := sendEvent eventType data w client in
  sseClientsBySession w' = sseClientsBySession w ∧
  brokenClients w' = brokenClients w ∧
  nextClient w' = nextClient w ∧
  sessionLocks w' = sessionLocks w ∧
  isRedisConnected w' = isRedisConnected w ∧
  staticFile w' = staticFile w ∧
  redisStore w' = redisStore w ∧
  inMemorySessions w' = inMemorySessions w ∧
  redisFaults w' = redisFaults w.
Proof.
  unfold sendEvent, clientWrite.
  repeat case_decide; simpl; repeat split; done.
Qed.

Lemma sendEvent_output_other eventType data w client c :
  c ≠ client →
  clientOutput (sendEvent eventType data w client) !! c = clientOutput w !! c.
Proof.
  intros Hne. unfold sendEvent, clientWrite.
  repeat case_decide; simpl; rewrite ?lookup_insert_ne; done.
Qed.

Lemma fold_sendEvent eventType data clients w :
  let w' := fold_left (sendEvent eventType data) clients w in
  sameRegistry w w' ∧
  (∀ sid, sameSession sid w w') ∧
  sessionLocks w' = sessionLocks w ∧
  (∀ c, c ∉ clients → clientOutput w' !! c = clientOutput w !! c) ∧
  redisFaults w' = redisFaults w.
Proof.
  cbn zeta. revert w. induction clients as [|client clients IH]; intros w;
    simpl.
  - by repeat split.
  - destruct (IH (sendEvent eventType data w client))
      as ((Hsse & Hbroken & Hnext) & Hsession & Hlocks & Hout & Hfaults).
    destruct (sendEvent_store eventType data w client)
      as (Hr & Hb & Hn & Hl & Hc & Hs & Hrs & Hm & Hfs).
    split; [repeat split; congruence|]. split; [|split; [|split]].
    + intros sid. destruct (Hsession sid) as (? & ? & ? & ?).
      repeat split; congruence.
    + congruence.
    + intros c [Hne Hnotin]%not_elem_of_cons.
      rewrite Hout by done. by apply sendEvent_output_other.
    + congruence.
Qed.

Lemma broadcastSSE_frame sid message w :
  let w' := broadcastSSE sid message w in
  sameRegistry w w' ∧
  (∀ sid', sameSession sid' w w') ∧
  sessionLocks w' = sessionLocks w ∧
  (∀ c, c ∉ clientsOf sid w → clientOutput w' !! c = clientOutput w !! c) ∧
  redisFaults w' = redisFaults w.
Proof. apply fold_sendEvent. Qed.

(** Every creation either refuses the request and changes nothing, or
    loads the session, saves it with the new item and broadcasts the item
    to the session. *)
Lemma create_shape sid rq w :
  (create sid rq w).2 = w ∨
  (create sid rq w).2 = (loadBoardItems sid w).2 ∨
  ∃ it items wl,
    (create sid rq w).2
    = broadcastSSE sid (newItemEvent it) (saveBoardItems sid items wl) ∧
    (wl = (loadBoardItems sid w).2 ∨
     wl = saveToMemory sid items (loadBoardItems sid w).2).
Proof.
  destruct rq as [id body|id body|id body|id body|id body|id taskId body
                 |id rx ry body];
    unfold create, post_todos, post_agents, post_lab_results, post_ehr_data,
      post_doctor_notes, post_enhanced_todo, post_board_items,
      appendAndBroadcast, pushItem;
    destruct (loadBoardItems sid w) as [[items aliased] wl];
    repeat (case_match; simplify_eq/=);
    first [ by left
          | by right; left
          | right; right; eexists _, _, _; split; [reflexivity|]; by eauto ].
Qed.

Lemma create_other s1 s2 rq w :
  s1 ≠ s2 → sameSession s2 w (create s1 rq w).2.
Proof.
  intros Hne.
  destruct (create_shape s1 rq w)
    as [->|[->|(it & items & wl & -> & Hwl)]];
    [apply sameSession_refl|by apply loadBoardItems_other|].
  eapply sameSession_trans; [|apply broadcastSSE_frame].
  eapply sameSession_trans; [|by apply saveBoardItems_other].
  destruct Hwl as [->| ->].
  - by apply loadBoardItems_other.
  - eapply sameSession_trans; [by apply loadBoardItems_other|].
    by apply saveToMemory_other.
Qed.

Lemma create_registry sid rq w :
  sameRegistry w (create sid rq w).2 ∧
  ∀ c, c ∉ clientsOf sid w →
       clientOutput (create sid rq w).2 !! c = clientOutput w !! c.
Proof.
  pose proof (loadBoardItems_outside sid w)
    as (_ & _ & Hsse0 & Hout0 & Hbroken0 & Hnext0 & _).
  destruct (create_shape sid rq w)
    as [->|[->|(it & items & wl & -> & Hwl)]];
    [by repeat split| |].
  { split; [by repeat split|]. intros c _. by rewrite Hout0. }
  assert (sameOutside w wl) as (_ & _ & Hsse & Hout & Hbroken & Hnext & _).
  { pose proof (loadBoardItems_outside sid w) as Hload.
    destruct Hwl as [->| ->]; [done|].
    unfold sameOutside in *. by simpl. }
  pose proof (saveBoardItems_outside sid items wl)
    as (_ & _ & Hsse' & Hout' & Hbroken' & Hnext' & _).
  destruct (broadcastSSE_frame sid (newItemEvent it)
              (saveBoardItems sid items wl))
    as ((Hsse'' & Hbroken'' & Hnext'') & _ & _ & Hout'' & _).
  split; [repeat split; congruence|].
  intros c Hc. rewrite Hout''; [congruence|].
  unfold clientsOf in *. by rewrite Hsse', Hsse.
Qed.

Lemma registryOk_same w w' :
  sameRegistry w w' → registryOk w → registryOk w'.
Proof.
  intros (Hsse & _ & Hnext) [Hdisjoint Hbound].
  unfold registryOk, clientsOf in *. rewrite Hsse, Hnext. done.
Qed.

Lemma registryOk_fresh static : registryOk (freshWorld static).
Proof.
  split; unfold clientsOf; simpl.
  - intros s1 s2 c _. rewrite lookup_empty. simpl. by intros ?%elem_of_nil.
  - intros s c. rewrite lookup_empty. simpl. by intros ?%elem_of_nil.
Qed.

Lemma clientsOf_openEvents sid w s :
  clientsOf s (openEvents sid w).2
  = if decide (s = sid) then clientsOf sid w ++ [nextClient w]
    else clientsOf s w.
Proof.
  unfold openEvents, clientsOf. cbn [snd].
  destruct (sendEvent_store "connected" (PayloadConnected sid)
              (set_nextClient (S (nextClient w)) w) (nextClient w))
    as (Hsse & _).
  cbn [sseClientsBySession set_sseClientsBySession].
  rewrite Hsse. cbn [sseClientsBySession set_nextClient].
  case_decide as Hs.
  - subst s. by rewrite lookup_insert_eq.
  - by rewrite lookup_insert_ne.
Qed.

Lemma nextClient_openEvents sid w :
  nextClient (openEvents sid w).2 = S (nextClient w).
Proof.
  unfold openEvents. cbn [snd nextClient set_sseClientsBySession].
  by destruct (sendEvent_store "connected" (PayloadConnected sid)
                 (set_nextClient (S (nextClient w)) w) (nextClient w))
    as (_ & _ & -> & _).
Qed.

(** Opening a connection keeps the registry in order. *)
Lemma registryOk_openEvents sid w :
  registryOk w → registryOk (openEvents sid w).2.
Proof.
  intros [Hdisjoint Hbound]. split.
  - intros s1 s2 c Hne. rewrite !clientsOf_openEvents.
    repeat case_decide; subst; try done.
    + intros [Hin| ->%list_elem_of_singleton]%elem_of_app.
      * by apply (Hdisjoint sid s2 c).
      * intros Hin%Hbound. lia.
    + intros Hin. rewrite elem_of_app, list_elem_of_singleton.
      intros [Hin'| ->].
      * by apply (Hdisjoint s1 sid c).
      * apply Hbound in Hin. lia.
    + by apply (Hdisjoint s1 s2 c).
  - intros s c. rewrite clientsOf_openEvents, nextClient_openEvents.
    case_decide; subst.
    + intros [Hin%Hbound| ->%list_elem_of_singleton]%elem_of_app; lia.
    + intros Hin%Hbound. lia.
Qed.

(** C1: for two distinct sessions, whatever a creation request does under
    the first, a read under the second returns what it would have returned
    without it (for every script of Redis faults); and an event broadcast
    for the first session, by such a request or directly, is written only
    on connections registered under the first, never on a connection
    registered under the second, each connection being registered under
    the one session it was opened for. *)
Theorem sessions_are_isolated
    (s1 s2 : string) (rq : createRequest) (message : sseMessage) (w : world) :
  s1 ≠ s2 →
  registryOk w →
  (∀ faults,
     currentItems s2 (set_redisFaults faults (create s1 rq w).2)
     = currentItems s2 (set_redisFaults faults w)) ∧
  (∀ c, clientOutput (broadcastSSE s1 message w) !! c ≠ clientOutput w !! c →
        c ∈ clientsOf s1 w) ∧
  (∀ c, clientOutput (create s1 rq w).2 !! c ≠ clientOutput w !! c →
        c ∈ clientsOf s1 w) ∧
  (∀ c, c ∈ clientsOf s2 w →
        clientOutput (broadcastSSE s1 message w) !! c = clientOutput w !! c ∧
        clientOutput (create s1 rq w).2 !! c = clientOutput w !! c).
Proof.
  intros Hne [Hdisjoint _].
  destruct (broadcastSSE_frame s1 message w) as (_ & _ & _ & Hout & _).
  destruct (create_registry s1 rq w) as (_ & Hout').
  split; [|split; [|split]].
  - intros faults. apply currentItems_sameSession. by apply create_other.
  - intros c Hc. destruct (decide (c ∈ clientsOf s1 w)); [done|].
    destruct Hc. by apply Hout.
  - intros c Hc. destruct (decide (c ∈ clientsOf s1 w)); [done|].
    destruct Hc. by apply Hout'.
  - intros c Hc.
    assert (c ∉ clientsOf s1 w) as Hnot.
    { intros Hin. by apply (Hdisjoint s1 s2 c). }
    split; [by apply Hout|by apply Hout'].
Qed.

(** An instance: one connection on each of two sessions, a todo created
    under the first; the second session reads its template as before and
    its connection receives nothing. *)
Lemma sessions_are_isolated_witness :
  let w0 := freshWorld (Some [plainItem "t" "todo" 4260 60 420 (HNum 200)]) in
  let w := (openEvents "s2" (openEvents "s1" w0).2).2 in
  let body := TodosBody (Some "T") None (Some [TodoString "a"]) None None in
  let w' := (create "s1" (PostTodos "new" body) w).2 in
  "new" ∈ item_id <$> currentItems "s1" w' ∧
  currentItems "s2" (set_redisFaults [] w') = currentItems "s2" w ∧
  clientOutput w' !! 1%nat = clientOutput w !! 1%nat ∧
  clientOutput w' !! 0%nat ≠ clientOutput w !! 0%nat.
Proof.
  cbn zeta.
  pose proof (sessions_are_isolated "s1" "s2"
    (PostTodos "new"
       (TodosBody (Some "T") None (Some [TodoString "a"]) None None))
    (newItemEvent (plainItem "t" "todo" 4260 60 420 (HNum 200)))
    (openEvents "s2"
       (openEvents "s1"
          (freshWorld (Some [plainItem "t" "todo" 4260 60 420 (HNum 200)]))).2).2)
    as H.
  destruct H as (Hread & _ & _ & Hout).
  - discriminate.
  - apply registryOk_openEvents, registryOk_openEvents, registryOk_fresh.
  - split; [vm_compute; apply list_elem_of_further, list_elem_of_here|].
    split; [exact (Hread [])|]. split.
    + apply Hout. vm_compute. apply list_elem_of_here.
    + vm_compute. discriminate.
Defined.

(** Closing a connection and serving a creation keep the registry in
    order. *)
Lemma clientsOf_closeEvents sid res w s c :
  c ∈ clientsOf s (closeEvents sid res w) → c ∈ clientsOf s w.
Proof.
  unfold closeEvents, clientsOf.
  destruct (sseClientsBySession w !! sid) as [clients|] eqn:Hsid; [|done].
  destruct (decide (s = sid)) as [->|Hne].
  - rewrite Hsid. simpl.
    destruct (filter (fun c' => c' ≠ res) clients) as [|c0 rest] eqn:Hf;
      simpl.
    + rewrite lookup_delete_eq. simpl. by intros ?%elem_of_nil.
    + rewrite lookup_insert_eq. simpl. rewrite <- Hf.
      by intros [_ ?]%list_elem_of_filter.
  - destruct (filter (fun c' => c' ≠ res) clients); simpl;
      by rewrite ?lookup_delete_ne, ?lookup_insert_ne.
Qed.

Lemma nextClient_closeEvents sid res w :
  nextClient (closeEvents sid res w) = nextClient w.
Proof. unfold closeEvents. by repeat case_match. Qed.

Lemma registryOk_closeEvents sid res w :
  registryOk w → registryOk (closeEvents sid res w).
Proof.
  intros [Hdisjoint Hbound]. split.
  - intros s1 s2 c Hne Hin1%clientsOf_closeEvents Hin2%clientsOf_closeEvents.
    by apply (Hdisjoint s1 s2 c).
  - intros s c Hin%clientsOf_closeEvents.
    rewrite nextClient_closeEvents. by apply (Hbound s).
Qed.

Lemma registryOk_create sid rq w :
  registryOk w → registryOk (create sid rq w).2.
Proof. apply registryOk_same, create_registry. Qed.

(** ** Further facts about the handlers *)

(** A step of a lock-guarded handler of one session shows nothing to
    another. *)
Lemma handlerStep_other s1 s2 rq thr p w :
  s1 ≠ s2 → sameSession s2 w (handlerStep s1 rq thr p w).2.
Proof.
  intros Hne.
  assert (∀ v, sameSession s2 w (set_sessionLocks v w)) as Hlocks
    by (by intros v; repeat split).
  destruct p as [| |items|answer|answer]; cbn [handlerStep].
  - destruct (rejected rq); [apply sameSession_refl|].
    unfold tryAcquireLock.
    repeat case_match; simplify_eq; cbn [snd];
      first [apply sameSession_refl|apply Hlocks].
  - destruct rq as [id|ids|items]; case_decide; cbn [snd caught];
      try apply Hlocks.
    + pose proof (loadBoardItems_other s1 s2 w Hne).
      by destruct (loadBoardItems s1 w) as [[? ?] ?].
    + pose proof (loadBoardItems_other s1 s2 w Hne).
      by destruct (loadBoardItems s1 w) as [[? ?] ?].
    + by apply saveBoardItems_other.
  - destruct (keepItems rq items); cbn [snd]; [|apply Hlocks].
    case_decide; cbn [snd caught]; [apply Hlocks|].
    by apply saveBoardItems_other.
  - case_decide; cbn [snd caught]; unfold releaseLock; by repeat split.
  - apply sameSession_refl.
Qed.

Lemma set_redisFaults_same w : set_redisFaults (redisFaults w) w = w.
Proof. by destruct w. Qed.

Lemma currentItems_broadcastSSE sid sid' message w :
  currentItems sid (broadcastSSE sid' message w) = currentItems sid w.
Proof.
  destruct (broadcastSSE_frame sid' message w) as (_ & Hsame & _ & _ & Hf).
  rewrite <- (set_redisFaults_same (broadcastSSE sid' message w)), Hf.
  rewrite (currentItems_sameSession sid w _ (redisFaults w) (Hsame sid)).
  by rewrite set_redisFaults_same.
Qed.

(** What [POST /api/lab-results] does with any request: it refuses it with
    a 400 and leaves the server as it was, or it answers 201 and, Redis not
    failing, the session holds its former items followed by the new one. *)
Lemma lab_result_refused_or_appended sid id body w :
  match post_lab_results sid id body w with
  | (RespError status _, w') => status = 400 ∧ w' = w
  | (RespCreated _ it, w') =>
      redisFaults w = [] → currentItems sid w' = currentItems sid w ++ [it]
  | _ => False
  end.
Proof.
  unfold post_lab_results, appendAndBroadcast.
  destruct (labreq_range body) as [range|]; [|done].
  destruct (_ && truthyStr (labreq_status body)); [|done].
  destruct (negb (validStatus _)); [done|].
  destruct (_ || _); [done|].
  pose proof (loadBoardItems_noFaults sid w) as Hfaults.
  unfold currentItems at 2.
  destruct (loadBoardItems sid w) as [[existing aliased] w1].
  cbv beta iota zeta.
  destruct (match labreq_x body with Some _ => _ | None => _ end) as [px py].
  intros Hf. rewrite currentItems_broadcastSSE.
  apply currentItems_saveBoardItems. by apply Hfaults.
Qed.

(** The endpoints that do honour a supplied position: todos, agents, lab
    results, EHR data and enhanced todos store the item at the [(x, y)]
    of the request. *)
Lemma supplied_position_is_kept sid rq x y w it w' :
  match rq with
  | PostTodos _ body => todos_x body = Some x ∧ todos_y body = Some y
  | PostAgents _ body => agents_x body = Some x ∧ agents_y body = Some y
  | PostLabResults _ body => labreq_x body = Some x ∧ labreq_y body = Some y
  | PostEhrData _ body => ehr_x body = Some x ∧ ehr_y body = Some y
  | PostEnhancedTodo _ _ body => etb_x body = Some x ∧ etb_y body = Some y
  | PostDoctorNotes _ _ | PostBoardItems _ _ _ _ => False
  end →
  create sid rq w = (RespCreated sid it, w') →
  item_x it = x ∧ item_y it = y.
Proof.
  destruct rq as [id body|id body|id body|id body|id body|id taskId body
                 |id rx ry body]; try done;
    intros [Hx Hy];
    unfold create, post_todos, post_agents, post_lab_results, post_ehr_data,
      post_enhanced_todo, appendAndBroadcast, pushItem;
    rewrite ?Hx, ?Hy;
    destruct (loadBoardItems sid w) as [[existing aliased] w1];
    repeat (case_match; simplify_eq/=); intros; by simplify_eq/=.
Qed.

(** * Further properties *)

(** ** Heights *)

Lemma clamp_bounds lo hi v : lo ≤ hi → lo ≤ clamp lo hi v ≤ hi.
Proof. unfold clamp. lia. Qed.

Lemma clamp_mono lo hi v v' : v ≤ v' → clamp lo hi v ≤ clamp lo hi v'.
Proof. unfold clamp. lia. Qed.

(** X1: unless an item declares a numeric height other than [0], which is
    taken as it is, its estimated height lies between 200 and 1200: between
    200 and 1200 for a todo with its data, between 200 and 800 for an agent
    note with its data, 280 for a lab result and 450 for anything else. *)
Theorem estimateItemHeight_bounds (it : item) :
  (∃ h, item_height it = HNum h ∧ h ≠ 0 ∧ estimateItemHeight it = h) ∨
  (200 ≤ estimateItemHeight it ≤ 1200 ∧
   (item_type it = "agent" → item_agentData it ≠ None →
    estimateItemHeight it ≤ 800) ∧
   (item_type it = "lab-result" → estimateItemHeight it = 280) ∧
   (item_type it ≠ "todo" → item_type it ≠ "agent" →
    item_type it ≠ "lab-result" → estimateItemHeight it = 450)).
Proof.
  assert (200 ≤ estimateFromContent it ≤ 1200 ∧
          (item_type it = "agent" → item_agentData it ≠ None →
           estimateFromContent it ≤ 800) ∧
          (item_type it = "lab-result" → estimateFromContent it = 280) ∧
          (item_type it ≠ "todo" → item_type it ≠ "agent" →
           item_type it ≠ "lab-result" → estimateFromContent it = 450))
    as Hcontent.
  { unfold estimateFromContent, estimateTodoHeight, estimateAgentHeight.
    destruct (String.eqb_spec (item_type it) "todo") as [Ht|Ht];
      [rewrite Ht; simpl|].
    - destruct (item_todoData it) as [d|].
      + pose proof (clamp_bounds 200 1200
          (fold_left (fun acc t => acc + todoEntryHeight t)
             (default [] (td_todos d))
             (120 + (if truthyStr (td_description d) then 30 else 0)))).
        repeat split; intros; try lia; try congruence; try done.
      + destruct (item_agentData it);
          repeat split; intros; try lia; try congruence; try done.
    - destruct (String.eqb_spec (item_type it) "agent") as [Ha|Ha].
      + destruct (item_agentData it) as [d|].
        * pose proof (clamp_bounds 200 800
            (100 + ceilDiv
               match ad_markdown d with
               | Some s => Z.of_nat (String.length s)
               | None => 0
               end 60 * 20)).
          repeat split; intros; try lia; try congruence; try done.
        * rewrite Ha. simpl.
          repeat split; intros; try lia; try congruence; try done.
      + destruct (String.eqb_spec (item_type it) "lab-result") as [Hl|Hl];
          repeat split; intros; try lia; try congruence; try done. }
  unfold estimateItemHeight.
  destruct (item_height it) as [h| |]; [|by right..].
  destruct (Z.eqb_spec h 0) as [->|Hne]; [by right|].
  left. exists h. by rewrite (proj2 (Z.eqb_neq h 0) Hne) || done.
Qed.

(** X2: the heights the todo and agent handlers store are bounded: a todo
    list is between 200 and 600 high and not lower for more entries, an
    agent note between 180 and 800 and not lower for a longer text; being
    numbers other than [0], they are the heights the layout engine uses
    for these items. *)
Theorem stored_heights_bounded
    (todos todos' : list todoEntry) (description : option string)
    (content content' : string) (it : item) :
  200 ≤ calculateTodoHeight todos description ≤ 600 ∧
  calculateTodoHeight todos description
  ≤ calculateTodoHeight (todos ++ todos') description ∧
  180 ≤ calculateHeight content ≤ 800 ∧
  calculateHeight content ≤ calculateHeight (content +:+ content') ∧
  (item_height it = HNum (calculateTodoHeight todos description) ∨
   item_height it = HNum (calculateHeight content) →
   item_height it = HNum (estimateItemHeight it)).
Proof.
  split; [apply clamp_bounds; lia|]. split.
  { unfold calculateTodoHeight. apply clamp_mono.
    rewrite length_app. lia. }
  assert (∀ s, 0 ≤ ceilDiv (12 * Z.of_nat (String.length s)) 520) as Hceil.
  { intros s. unfold ceilDiv. apply Z.div_pos; lia. }
  split; [unfold calculateHeight; specialize (Hceil content); lia|].
  split.
  { unfold calculateHeight, ceilDiv.
    assert (String.length (content +:+ content')
            = (String.length content + String.length content')%nat) as ->.
    { induction content as [|c content IH]; simpl; [done|]. by rewrite IH. }
    assert ((12 * Z.of_nat (String.length content) + 520 - 1) / 520
            ≤ (12 * Z.of_nat (String.length content + String.length content')
               + 520 - 1) / 520) by (apply Z.div_le_mono; lia).
    lia. }
  intros [Hh|Hh]; unfold estimateItemHeight; rewrite Hh.
  - destruct (Z.eqb_spec (calculateTodoHeight todos description) 0) as [H0|];
      [|reflexivity].
    pose proof (clamp_bounds 200 600
      (80 + Z.of_nat (length todos) * 35
       + (if truthyStr description then 20 else 0) + 20)).
    unfold calculateTodoHeight in H0. lia.
  - destruct (Z.eqb_spec (calculateHeight content) 0) as [H0|];
      [|reflexivity].
    unfold calculateHeight in H0. specialize (Hceil content). lia.
Qed.

(** ** Column packing: the choice of the column *)

Lemma bestColumnFrom_spec rest k bestCol bestY c m :
  bestColumnFrom rest k bestCol bestY = (c, m) →
  (c = bestCol ∧ m = bestY ∧ ∀ i b, rest !! i = Some b → bestY ≤ b) ∨
  (∃ i, c = (k + i)%nat ∧ rest !! i = Some m ∧ m < bestY ∧
        (∀ j b, rest !! j = Some b → m ≤ b) ∧
        (∀ j b, (j < i)%nat → rest !! j = Some b → m < b)).
Proof.
  revert k bestCol bestY.
  induction rest as [|b0 rest IH]; intros k bestCol bestY Hbest; simpl in *.
  - left. by simplify_eq.
  - destruct (Z.ltb_spec b0 bestY) as [Hlt|Hge].
    + right. destruct (IH _ _ _ Hbest)
        as [(-> & -> & Hall)|(i & -> & Hi & Hlt' & Hall & Hfirst)].
      * exists 0%nat. split; [lia|]. split; [done|]. split; [done|].
        split; [|lia]. intros [|j] b Hj; simpl in Hj; simplify_eq; [lia|].
        by eapply Hall.
      * exists (S i). split; [lia|]. split; [done|]. split; [lia|].
        split.
        -- intros [|j] b Hj; simpl in Hj; simplify_eq; [lia|].
           by eapply Hall.
        -- intros [|j] b Hj Hb; simpl in Hb; simplify_eq; [lia|].
           eapply Hfirst; [|done]. lia.
    + destruct (IH _ _ _ Hbest)
        as [(-> & -> & Hall)|(i & -> & Hi & Hlt' & Hall & Hfirst)].
      * left. split; [done|]. split; [done|].
        intros [|j] b Hj; simpl in Hj; simplify_eq; [lia|]. by eapply Hall.
      * right. exists (S i). split; [lia|]. split; [done|]. split; [done|].
        split.
        -- intros [|j] b Hj; simpl in Hj; simplify_eq; [lia|].
           by eapply Hall.
        -- intros [|j] b Hj Hb; simpl in Hb; simplify_eq; [lia|].
           eapply Hfirst; [|done]. lia.
Qed.

Lemma bestColumn_firstLeast startY columns :
  columns ≠ [] →
  firstLeast columns (bestColumn startY columns).1
             (bestColumn startY columns).2.
Proof.
  intros Hne. unfold bestColumn.
  destruct columns as [|c0 columns]; [done|].
  assert (default startY ((c0 :: columns) !! 0%nat) = c0) as -> by done.
  destruct (bestColumnFrom (c0 :: columns) 0 0 c0) as [c m] eqn:Hbest.
  destruct (bestColumnFrom_spec _ _ _ _ _ _ Hbest)
    as [(-> & -> & Hall)|(i & -> & Hi & Hlt & Hall & Hfirst)]; cbn [fst snd].
  - split; [done|]. split; [exact Hall|]. intros; lia.
  - split; [done|]. split; [exact Hall|]. exact Hfirst.
Qed.

Lemma firstFitFrom_None limit h rest k :
  (∀ i b, rest !! i = Some b → limit < b + h) →
  firstFitFrom limit h rest k = None.
Proof.
  revert k. induction rest as [|b0 rest IH]; intros k Hall; simpl; [done|].
  destruct (Z.leb_spec (b0 + h) limit) as [Hle|_].
  - specialize (Hall 0%nat b0 eq_refl). lia.
  - apply IH. intros i b Hi. by apply (Hall (S i)).
Qed.

Lemma zoneColumns_length z existingItems :
  length (zoneColumns z existingItems)
  = Z.to_nat ((zone_width z - 120) / (520 + 60)).
Proof.
  unfold zoneColumns, columnBottoms.
  by rewrite fold_bumpColumn_length, length_replicate.
Qed.

Lemma zoneColumns_from_start z existingItems j b :
  zoneColumns z existingItems !! j = Some b → zone_y z + 60 ≤ b.
Proof.
  unfold zoneColumns, columnBottoms. intros Hj.
  assert (j < Z.to_nat ((zone_width z - 120) / (520 + 60)))%nat as Hlt.
  { apply lookup_lt_Some in Hj.
    by rewrite fold_bumpColumn_length, length_replicate in Hj. }
  destruct (fold_bumpColumn_mono (zone_x z + 60)
              ((zone_width z - 120) / (520 + 60))
              (filter (fun it => inZone z it = true) existingItems)
              (replicate (Z.to_nat ((zone_width z - 120) / (520 + 60)))
                         (zone_y z + 60))
              j (zone_y z + 60)) as (b' & Hb' & Hle).
  { by apply lookup_replicate_2. }
  congruence.
Qed.

Lemma wide_zone_has_columns z :
  700 ≤ zone_width z → 1 ≤ (zone_width z - 120) / (520 + 60).
Proof. intros Hw. apply Z.div_le_lower_bound; lia. Qed.

Lemma findPositionInZone_least newItem existingItems z :
  700 ≤ zone_width z →
  ∃ c m,
    firstLeast (zoneColumns z existingItems) c m ∧
    findPositionInZone newItem existingItems z
    = if m + estimateItemHeight newItem <=? zoneBottom z
      then (columnX (zone_x z + 60) c, m)
      else (zone_x z + 60, zone_y z + 60).
Proof.
  intros Hwide.
  assert (zoneColumns z existingItems ≠ []) as Hne.
  { intros Hnil. pose proof (zoneColumns_length z existingItems) as Hlen.
    rewrite Hnil in Hlen. pose proof (wide_zone_has_columns z Hwide).
    simpl in Hlen. lia. }
  pose proof (bestColumn_firstLeast (zone_y z + 60) _ Hne) as Hleast.
  unfold findPositionInZone. fold (zoneColumns z existingItems).
  fold (zoneBottom z).
  destruct (bestColumn (zone_y z + 60) (zoneColumns z existingItems))
    as [c m]. cbn [fst snd] in Hleast.
  exists c, m. split; [done|].
  destruct (Z.ltb_spec (zoneBottom z) (m + estimateItemHeight newItem))
    as [Hover|Hfits].
  - rewrite firstFitFrom_None.
    + by destruct (Z.leb_spec (m + estimateItemHeight newItem) (zoneBottom z));
        [lia|].
    + intros i b Hi. destruct Hleast as (_ & Hall & _).
      specialize (Hall i b Hi). lia.
  - by destruct (Z.leb_spec (m + estimateItemHeight newItem) (zoneBottom z));
      [|lia].
Qed.

(** X3: in a zone wide enough for one column, [findPositionInZone] puts
    the new item on the first column of least bottom when it fits there
    above the bottom of the zone, and at the top of the first column
    otherwise: the scan for another column that fits never finds one, the
    least bottom fitting if any does. *)
Theorem findPositionInZone_choice
    (newItem : item) (existingItems : list item) (z : zone) :
  700 ≤ zone_width z →
  ∃ c m,
    firstLeast (zoneColumns z existingItems) c m ∧
    findPositionInZone newItem existingItems z
    = if m + estimateItemHeight newItem <=? zoneBottom z
      then (columnX (zone_x z + 60) c, m)
      else (zone_x z + 60, zone_y z + 60).
Proof. apply findPositionInZone_least. Qed.

Lemma findPositionInZone_choice_witness :
  let agent := plainItem "a1" "agent" 4260 60 520 (HNum 300) in
  ∃ c m,
    firstLeast (zoneColumns TASK_ZONE [agent]) c m ∧
    findPositionInZone (tempItemOf "todo" 420 (HNum 200)) [agent] TASK_ZONE
    = if m + 200 <=? 2100 then (columnX 4260 c, m) else (4260, 60).
Proof.
  cbn zeta.
  apply (findPositionInZone_choice (tempItemOf "todo" 420 (HNum 200))
           [plainItem "a1" "agent" 4260 60 520 (HNum 300)] TASK_ZONE).
  simpl. lia.
Defined.

Lemma columnX_inj startX c c' : columnX startX c = columnX startX c' → c = c'.
Proof. unfold columnX. lia. Qed.

Lemma findPositionInZone_corner newItem existingItems z :
  700 ≤ zone_width z →
  60 < zone_height z →
  0 < estimateItemHeight newItem →
  cornerInZone z (findPositionInZone newItem existingItems z).
Proof.
  intros Hwide Hhigh Hpos.
  destruct (findPositionInZone_least newItem existingItems z Hwide)
    as (c & m & (Hc & Hall & _) & ->).
  pose proof (wide_zone_has_columns z Hwide) as Hcols.
  assert (Z.of_nat c < (zone_width z - 120) / (520 + 60)) as Hlt.
  { apply lookup_lt_Some in Hc. rewrite zoneColumns_length in Hc. lia. }
  pose proof (Z.mul_div_le (zone_width z - 120) (520 + 60) ltac:(lia)) as Hmul.
  pose proof (zoneColumns_from_start _ _ _ _ Hc) as Hstart.
  unfold cornerInZone, zoneBottom, columnX in *.
  destruct (Z.leb_spec (m + estimateItemHeight newItem)
                       (zone_y z + zone_height z)); cbn [fst snd]; lia.
Qed.

(** X4: in a zone at least 700 wide and more than 60 high, the position
    [findPositionInZone] returns for an item of positive estimated height
    lies inside the zone rectangle, and the item ends above the bottom of
    the zone unless it was put at the top of the first column for want of
    room. *)
Theorem findPositionInZone_inside
    (newItem : item) (existingItems : list item) (z : zone) :
  700 ≤ zone_width z →
  60 < zone_height z →
  0 < estimateItemHeight newItem →
  let position := findPositionInZone newItem existingItems z in
  cornerInZone z position ∧
  (position.2 + estimateItemHeight newItem ≤ zoneBottom z ∨
   position = (zone_x z + 60, zone_y z + 60)).
Proof.
  intros Hwide Hhigh Hpos. cbn zeta.
  split; [by apply findPositionInZone_corner|].
  destruct (findPositionInZone_least newItem existingItems z Hwide)
    as (c & m & _ & ->).
  destruct (Z.leb_spec (m + estimateItemHeight newItem) (zoneBottom z));
    [by left|by right].
Qed.

Lemma findPositionInZone_inside_witness :
  let agent := plainItem "a1" "agent" 4260 60 520 (HNum 300) in
  cornerInZone TASK_ZONE
    (findPositionInZone (tempItemOf "todo" 420 (HNum 200)) [agent] TASK_ZONE).
Proof.
  cbn zeta.
  apply (findPositionInZone_inside (tempItemOf "todo" 420 (HNum 200))
           [plainItem "a1" "agent" 4260 60 520 (HNum 300)] TASK_ZONE);
    by vm_compute.
Defined.

Lemma findPositionInZone_below newItem existingItems z it :
  700 ≤ zone_width z →
  it ∈ existingItems →
  inZone z it = true →
  0 ≤ columnOf (zone_x z + 60) it < (zone_width z - 120) / (520 + 60) →
  let position := findPositionInZone newItem existingItems z in
  ((∀ j b, zoneColumns z existingItems !! j = Some b →
           zoneBottom z < b + estimateItemHeight newItem) ∧
   position = (zone_x z + 60, zone_y z + 60)) ∨
  (columnX (zone_x z + 60) (Z.to_nat (columnOf (zone_x z + 60) it))
   = position.1 →
   bottomOf it ≤ position.2).
Proof.
  intros Hwide Hin Hzone Hcol. cbn zeta.
  destruct (findPositionInZone_least newItem existingItems z Hwide)
    as (c & m & (Hc & Hall & _) & ->).
  destruct (Z.leb_spec (m + estimateItemHeight newItem) (zoneBottom z))
    as [Hfits|Hover].
  - right. cbn [fst snd]. intros Hx%columnX_inj.
    destruct (columnBottoms_covers (zone_x z + 60) (zone_y z + 60)
                ((zone_width z - 120) / (520 + 60))
                (filter (fun it' => inZone z it' = true) existingItems) it)
      as (b & Hb & Hle); [by apply list_elem_of_filter|done|].
    unfold zoneColumns in Hc. rewrite Hx in Hb. unfold bottomOf in *.
    assert (b = m) by congruence. lia.
  - left. split; [|done]. intros j b Hj. specialize (Hall j b Hj). lia.
Qed.

(** X5: unless no column of the zone has room left for the new item, the
    position [findPositionInZone] returns lies below every existing item
    of the zone that is bucketed into the same column, at least 60 below
    its estimated bottom, whatever the kinds of the items. *)
Theorem findPositionInZone_below_column
    (newItem : item) (existingItems : list item) (z : zone) :
  700 ≤ zone_width z →
  let position := findPositionInZone newItem existingItems z in
  ((∀ j b, zoneColumns z existingItems !! j = Some b →
           zoneBottom z < b + estimateItemHeight newItem) ∧
   position = (zone_x z + 60, zone_y z + 60)) ∨
  Forall (fun it =>
            inZone z it = true →
            0 ≤ columnOf (zone_x z + 60) it
              < (zone_width z - 120) / (520 + 60) →
            columnX (zone_x z + 60) (Z.to_nat (columnOf (zone_x z + 60) it))
            = position.1 →
            bottomOf it ≤ position.2)
         existingItems.
Proof.
  intros Hwide. cbn zeta.
  destruct (findPositionInZone_least newItem existingItems z Hwide)
    as (c & m & (Hc & Hall & _) & Heq).
  destruct (Z.leb_spec (m + estimateItemHeight newItem) (zoneBottom z))
    as [Hfits|Hover].
  - right. apply Forall_forall. intros it Hin Hzone Hcol Hx.
    destruct (findPositionInZone_below newItem existingItems z it
                Hwide Hin Hzone Hcol) as [[Hfull _]|Hbelow].
    + specialize (Hfull c m Hc). lia.
    + by apply Hbelow.
  - left. rewrite Heq. split; [|done].
    intros j b Hj. specialize (Hall j b Hj). lia.
Qed.

Lemma findPositionInZone_below_column_witness :
  let first := plainItem "a1" "agent" 4260 60 520 (HNum 300) in
  let second := plainItem "a2" "agent" 4840 60 520 (HNum 500) in
  let third := plainItem "a3" "agent" 5420 60 520 (HNum 500) in
  let position :=
    findPositionInZone (tempItemOf "todo" 420 (HNum 200))
                       [first; second; third] TASK_ZONE in
  position = (4260, 420) ∧ bottomOf first ≤ position.2.
Proof.
  cbn zeta. split; [vm_compute; reflexivity|].
  destruct (findPositionInZone_below_column
              (tempItemOf "todo" 420 (HNum 200))
              [plainItem "a1" "agent" 4260 60 520 (HNum 300);
               plainItem "a2" "agent" 4840 60 520 (HNum 500);
               plainItem "a3" "agent" 5420 60 520 (HNum 500)] TASK_ZONE)
    as [[_ Hcorner]|Hall]; [by vm_compute| |].
  - vm_compute in Hcorner. discriminate Hcorner.
  - apply Forall_inv in Hall. apply Hall.
    + reflexivity.
    + by vm_compute.
    + vm_compute. reflexivity.
Defined.
(** ** Creation *)

Lemma appendAndBroadcast_result sid existing it wl :
  redisFaults wl = [] →
  let w' := broadcastSSE sid (newItemEvent it)
                         (saveBoardItems sid (existing ++ [it]) wl) in
  currentItems sid w' = existing ++ [it] ∧
  redisFaults w' = [] ∧
  sessionLocks w' = sessionLocks wl.
Proof.
  intros Hf. cbn zeta.
  destruct (broadcastSSE_frame sid (newItemEvent it)
              (saveBoardItems sid (existing ++ [it]) wl))
    as (_ & _ & Hlocks & _ & Hfaults).
  rewrite currentItems_broadcastSSE, Hlocks, Hfaults, saveBoardItems_locks.
  split; [by apply currentItems_saveBoardItems|].
  split; [by apply saveBoardItems_noFaults|done].
Qed.

Lemma create_result sid rq w :
  redisFaults w = [] →
  (∃ error, create sid rq w = (RespError 400 error, w)) ∨
  (∃ id body,
      rq = PostAgents id body ∧
      inheritedKey (textOf (agents_zone body)) = true ∧
      create sid rq w
      = (RespError 500 "Failed to create agent item",
         (loadBoardItems sid w).2)) ∨
  (∃ it w',
      create sid rq w = (RespCreated sid it, w') ∧
      item_id it = createId rq ∧
      currentItems sid w' = currentItems sid w ++ [it] ∧
      redisFaults w' = [] ∧
      sessionLocks w' = sessionLocks w).
Proof.
  intros Hf.
  pose proof (loadBoardItems_noFaults sid w Hf) as Hf1.
  pose proof (loadBoardItems_locks sid w) as Hl1.
  unfold currentItems.
  destruct rq as [id body|id body|id body|id body|id body|id taskId body
                 |id rx ry body];
    unfold create, post_todos, post_agents, post_lab_results, post_ehr_data,
      post_doctor_notes, post_enhanced_todo, post_board_items,
      appendAndBroadcast, pushItem;
    destruct (loadBoardItems sid w) as [[items aliased] wl];
    cbn [fst snd] in *;
    repeat (case_match; simplify_eq/=);
    first [ by left; eexists
          | by right; left; eexists _, _
          | right; right; eexists _, _; split; [reflexivity|]; split; [done|];
            match goal with
            | |- context [saveBoardItems sid (?e ++ [?it]) ?wl'] =>
                destruct (appendAndBroadcast_result sid e it wl')
                  as (? & ? & Hlk); [done|];
                repeat split; try done; rewrite Hlk; done
            end ].
Qed.

(** X6: as long as Redis does not fail, a creation request either is
    refused with status 400 and changes nothing, or answers with the new
    item, which carries the identifier generated for it and is appended at
    the end of what the session reads; the one other outcome is the agent
    note asked for a zone named like a key every object inherits, which is
    answered 500 and stores nothing. No creation handler touches the lock
    of the session. *)
Theorem create_appends_one_item (sid : string) (rq : createRequest) (w : world) :
  redisFaults w = [] →
  (∃ error, create sid rq w = (RespError 400 error, w)) ∨
  (∃ id body w',
      rq = PostAgents id body ∧
      inheritedKey (textOf (agents_zone body)) = true ∧
      create sid rq w = (RespError 500 "Failed to create agent item", w') ∧
      currentItems sid w' = currentItems sid w ∧
      sessionLocks w' = sessionLocks w) ∨
  (∃ it w',
      create sid rq w = (RespCreated sid it, w') ∧
      item_id it = createId rq ∧
      currentItems sid w' = currentItems sid w ++ [it] ∧
      sessionLocks w' = sessionLocks w).
Proof.
  intros Hf.
  destruct (create_result sid rq w Hf)
    as [?|[(id & body & ? & ? & ?)|(it & w' & ? & ? & ? & _ & ?)]];
    [by left| |].
  - right. left. exists id, body, (loadBoardItems sid w).2.
    split; [done|]. split; [done|]. split; [done|].
    split; [by apply currentItems_loadBoardItems|].
    apply loadBoardItems_locks.
  - right. right. by exists it, w'.
Qed.

Lemma create_appends_one_item_witness :
  let body := TodosBody (Some "Plan") None (Some [TodoString "call"]) None None in
  ∃ it w',
    create "s" (PostTodos "item-1" body) (freshWorld None)
    = (RespCreated "s" it, w') ∧
    currentItems "s" w' = [it].
Proof.
  cbn zeta.
  destruct (create_appends_one_item "s"
              (PostTodos "item-1"
                 (TodosBody (Some "Plan") None (Some [TodoString "call"])
                            None None))
              (freshWorld None))
    as [[error Herr]|[(id & body & w' & Hrq & _)
                     |(it & w' & Hc & _ & Hitems & _)]]; [reflexivity| | |].
  - vm_compute in Herr. discriminate Herr.
  - discriminate Hrq.
  - exists it, w'. split; [exact Hc|]. exact Hitems.
Defined.
Lemma estimateFromContent_lower it : 200 ≤ estimateFromContent it.
Proof.
  unfold estimateFromContent, estimateTodoHeight, estimateAgentHeight.
  repeat case_match; try lia; apply clamp_bounds; lia.
Qed.

Lemma calculateTodoHeight_lower todos description :
  200 ≤ calculateTodoHeight todos description.
Proof. apply clamp_bounds. lia. Qed.

Lemma calculateHeight_lower content : 180 ≤ calculateHeight content.
Proof.
  unfold calculateHeight, ceilDiv.
  assert (0 ≤ (12 * Z.of_nat (String.length content) + 520 - 1) / 520)
    by (apply Z.div_pos; lia).
  lia.
Qed.

Lemma estimateItemHeight_HNum it h :
  item_height it = HNum h → h ≠ 0 → estimateItemHeight it = h.
Proof.
  intros Hh Hne. unfold estimateItemHeight. rewrite Hh.
  by destruct (Z.eqb_spec h 0).
Qed.

Lemma numOr_nonzero n d : d ≠ 0 → numOr n d ≠ 0.
Proof.
  unfold numOr, truthyNum. destruct n as [n|]; [|done]. simpl.
  by destruct (Z.eqb_spec n 0).
Qed.

Lemma findPositionInZone_ext newItem newItem' existingItems z :
  estimateItemHeight newItem = estimateItemHeight newItem' →
  findPositionInZone newItem existingItems z
  = findPositionInZone newItem' existingItems z.
Proof. unfold findPositionInZone. by intros ->. Qed.


Lemma placementZone_size rq z :
  placementZone rq = Some z → zone_width z = 2000 ∧ zone_height z = 2100.
Proof.
  destruct rq; simpl; unfold zoneConfig;
    repeat (case_match; simplify_eq/=); by intros [= <-].
Qed.

Lemma truthyStr_strOr s :
  truthyStr (Some (strOr s EmptyString)) = truthyStr s.
Proof. unfold strOr. by destruct s as [[|c s]|]. Qed.

Ltac nonzero := first [lia | apply numOr_nonzero; lia].

Ltac same_height :=
  first
    [ erewrite !estimateItemHeight_HNum by first [reflexivity | nonzero];
      reflexivity
    | unfold estimateItemHeight, estimateFromContent, estimateTodoHeight;
      cbn [item_height item_type item_todoData item_agentData tempItemOf
           plainItem td_description td_todos String.eqb Ascii.eqb Bool.eqb];
      rewrite ?truthyStr_strOr; reflexivity ].

Ltac placed_here :=
  cbn [item_x item_y plainItem];
  match goal with
  | H : findPositionInZone _ _ _ = _ |- _ => rewrite <- H
  | |- _ => rewrite <- surjective_pairing
  end;
  apply findPositionInZone_ext; same_height.

Lemma create_placed sid rq w it w' z :
  placementZone rq = Some z →
  create sid rq w = (RespCreated sid it, w') →
  (item_x it, item_y it) = findPositionInZone it (currentItems sid w) z ∧
  (heightOk rq = true → 0 < estimateItemHeight it).
Proof.
  unfold currentItems.
  destruct rq as [id body|id body|id body|id body|id body|id taskId body
                 |id rx ry body]; try done;
    unfold create, post_todos, post_agents, post_lab_results, post_ehr_data,
      post_doctor_notes, post_enhanced_todo, post_board_items,
      appendAndBroadcast, pushItem, placementZone, positioned, heightOk;
    destruct (loadBoardItems sid w) as [[existing aliased] w1];
    cbn [fst snd].
  - pose proof (calculateTodoHeight_lower
                  (map normalizeTodo (default [] (todos_todo_items body)))
                  (todos_description body)) as Hlow.
    repeat (case_match; simplify_eq/=); intros Hz Hc; simplify_eq/=.
    all: split; [placed_here|].
    all: intros _; erewrite estimateItemHeight_HNum by first [reflexivity | nonzero];
      lia.
  - pose proof (calculateHeight_lower (textOf (agents_content body))) as Hlow.
    repeat (case_match; simplify_eq/=); intros Hz Hc; simplify_eq/=.
    all: split; [placed_here|].
    all: intros _; erewrite estimateItemHeight_HNum by first [reflexivity | nonzero];
      lia.
  - repeat (case_match; simplify_eq/=); intros Hz Hc; simplify_eq/=.
    all: split; [placed_here|done].
  - pose proof (numOr_nonzero (ehr_height body) 300) as Hne.
    repeat (case_match; simplify_eq/=); intros Hz Hc; simplify_eq/=.
    all: split; [placed_here|].
    all: intros Hok%Z.ltb_lt;
      erewrite estimateItemHeight_HNum by first [reflexivity | nonzero];
      done.
  - pose proof (numOr_nonzero (note_height body) 600) as Hne.
    repeat (case_match; simplify_eq/=); intros Hz Hc; simplify_eq/=.
    all: split; [placed_here|].
    all: intros Hok%Z.ltb_lt;
      erewrite estimateItemHeight_HNum by first [reflexivity | nonzero];
      done.
  - repeat (case_match; simplify_eq/=); intros Hz Hc; simplify_eq/=.
    all: split; [placed_here|].
    all: intros Hok; unfold estimateItemHeight;
      cbn [item_height default];
      repeat case_match; simplify_eq/=;
      try match goal with
          | |- 0 < estimateFromContent ?i =>
              pose proof (estimateFromContent_lower i); lia
          end;
      lia.
Qed.

Lemma cornerInZone_inZone z it :
  cornerInZone z (item_x it, item_y it) → inZone z it = true.
Proof.
  unfold cornerInZone, inZone. cbn [fst snd]. intros [[] []].
  repeat (apply andb_true_intro; split);
    (by apply Z.leb_le) || (by apply Z.ltb_lt).
Qed.

(** X7: an item a creation handler places itself is put where
    [findPositionInZone] packs it into the zone of the request, among the
    items the session read; its corner lies in that zone, so that later
    packings of the zone count it, provided the request asks for no
    negative height. *)
Theorem created_item_lies_in_its_zone
    (sid : string) (rq : createRequest) (z : zone) (w w' : world) (it : item) :
  placementZone rq = Some z →
  heightOk rq = true →
  create sid rq w = (RespCreated sid it, w') →
  (item_x it, item_y it) = findPositionInZone it (currentItems sid w) z ∧
  inZone z it = true.
Proof.
  intros Hz Hok Hc.
  destruct (create_placed sid rq w it w' z Hz Hc) as [Hpos Hheight].
  destruct (placementZone_size rq z Hz) as [Hw Hh].
  split; [done|]. apply cornerInZone_inZone. rewrite Hpos.
  apply findPositionInZone_corner; [lia|lia|by apply Hheight].
Qed.

Lemma created_item_lies_in_its_zone_witness :
  let body := LabBody (Some "ALT") (Some 42) (Some "U/L") (Some "warning")
                      (Some (LabRange (Some 7) (Some 56))) None None None in
  ∃ it w',
    create "s" (PostLabResults "item-1" body) (freshWorld None)
    = (RespCreated "s" it, w') ∧
    inZone RETRIEVED_DATA_ZONE it = true.
Proof.
  cbn zeta. eexists _, _. split; [vm_compute; reflexivity|].
  eapply (created_item_lies_in_its_zone "s"
            (PostLabResults "item-1"
               (LabBody (Some "ALT") (Some 42) (Some "U/L") (Some "warning")
                        (Some (LabRange (Some 7) (Some 56))) None None None))
            RETRIEVED_DATA_ZONE (freshWorld None));
    [reflexivity|reflexivity|vm_compute; reflexivity].
Defined.



(** ** Events *)

Lemma sendEvent_output eventType data w client :
  outputOf client (sendEvent eventType data w client)
  = if decide (client ∈ brokenClients w) then outputOf client w
    else outputOf client w ++ [ChunkEvent eventType; ChunkData data].
Proof.
  unfold sendEvent, clientWrite, outputOf.
  destruct (decide (client ∈ brokenClients w)) as [|Hok]; [done|].
  cbn [brokenClients set_clientOutput].
  destruct (decide (client ∈ brokenClients w)); [done|].
  cbn [clientOutput set_clientOutput].
  rewrite !lookup_insert_eq. simpl. by rewrite <- app_assoc.
Qed.

Lemma fold_sendEvent_output eventType data clients w c :
  NoDup clients →
  outputOf c (fold_left (sendEvent eventType data) clients w)
  = if decide (c ∈ clients ∧ c ∉ brokenClients w)
    then outputOf c w ++ [ChunkEvent eventType; ChunkData data]
    else outputOf c w.
Proof.
  revert w. induction clients as [|client clients IH]; intros w Hnodup.
  - cbn [fold_left]. case_decide as Hc; [|done].
    destruct Hc as [Hc _]. by apply elem_of_nil in Hc.
  - apply NoDup_cons in Hnodup as [Hfresh Hnodup]. cbn [fold_left].
    rewrite IH by done.
    destruct (sendEvent_store eventType data w client) as (_ & Hbroken & _).
    rewrite Hbroken.
    clear IH Hbroken.
    destruct (decide (c = client)) as [->|Hne].
    + rewrite sendEvent_output.
      destruct (decide (client ∈ clients ∧ client ∉ brokenClients w))
        as [[Hin _]|_]; [done|].
      destruct (decide (client ∈ brokenClients w)) as [Hb|Hb];
        destruct (decide (client ∈ client :: clients
                          ∧ client ∉ brokenClients w)) as [[_ Hok]|Hno];
        try done.
      exfalso. apply Hno. split; [apply list_elem_of_here|done].
    + assert (outputOf c (sendEvent eventType data w client) = outputOf c w)
        as -> by (unfold outputOf; by rewrite sendEvent_output_other).
      destruct (decide (c ∈ clients ∧ c ∉ brokenClients w)) as [[Hin Hok]|Hno];
        destruct (decide (c ∈ client :: clients ∧ c ∉ brokenClients w))
        as [[Hin' Hok']|Hno']; try done.
      * exfalso. apply Hno'. split; [by apply list_elem_of_further|done].
      * exfalso. apply Hno. split; [|done].
        by apply elem_of_cons in Hin' as [?|?].
Qed.

(** X9: a broadcast writes the event line and the data line of the
    message, in this order and once, on every connection registered under
    the session on which a write does not throw, and nothing on any other
    connection; a message without an event name goes out as [new-item]. *)
Theorem broadcastSSE_delivers
    (sid : string) (message : sseMessage) (w : world) (c : nat) :
  NoDup (clientsOf sid w) →
  outputOf c (broadcastSSE sid message w)
  = if decide (c ∈ clientsOf sid w ∧ c ∉ brokenClients w)
    then outputOf c w ++ [ChunkEvent (strOr (msg_event message) "new-item");
                          ChunkData (msg_data message)]
    else outputOf c w.
Proof. intros Hnodup. by apply fold_sendEvent_output. Qed.

Lemma broadcastSSE_delivers_witness :
  let w := (openEvents "s" (freshWorld None)).2 in
  outputOf 0 (broadcastSSE "s" (SseMessage None (PayloadConnected "x")) w)
  = outputOf 0 w ++ [ChunkEvent "new-item"; ChunkData (PayloadConnected "x")].
Proof.
  cbn zeta.
  rewrite (broadcastSSE_delivers "s" (SseMessage None (PayloadConnected "x"))
             (openEvents "s" (freshWorld None)).2 0).
  - reflexivity.
  - vm_compute. apply NoDup_cons. split; [apply not_elem_of_nil|apply NoDup_nil_2].
Defined.

Lemma create_broadcast sid rq w it w' :
  create sid rq w = (RespCreated sid it, w') →
  ∃ wl, w' = broadcastSSE sid (newItemEvent it) wl ∧
        sseClientsBySession wl = sseClientsBySession w ∧
        brokenClients wl = brokenClients w ∧
        clientOutput wl = clientOutput w.
Proof.
  pose proof (loadBoardItems_outside sid w) as (_ & _ & Hsse & Hout & Hbr & _).
  destruct rq as [id body|id body|id body|id body|id body|id taskId body
                 |id rx ry body];
    unfold create, post_todos, post_agents, post_lab_results, post_ehr_data,
      post_doctor_notes, post_enhanced_todo, post_board_items,
      appendAndBroadcast, pushItem;
    destruct (loadBoardItems sid w) as [[items aliased] wl];
    cbn [snd] in *;
    repeat (case_match; simplify_eq/=); intros Hc; simplify_eq/=.
  all: eexists; split; [reflexivity|].
  all: match goal with
       | |- context [saveBoardItems ?s ?e ?wl'] =>
           destruct (saveBoardItems_outside s e wl')
             as (_ & _ & Hs1 & Hs2 & Hs3 & _);
           rewrite Hs1, Hs2, Hs3; done
       end.
Qed.

(** X10: the item a creation handler answers with is the item it
    announces: every connection of the session on which a write does not
    throw receives one [new-item] event carrying that very item, marked as
    created, and no other connection receives anything. *)
Theorem create_notifies_session
    (sid : string) (rq : createRequest) (w w' : world) (it : item) (c : nat) :
  NoDup (clientsOf sid w) →
  create sid rq w = (RespCreated sid it, w') →
  outputOf c w'
  = if decide (c ∈ clientsOf sid w ∧ c ∉ brokenClients w)
    then outputOf c w ++ [ChunkEvent "new-item";
                          ChunkData (PayloadNewItem it "created")]
    else outputOf c w.
Proof.
  intros Hnodup Hc.
  destruct (create_broadcast sid rq w it w' Hc)
    as (wl & -> & Hsse & Hbroken & Hout).
  unfold broadcastSSE.
  rewrite fold_sendEvent_output.
  - unfold clientsOf, outputOf. by rewrite Hsse, Hbroken, Hout.
  - unfold clientsOf in Hnodup. by rewrite Hsse.
Qed.

Lemma create_notifies_session_witness :
  let body := TodosBody (Some "Plan") None (Some [TodoString "call"]) None None in
  let w := (openEvents "s" (freshWorld None)).2 in
  ∃ it w',
    create "s" (PostTodos "item-1" body) w = (RespCreated "s" it, w') ∧
    outputOf 0 w'
    = outputOf 0 w ++ [ChunkEvent "new-item";
                       ChunkData (PayloadNewItem it "created")].
Proof.
  cbn zeta. eexists _, _. split; [vm_compute; reflexivity|].
  etrans.
  - eapply (create_notifies_session "s"
              (PostTodos "item-1"
                 (TodosBody (Some "Plan") None (Some [TodoString "call"])
                            None None))
              (openEvents "s" (freshWorld None)).2).
    + vm_compute. apply NoDup_cons.
      split; [apply not_elem_of_nil|apply NoDup_nil_2].
    + vm_compute. reflexivity.
  - reflexivity.
Defined.

(** X11: a focus request needs a target, [itemId] before [objectId]: it
    is refused with status 400 without changing anything when neither is
    truthy; otherwise the [focus] event for that target reaches every
    connection of the session on which a write does not throw and no
    other, while the items and the locks stay as they are. *)
Theorem post_focus_broadcasts
    (sid : string) (body : focusBody) (w : world) (c : nat) :
  NoDup (clientsOf sid w) →
  match post_focus sid body w with
  | (FocusError status _, w') =>
      status = 400 ∧ w' = w ∧
      truthyStr (focus_itemId body) = false ∧
      truthyStr (focus_objectId body) = false
  | (FocusOk sid' target subElement _, w') =>
      sid' = sid ∧
      Some target = firstTruthy [focus_itemId body; focus_objectId body] ∧
      (∀ s, currentItems s w' = currentItems s w) ∧
      sessionLocks w' = sessionLocks w ∧
      outputOf c w'
      = if decide (c ∈ clientsOf sid w ∧ c ∉ brokenClients w)
        then outputOf c w ++ [ChunkEvent "focus";
                              ChunkData (PayloadFocus target subElement)]
        else outputOf c w
  end.
Proof.
  intros Hnodup. unfold post_focus, orElse. cbn [firstTruthy].
  destruct (truthyStr (focus_itemId body)) eqn:Hitem.
  - rewrite Hitem. split; [done|]. split.
    { destruct (focus_itemId body); [done|discriminate Hitem]. }
    split; [intros s; apply currentItems_broadcastSSE|].
    split; [apply broadcastSSE_frame|].
    unfold broadcastSSE. by rewrite fold_sendEvent_output.
  - destruct (truthyStr (focus_objectId body)) eqn:Hobject; [|done].
    split; [done|]. split.
    { destruct (focus_objectId body); [done|discriminate Hobject]. }
    split; [intros s; apply currentItems_broadcastSSE|].
    split; [apply broadcastSSE_frame|].
    unfold broadcastSSE. by rewrite fold_sendEvent_output.
Qed.

Lemma post_focus_broadcasts_witness :
  let w := (openEvents "s" (freshWorld None)).2 in
  let body := FocusBody (Some "a") (Some "b") None None in
  outputOf 0 (post_focus "s" body w).2
  = outputOf 0 w ++ [ChunkEvent "focus"; ChunkData (PayloadFocus "b" None)].
Proof.
  cbn zeta.
  pose proof (post_focus_broadcasts "s"
                (FocusBody (Some "a") (Some "b") None None)
                (openEvents "s" (freshWorld None)).2 0) as Hfocus.
  destruct (post_focus "s" (FocusBody (Some "a") (Some "b") None None)
              (openEvents "s" (freshWorld None)).2)
    as [[sid' target subElement options|status error] w'] eqn:Hpost;
    vm_compute in Hpost; [|discriminate Hpost].
  injection Hpost as <- <- <- <- <-.
  destruct Hfocus as (_ & _ & _ & _ & Hout).
  - vm_compute. apply NoDup_cons.
    split; [apply not_elem_of_nil|apply NoDup_nil_2].
  - cbn [snd]. rewrite Hout. reflexivity.
Defined.

Lemma clientsOf_closeEvents_eq sid res w s :
  clientsOf s (closeEvents sid res w)
  = if decide (s = sid) then filter (fun c => c ≠ res) (clientsOf sid w)
    else clientsOf s w.
Proof.
  unfold closeEvents, clientsOf.
  destruct (sseClientsBySession w !! sid) as [clients|] eqn:Hsid.
  - case_decide as Hs.
    + subst s. cbn [default].
      destruct (filter (fun c => c ≠ res) clients) as [|c0 rest] eqn:Hf;
        cbn [sseClientsBySession set_sseClientsBySession].
      * by rewrite lookup_delete_eq.
      * by rewrite lookup_insert_eq.
    + destruct (filter (fun c => c ≠ res) clients);
        cbn [sseClientsBySession set_sseClientsBySession];
        by rewrite ?lookup_delete_ne, ?lookup_insert_ne.
  - case_decide as Hs; [|done]. subst s. by rewrite Hsid.
Qed.

Lemma filter_ne_fresh (res : nat) (clients : list nat) :
  res ∉ clients → filter (fun c => c ≠ res) clients = clients.
Proof.
  induction clients as [|c clients IH]; [done|].
  intros [Hne Hnotin]%not_elem_of_cons.
  rewrite filter_cons_True by done. by rewrite IH.
Qed.

Lemma clientOutput_closeEvents sid res w :
  clientOutput (closeEvents sid res w) = clientOutput w.
Proof. unfold closeEvents. by repeat case_match. Qed.

(** X12: opening an event stream, on a connection that takes the writes,
    registers the new connection at the end of those of the session and
    of no other session, greets it with the [connected] event carrying the
    session id, and replays nothing of what was announced before; nothing
    is written on the other connections; closing it leaves every session
    with the connections it had. *)
Theorem events_open_then_close (sid : string) (w : world) :
  registryOk w →
  nextClient w ∉ brokenClients w →
  let res := (openEvents sid w).1 in
  let w1 := (openEvents sid w).2 in
  let w2 := closeEvents sid res w1 in
  res = nextClient w ∧
  clientsOf sid w1 = clientsOf sid w ++ [res] ∧
  (∀ s, s ≠ sid → clientsOf s w1 = clientsOf s w) ∧
  outputOf res w1
  = outputOf res w ++ [ChunkEvent "connected";
                       ChunkData (PayloadConnected sid)] ∧
  (∀ c, c ≠ res → outputOf c w1 = outputOf c w) ∧
  (∀ s, clientsOf s w2 = clientsOf s w) ∧
  (∀ c, outputOf c w2 = outputOf c w1).
Proof.
  intros [_ Hbound] Hok. cbn zeta.
  assert ((openEvents sid w).1 = nextClient w) as Hres by done.
  rewrite Hres.
  assert (∀ c, outputOf c (openEvents sid w).2
               = outputOf c (sendEvent "connected" (PayloadConnected sid)
                               (set_nextClient (S (nextClient w)) w)
                               (nextClient w))) as Hout by done.
  split; [done|]. split.
  { rewrite clientsOf_openEvents. by case_decide. }
  split.
  { intros s Hs. rewrite clientsOf_openEvents. by case_decide. }
  split.
  { rewrite Hout, sendEvent_output.
    cbn [brokenClients set_nextClient]. by case_decide. }
  split.
  { intros c Hc. rewrite Hout. unfold outputOf.
    by rewrite sendEvent_output_other. }
  split.
  - intros s. rewrite clientsOf_closeEvents_eq, !clientsOf_openEvents.
    case_decide as Hs; [subst s|done].
    case_decide; [|done].
    rewrite filter_app, filter_ne_fresh.
    + rewrite filter_cons_False, filter_nil by (intros Hne; by apply Hne).
      by rewrite app_nil_r.
    + intros Hin%Hbound. lia.
  - intros c. unfold outputOf. by rewrite clientOutput_closeEvents.
Qed.

Lemma events_open_then_close_witness :
  let w := (openEvents "s" (freshWorld None)).2 in
  clientsOf "s" (openEvents "s" w).2 = [0%nat; 1%nat] ∧
  clientsOf "s" (closeEvents "s" 1 (openEvents "s" w).2) = [0%nat].
Proof.
  cbn zeta.
  destruct (events_open_then_close "s" (openEvents "s" (freshWorld None)).2)
    as (_ & Hopen & _ & _ & _ & Hclose & _).
  - apply registryOk_openEvents, registryOk_fresh.
  - intros Hin. vm_compute in Hin. discriminate Hin.
  - split.
    + rewrite Hopen. reflexivity.
    + apply (Hclose "s").
Defined.

(** ** Session resolver *)


(** ** Updates and deletions *)

Lemma saveToMemory_noFaults sid items w :
  redisFaults (saveToMemory sid items w) = redisFaults w.
Proof. done. Qed.

(** X14: as long as Redis does not fail, an update answers 404 when no
    item of the session has the identifier and then changes nothing the
    session reads; otherwise the first item with the identifier, and only
    this one, is replaced by its merge with the request, at its place, and
    that merged item is the answer. An update announces nothing and does
    not touch the lock. *)
Theorem put_board_item_updates
    (sid id : string) (updates : itemPatch) (w : world) :
  redisFaults w = [] →
  let items := currentItems sid w in
  let w' := (put_board_item sid id updates w).2 in
  match (put_board_item sid id updates w).1 with
  | PutError status _ =>
      status = 404 ∧ (id ∉ item_id <$> items) ∧ currentItems sid w' = items
  | PutOk sid' merged =>
      sid' = sid ∧
      ∃ i it,
        items !! i = Some it ∧ item_id it = id ∧
        (∀ j it', items !! j = Some it' → (j < i)%nat → item_id it' ≠ id) ∧
        merged = applyPatch it updates ∧
        currentItems sid w' = <[i := merged]> items
  end ∧
  clientOutput w' = clientOutput w ∧
  sessionLocks w' = sessionLocks w.
Proof.
  intros Hf. cbn zeta. unfold put_board_item, findIndexById.
  pose proof (loadBoardItems_noFaults sid w Hf) as Hf1.
  pose proof (currentItems_loadBoardItems sid w Hf) as Hsame.
  pose proof (loadBoardItems_outside sid w) as (_ & _ & _ & Hout & _ & _ & Hl).
  unfold currentItems at 2 in Hsame.
  pose proof (eq_refl (currentItems sid w)) as Hcur.
  unfold currentItems at 2 in Hcur.
  destruct (loadBoardItems sid w) as [[items aliased] w1]. cbn [fst snd] in *.
  rewrite !Hcur. clear Hcur.
  destruct (list_find (fun it => item_id it = id) items) as [[i it]|] eqn:Hfind;
    cbn [fst snd].
  - apply list_find_Some in Hfind as (Hi & Hid & Hfirst).
    set (items' := <[i := applyPatch it updates]> items).
    set (w2 := if aliased then saveToMemory sid items' w1 else w1).
    assert (redisFaults w2 = []) as Hf2 by (unfold w2; by destruct aliased).
    assert (clientOutput w2 = clientOutput w ∧ sessionLocks w2 = sessionLocks w)
      as [Hout2 Hl2] by (unfold w2; by destruct aliased).
    destruct (saveBoardItems_outside sid items' w2)
      as (_ & _ & _ & Hout3 & _ & _ & Hl3).
    split; [|split; congruence].
    split; [done|]. exists i, it.
    repeat split; try done.
    by apply currentItems_saveBoardItems.
  - apply list_find_None in Hfind.
    split; [|by split]. split; [done|]. split; [|done].
    intros (it & Hid & Hin)%list_elem_of_fmap.
    rewrite Forall_forall in Hfind. by apply (Hfind it).
Qed.

Lemma put_board_item_updates_witness :
  let stored := plainItem "a" "text" 10 20 200 (HNum 100) in
  let w := freshWorld (Some [stored]) in
  let updates :=
    ItemPatch None None (Some 50) None None None None None None None in
  ∃ i it,
    currentItems "s" w !! i = Some it ∧
    currentItems "s" (put_board_item "s" "a" updates w).2
    = <[i := applyPatch it updates]> (currentItems "s" w).
Proof.
  cbn zeta.
  pose proof (put_board_item_updates "s" "a"
                (ItemPatch None None (Some 50) None None None None None None
                           None)
                (freshWorld (Some [plainItem "a" "text" 10 20 200 (HNum 100)]))
                eq_refl) as Hput.
  cbn zeta in Hput.
  destruct (put_board_item "s" "a"
              (ItemPatch None None (Some 50) None None None None None None
                         None)
              (freshWorld (Some [plainItem "a" "text" 10 20 200 (HNum 100)])))
    as [[sid' merged|status error] w'] eqn:Hrun;
    vm_compute in Hrun; [|discriminate Hrun].
  cbn [fst snd] in *.
  destruct Hput as ((_ & i & it & Hi & _ & _ & -> & Hitems) & _).
  by exists i, it.
Defined.

Lemma currentItems_absent sid w :
  redisFaults w = [] →
  isRedisConnected w = false ∨ redisStore w !! redisKey sid = None →
  inMemorySessions w !! sid = None →
  currentItems sid w = loadStaticItems w.
Proof. intros Hf [Hr|Hr] Hm; store_cases. Qed.

Lemma currentItems_same sid w w' :
  sameSession sid w w' → redisFaults w' = redisFaults w →
  currentItems sid w' = currentItems sid w.
Proof.
  intros Hsame Hf.
  rewrite <- (set_redisFaults_same w'), <- (set_redisFaults_same w), Hf.
  by apply currentItems_sameSession.
Qed.

Lemma delete_session_fields sid w :
  redisFaults w = [] →
  let w' := delete_session sid w in
  redisFaults w' = [] ∧
  isRedisConnected w' = isRedisConnected w ∧
  staticFile w' = staticFile w ∧
  redisStore w'
  = (if isRedisConnected w then delete (redisKey sid) (redisStore w)
     else redisStore w) ∧
  inMemorySessions w' = delete sid (inMemorySessions w) ∧
  sseClientsBySession w' = delete sid (sseClientsBySession w) ∧
  clientOutput w' = clientOutput w ∧
  sessionLocks w' = sessionLocks w.
Proof.
  intros Hf. unfold delete_session, redisDel, redisCall. rewrite Hf.
  destruct (isRedisConnected w) eqn:Hc; simpl; rewrite ?Hc; by repeat split.
Qed.

(** X15: as long as Redis does not fail, deleting a session forgets its
    items, so that it reads the template again, and forgets its
    connections, so that nothing more is sent to them; the items and the
    connections of every other session stay, as do the locks and what was
    written. *)
Theorem delete_session_forgets (sid : string) (w : world) :
  redisFaults w = [] →
  let w' := delete_session sid w in
  currentItems sid w' = loadStaticItems w ∧
  clientsOf sid w' = [] ∧
  (∀ message, clientOutput (broadcastSSE sid message w') = clientOutput w) ∧
  (∀ s, s ≠ sid →
        currentItems s w' = currentItems s w ∧
        clientsOf s w' = clientsOf s w) ∧
  sessionLocks w' = sessionLocks w.
Proof.
  intros Hf. cbn zeta.
  destruct (delete_session_fields sid w Hf)
    as (Hf' & Hc & Hs & Hr & Hm & Hsse & Hout & Hl).
  assert (clientsOf sid (delete_session sid w) = []) as Hclients.
  { unfold clientsOf. by rewrite Hsse, lookup_delete_eq. }
  split; [|split; [done|split; [|split]]].
  - rewrite currentItems_absent; try done.
    + unfold loadStaticItems. by rewrite Hs.
    + rewrite Hc, Hr. destruct (isRedisConnected w); [right|by left].
      by rewrite lookup_delete_eq.
    + by rewrite Hm, lookup_delete_eq.
  - intros message. unfold broadcastSSE.
    unfold clientsOf in Hclients. by rewrite Hclients.
  - intros s Hs'. split.
    + apply currentItems_same; [|congruence].
      assert (redisKey s ≠ redisKey sid) as Hkey
        by (intros ?%redisKey_inj; done).
      repeat split; try done.
      * rewrite Hr. destruct (isRedisConnected w); [|done].
        by rewrite lookup_delete_ne.
      * by rewrite Hm, lookup_delete_ne.
    + unfold clientsOf. by rewrite Hsse, lookup_delete_ne.
  - done.
Qed.

Lemma delete_session_forgets_witness :
  let stored := plainItem "a" "text" 10 20 200 (HNum 100) in
  let w := (create "s" (PostBoardItems "b" 1 2
                          (BoardItemBody (Some "text") None None None None
                                         None))
                   (freshWorld (Some [stored]))).2 in
  length (currentItems "s" w) = 2%nat ∧
  currentItems "s" (delete_session "s" w) = [stored].
Proof.
  cbn zeta. split; [vm_compute; reflexivity|].
  destruct (delete_session_forgets "s"
              (create "s" (PostBoardItems "b" 1 2
                             (BoardItemBody (Some "text") None None None None
                                            None))
                      (freshWorld
                         (Some [plainItem "a" "text" 10 20 200 (HNum 100)]))).2)
    as (Hitems & _); [vm_compute; reflexivity|].
  rewrite Hitems. vm_compute. reflexivity.
Defined.

(** ** The lock-guarded requests, served alone *)

Lemma handlerStep_output sid rq thr p w :
  clientOutput (handlerStep sid rq thr p w).2 = clientOutput w.
Proof.
  destruct p as [| |items|answer|answer]; cbn [handlerStep].
  - unfold tryAcquireLock. repeat (case_match; simplify_eq/=); done.
  - destruct rq as [id|ids|items]; case_decide; cbn [snd caught]; try done.
    + pose proof (loadBoardItems_outside sid w) as (_ & _ & _ & ? & _).
      by destruct (loadBoardItems sid w) as [[? ?] ?].
    + pose proof (loadBoardItems_outside sid w) as (_ & _ & _ & ? & _).
      by destruct (loadBoardItems sid w) as [[? ?] ?].
    + apply saveBoardItems_outside.
  - destruct (keepItems rq items); cbn [snd]; [|done].
    case_decide; cbn [snd caught]; [done|]. apply saveBoardItems_outside.
  - by case_decide.
  - done.
Qed.

Lemma runHandler_output fuel sid rq thr p w :
  clientOutput (runHandler fuel sid rq thr p w).2 = clientOutput w.
Proof.
  revert p w. induction fuel as [|fuel IH]; intros p w; [done|].
  cbn [runHandler].
  pose proof (handlerStep_output sid rq thr p w) as Hstep.
  destruct (handlerStep sid rq thr p w) as [p1 w1]. cbn [snd] in Hstep.
  by rewrite IH.
Qed.

Lemma filter_all {A} (P : A → Prop) `{!∀ x, Decision (P x)} (l : list A) :
  (∀ x, x ∈ l → P x) → filter P l = l.
Proof.
  induction l as [|x l IH]; intros HP; [done|].
  rewrite filter_cons_True by (apply HP, list_elem_of_here).
  rewrite IH; [done|]. intros y Hy. by apply HP, list_elem_of_further.
Qed.

Lemma locked_request_alone sid rq w :
  redisFaults w = [] →
  sessionLocks w !! sid = None →
  rejected rq = None →
  (∀ items, rq ≠ SyncItems items) →
  let items := currentItems sid w in
  let served := runHandler 4 sid rq NoThrow AtStart w in
  match keepItems rq items with
  | None =>
      served.1 = Finished (RespError 404 "Board item not found") ∧
      currentItems sid served.2 = items
  | Some kept =>
      served.1 = Finished (successAnswer sid rq items kept) ∧
      currentItems sid served.2 = kept
  end ∧
  sessionLocks served.2 = sessionLocks w ∧
  redisFaults served.2 = [].
Proof.
  intros Hf Hfree Hok Hnosync. cbn zeta.
  rewrite (runHandler_alone sid rq w Hfree Hok Hnosync).
  pose proof (loadBoardItems_noFaults sid w Hf) as Hf1.
  pose proof (loadBoardItems_locks sid w) as Hl1.
  pose proof (currentItems_loadBoardItems sid w Hf) as Hsame.
  destruct (keepItems rq (currentItems sid w)) as [kept|]; cbn [fst snd].
  - unfold releaseLock.
    rewrite currentItems_set_sessionLocks, saveBoardItems_set_sessionLocks,
      currentItems_set_sessionLocks.
    split; [split; [done|by apply currentItems_saveBoardItems]|].
    cbn [sessionLocks set_sessionLocks redisFaults].
    split; [by rewrite delete_insert_eq, delete_id|].
    by apply saveBoardItems_noFaults.
  - unfold releaseLock. rewrite !currentItems_set_sessionLocks.
    split; [done|].
    cbn [sessionLocks set_sessionLocks redisFaults].
    split; [by rewrite delete_insert_eq, delete_id|done].
Qed.

(** X16: as long as Redis does not fail, deleting an item of a session
    whose lock is free answers 404 and leaves the items as they are when
    no item has the identifier, and otherwise removes every item that has
    it, keeping the others in their order; either way the lock is free
    again afterwards and no connection is told. *)
Theorem delete_item_alone (sid id : string) (w : world) :
  redisFaults w = [] →
  sessionLocks w !! sid = None →
  let items := currentItems sid w in
  let served := runHandler 4 sid (DeleteItem id) NoThrow AtStart w in
  (if decide (id ∈ item_id <$> items)
   then served.1 = Finished (RespDeleted sid) ∧
        currentItems sid served.2 = filter (fun it => item_id it ≠ id) items
   else served.1 = Finished (RespError 404 "Board item not found") ∧
        currentItems sid served.2 = items) ∧
  (id ∉ item_id <$> currentItems sid served.2) ∧
  sessionLocks served.2 = sessionLocks w ∧
  clientOutput served.2 = clientOutput w.
Proof.
  intros Hf Hfree. cbn zeta.
  destruct (locked_request_alone sid (DeleteItem id) w Hf Hfree eq_refl)
    as (Hserved & Hlocks & _); [done|].
  assert (id ∉ item_id <$> filter (fun it => item_id it ≠ id)
                                  (currentItems sid w)) as Hgone.
  { intros (it & Hid & [Hne _]%list_elem_of_filter)%list_elem_of_fmap.
    by apply Hne. }
  split; [|split; [|split; [done|apply runHandler_output]]].
  - case_decide as Hin.
    + by rewrite (keepItems_delete_present id _ Hin) in Hserved.
    + assert (keepItems (DeleteItem id) (currentItems sid w) = None) as Hnone.
      { unfold keepItems.
        assert (filter (fun it => item_id it ≠ id) (currentItems sid w)
                = currentItems sid w) as ->; [|by rewrite Nat.eqb_refl].
        apply filter_all. intros it Hit Heq. apply Hin.
        apply list_elem_of_fmap. by exists it. }
      by rewrite Hnone in Hserved.
  - destruct (decide (id ∈ item_id <$> currentItems sid w)) as [Hin|Hin].
    + rewrite (keepItems_delete_present id _ Hin) in Hserved.
      destruct Hserved as [_ ->]. exact Hgone.
    + destruct (keepItems (DeleteItem id) (currentItems sid w)) as [kept|] eqn:Hk.
      * unfold keepItems in Hk. case_match; simplify_eq.
        destruct Hserved as [_ ->]. exact Hgone.
      * by destruct Hserved as [_ ->].
Qed.

Lemma delete_item_alone_witness :
  let w := freshWorld (Some [plainItem "a" "text" 1 2 3 (HNum 4);
                             plainItem "b" "text" 1 2 3 (HNum 4);
                             plainItem "a" "ehr" 5 6 7 (HNum 8)]) in
  currentItems "s" (runHandler 4 "s" (DeleteItem "a") NoThrow AtStart w).2
  = [plainItem "b" "text" 1 2 3 (HNum 4)].
Proof.
  cbn zeta.
  destruct (delete_item_alone "s" "a"
              (freshWorld (Some [plainItem "a" "text" 1 2 3 (HNum 4);
                                 plainItem "b" "text" 1 2 3 (HNum 4);
                                 plainItem "a" "ehr" 5 6 7 (HNum 8)])))
    as (Hserved & _); [reflexivity|reflexivity|].
  destruct (decide _) as [Hin|Hout] in Hserved.
  - destruct Hserved as [_ ->]. vm_compute. reflexivity.
  - exfalso. apply Hout. vm_compute. apply list_elem_of_here.
Defined.

(** X17: as long as Redis does not fail, a batch delete on a session whose
    lock is free keeps, in their order, the items whose identifier is not
    in the list, reports how many items went and how many stay, and never
    answers 404, identifiers that no item has being passed over; repeating
    it deletes nothing more. The lock is free again afterwards and no
    connection is told. *)
Theorem batch_delete_alone (sid : string) (itemIds : list string) (w : world) :
  redisFaults w = [] →
  sessionLocks w !! sid = None →
  let items := currentItems sid w in
  let kept := filter (fun it => item_id it ∉ itemIds) items in
  let served :=
    runHandler 4 sid (BatchDelete (Some itemIds)) NoThrow AtStart w in
  let again :=
    runHandler 4 sid (BatchDelete (Some itemIds)) NoThrow AtStart served.2 in
  served.1
  = Finished (RespBatchDeleted sid
                (Z.of_nat (length items) - Z.of_nat (length kept))
                (Z.of_nat (length kept))) ∧
  (length kept ≤ length items)%nat ∧
  currentItems sid served.2 = kept ∧
  (∀ id, id ∈ itemIds → id ∉ item_id <$> kept) ∧
  again.1 = Finished (RespBatchDeleted sid 0 (Z.of_nat (length kept))) ∧
  currentItems sid again.2 = kept ∧
  sessionLocks served.2 = sessionLocks w ∧
  clientOutput served.2 = clientOutput w.
Proof.
  intros Hf Hfree. cbn zeta.
  destruct (locked_request_alone sid (BatchDelete (Some itemIds)) w Hf Hfree
              eq_refl) as ((Hanswer & Hitems) & Hlocks & Hf'); [done|].
  cbn [keepItems successAnswer default] in *. unfold id in *.
  destruct (locked_request_alone sid (BatchDelete (Some itemIds))
              (runHandler 4 sid (BatchDelete (Some itemIds)) NoThrow AtStart w).2
              Hf') as ((Hanswer' & Hitems') & _); [by rewrite Hlocks|done|done|].
  cbn [keepItems successAnswer default] in *. unfold id in *.
  rewrite Hitems in Hanswer', Hitems'.
  assert (filter (fun it => item_id it ∉ itemIds)
            (filter (fun it => item_id it ∉ itemIds) (currentItems sid w))
          = filter (fun it => item_id it ∉ itemIds) (currentItems sid w))
    as Hidem.
  { apply filter_all. by intros it [? _]%list_elem_of_filter. }
  rewrite Hidem in Hanswer', Hitems'.
  split; [done|]. split; [apply length_filter|]. split; [done|].
  split.
  { intros id Hid (it & -> & [Hnot _]%list_elem_of_filter)%list_elem_of_fmap.
    by apply Hnot. }
  split; [by rewrite Hanswer', Z.sub_diag|]. split; [done|].
  split; [done|apply runHandler_output].
Qed.

Lemma batch_delete_alone_witness :
  let w := freshWorld (Some [plainItem "a" "text" 1 2 3 (HNum 4);
                             plainItem "b" "text" 1 2 3 (HNum 4)]) in
  (runHandler 4 "s" (BatchDelete (Some ["a"; "zz"])) NoThrow AtStart w).1
  = Finished (RespBatchDeleted "s" 1 1).
Proof.
  cbn zeta.
  destruct (batch_delete_alone "s" ["a"; "zz"]
              (freshWorld (Some [plainItem "a" "text" 1 2 3 (HNum 4);
                                 plainItem "b" "text" 1 2 3 (HNum 4)])))
    as (Hserved & _); [reflexivity|reflexivity|].
  rewrite Hserved. vm_compute. reflexivity.
Defined.

(** X18: as long as Redis does not fail, a sync on a session whose lock is
    free makes the items of the request the items of the session, whatever
    they were: the answer counts them, the next read returns them as they
    came, the lock is free again and no connection is told. *)
Theorem sync_replaces_items (sid : string) (items : list item) (w : world) :
  redisFaults w = [] →
  sessionLocks w !! sid = None →
  let served := runHandler 4 sid (SyncItems (Some items)) NoThrow AtStart w in
  served.1 = Finished (RespSynced sid (length items)) ∧
  currentItems sid served.2 = items ∧
  (get_board_items sid served.2).1 = RespItems sid items (length items) ∧
  sessionLocks served.2 = sessionLocks w ∧
  clientOutput served.2 = clientOutput w.
Proof.
  intros Hf Hfree. cbn zeta.
  assert (runHandler 4 sid (SyncItems (Some items)) NoThrow AtStart w
          = (Finished (RespSynced sid (length items)),
             releaseLock sid
               (saveBoardItems sid items
                  (set_sessionLocks (<[sid := true]> (sessionLocks w)) w))))
    as Hrun.
  { cbn [runHandler handlerStep rejected]. unfold tryAcquireLock.
    rewrite Hfree. cbn [handlerStep]. rewrite decide_False by done.
    cbn [handlerStep default successAnswer]. by rewrite decide_False by done. }
  assert (currentItems sid
            (runHandler 4 sid (SyncItems (Some items)) NoThrow AtStart w).2
          = items) as Hitems.
  { rewrite Hrun. cbn [snd]. unfold releaseLock.
    rewrite currentItems_set_sessionLocks.
    by apply currentItems_saveBoardItems. }
  split; [by rewrite Hrun|]. split; [done|]. split.
  { unfold get_board_items. unfold currentItems in Hitems.
    destruct (loadBoardItems sid _) as [[loaded aliased] w1].
    cbn [fst snd] in *. by subst loaded. }
  split; [|apply runHandler_output].
  rewrite Hrun. cbn [snd]. unfold releaseLock.
  rewrite saveBoardItems_set_sessionLocks.
  cbn [sessionLocks set_sessionLocks].
  by rewrite delete_insert_eq, delete_id.
Qed.

Lemma sync_replaces_items_witness :
  let w := freshWorld (Some [plainItem "a" "text" 1 2 3 (HNum 4)]) in
  currentItems "s"
    (runHandler 4 "s" (SyncItems (Some [])) NoThrow AtStart w).2 = [].
Proof.
  cbn zeta.
  apply (sync_replaces_items "s" []
           (freshWorld (Some [plainItem "a" "text" 1 2 3 (HNum 4)])));
    reflexivity.
Defined.

(** ** The lock *)

Lemma sendEvent_set_sessionLocks eventType data v w client :
  sendEvent eventType data (set_sessionLocks v w) client
  = set_sessionLocks v (sendEvent eventType data w client).
Proof.
  unfold sendEvent, clientWrite.
  cbn [brokenClients set_sessionLocks set_clientOutput clientOutput].
  destruct (decide (client ∈ brokenClients w)); [done|].
  cbn [brokenClients set_sessionLocks set_clientOutput clientOutput].
  by destruct (decide (client ∈ brokenClients w)).
Qed.

Lemma broadcastSSE_set_sessionLocks sid message v w :
  broadcastSSE sid message (set_sessionLocks v w)
  = set_sessionLocks v (broadcastSSE sid message w).
Proof.
  unfold broadcastSSE. cbn [sseClientsBySession set_sessionLocks].
  generalize (default [] (sseClientsBySession w !! sid)). intros clients.
  revert w. induction clients as [|client clients IH]; intros w; [done|].
  cbn [fold_left]. by rewrite sendEvent_set_sessionLocks, IH.
Qed.

Lemma create_set_sessionLocks sid rq v w :
  create sid rq (set_sessionLocks v w)
  = ((create sid rq w).1, set_sessionLocks v (create sid rq w).2).
Proof.
  destruct rq as [id body|id body|id body|id body|id body|id taskId body
                 |id rx ry body];
    unfold create, post_todos, post_agents, post_lab_results, post_ehr_data,
      post_doctor_notes, post_enhanced_todo, post_board_items,
      appendAndBroadcast, pushItem;
    rewrite loadBoardItems_set_sessionLocks;
    destruct (loadBoardItems sid w) as [[items aliased] wl];
    cbn [fst snd];
    repeat (case_match; simplify_eq/=);
    rewrite ?saveBoardItems_set_sessionLocks, ?broadcastSSE_set_sessionLocks;
    try done;
    match goal with
    | |- context [saveToMemory ?s ?l (set_sessionLocks ?v' ?w')] =>
        change (saveToMemory s l (set_sessionLocks v' w'))
          with (set_sessionLocks v' (saveToMemory s l w'));
        by rewrite ?saveBoardItems_set_sessionLocks,
             ?broadcastSSE_set_sessionLocks
    end.
Qed.

Lemma put_set_sessionLocks sid id updates v w :
  put_board_item sid id updates (set_sessionLocks v w)
  = ((put_board_item sid id updates w).1,
     set_sessionLocks v (put_board_item sid id updates w).2).
Proof.
  unfold put_board_item. rewrite loadBoardItems_set_sessionLocks.
  destruct (loadBoardItems sid w) as [[items aliased] wl]. cbn [fst snd].
  destruct (findIndexById id items) as [[i it]|]; [|done].
  destruct aliased; cbn [fst snd].
  - change (saveToMemory sid ?l (set_sessionLocks v wl))
      with (set_sessionLocks v (saveToMemory sid l wl)).
    by rewrite saveBoardItems_set_sessionLocks.
  - by rewrite saveBoardItems_set_sessionLocks.
Qed.

(** X19: while the lock of a session is held, a delete, a batch delete or
    a sync on it makes no progress and changes nothing, however long it is
    run, but for the request without its array, which is refused with
    status 400 before the lock is looked at. The creations and the update
    never look at the lock: they answer and act the same whoever holds
    it. *)
Theorem held_lock_stops_guarded_requests_only
    (sid : string) (rq : lockedRequest) (thr : throwPoint) (fuel : nat)
    (w : world) :
  sessionLocks w !! sid = Some true →
  runHandler (S fuel) sid rq thr AtStart w
  = (match rejected rq with
     | Some error => Finished (RespError 400 error)
     | None => AtStart
     end, w) ∧
  (∀ crq v,
     create sid crq (set_sessionLocks v w)
     = ((create sid crq w).1, set_sessionLocks v (create sid crq w).2)) ∧
  (∀ id updates v,
     put_board_item sid id updates (set_sessionLocks v w)
     = ((put_board_item sid id updates w).1,
        set_sessionLocks v (put_board_item sid id updates w).2)).
Proof.
  intros Hheld.
  split; [|split; [intros; apply create_set_sessionLocks
                  |intros; apply put_set_sessionLocks]].
  destruct (rejected rq) as [error|] eqn:Hrej.
  - cbn [runHandler handlerStep]. rewrite Hrej. apply runHandler_Finished.
  - induction fuel as [|fuel IH];
      cbn [runHandler handlerStep]; rewrite Hrej;
      unfold tryAcquireLock; rewrite Hheld; [done|].
    exact IH.
Qed.

Lemma held_lock_stops_guarded_requests_only_witness :
  let w := set_sessionLocks {[ "s" := true ]}
             (freshWorld (Some [plainItem "a" "text" 1 2 3 (HNum 4)])) in
  runHandler 9 "s" (DeleteItem "a") NoThrow AtStart w = (AtStart, w).
Proof.
  cbn zeta.
  apply (held_lock_stops_guarded_requests_only "s" (DeleteItem "a") NoThrow 8
           (set_sessionLocks {[ "s" := true ]}
              (freshWorld (Some [plainItem "a" "text" 1 2 3 (HNum 4)])))).
  reflexivity.
Defined.

(** ** Two lock-guarded requests served together *)













(** ** The store under Redis failures *)

(** X21: what a session reads right after a save. It is the saved list
    when Redis is not connected, when no Redis call throws, and when only
    [expire] throws. When Redis is connected and [set] throws, the list
    goes to memory only, and the session reads the list Redis still holds
    for it, if any: the saved list is read only when Redis holds none. *)
Theorem save_then_load (sid : string) (items : list item) (w : world) :
  (isRedisConnected w = false ∨ redisFaults w = [] ∨
   redisFaults w = [false; true] →
   currentItems sid (saveBoardItems sid items w) = items) ∧
  (isRedisConnected w = true → redisFaults w = [true] →
   currentItems sid (saveBoardItems sid items w)
   = default items (redisStore w !! redisKey sid) ∧
   inMemorySessions (saveBoardItems sid items w) !! sid = Some items).
Proof.
  split.
  - intros [Hc|[Hf|Hf]].
    + store_cases; congruence.
    + by apply currentItems_saveBoardItems.
    + store_cases; congruence.
  - intros Hc Hf. split; store_cases; congruence.
Qed.

Lemma save_then_load_witness :
  let old := [plainItem "a" "text" 1 2 3 (HNum 4)] in
  let w := World true [true] {[ redisKey "s" := old ]} ∅ None ∅ ∅ ∅ 0 ∅ in
  currentItems "s" (saveBoardItems "s" [] w) = old.
Proof.
  cbn zeta.
  destruct (save_then_load "s" []
              (World true [true]
                 {[ redisKey "s" := [plainItem "a" "text" 1 2 3 (HNum 4)] ]}
                 ∅ None ∅ ∅ ∅ 0 ∅)) as [_ Hstale].
  destruct (Hstale eq_refl eq_refl) as [-> _]. vm_compute. reflexivity.
Defined.

(** ** Isolation of the other requests *)

Lemma runHandler_other fuel s1 s2 rq thr p w :
  s1 ≠ s2 → sameSession s2 w (runHandler fuel s1 rq thr p w).2.
Proof.
  intros Hne. revert p w. induction fuel as [|fuel IH]; intros p w.
  - apply sameSession_refl.
  - rewrite runHandler_S.
    eapply sameSession_trans; [by apply handlerStep_other|apply IH].
Qed.

Lemma handlerStep_registry sid rq thr p w :
  sseClientsBySession (handlerStep sid rq thr p w).2 = sseClientsBySession w.
Proof.
  destruct p as [| |items|answer|answer]; cbn [handlerStep].
  - unfold tryAcquireLock. repeat (case_match; simplify_eq/=); done.
  - destruct rq as [id|ids|items]; case_decide; cbn [snd caught]; try done.
    + pose proof (loadBoardItems_outside sid w) as (_ & _ & ? & _).
      by destruct (loadBoardItems sid w) as [[? ?] ?].
    + pose proof (loadBoardItems_outside sid w) as (_ & _ & ? & _).
      by destruct (loadBoardItems sid w) as [[? ?] ?].
    + apply saveBoardItems_outside.
  - destruct (keepItems rq items); cbn [snd]; [|done].
    case_decide; cbn [snd caught]; [done|]. apply saveBoardItems_outside.
  - by case_decide.
  - done.
Qed.

Lemma runHandler_registry fuel sid rq thr p w :
  sseClientsBySession (runHandler fuel sid rq thr p w).2
  = sseClientsBySession w.
Proof.
  revert p w. induction fuel as [|fuel IH]; intros p w; [done|].
  by rewrite runHandler_S, IH, handlerStep_registry.
Qed.

Lemma handlerStep_other_lock s1 s2 rq thr p w :
  s1 ≠ s2 →
  sessionLocks (handlerStep s1 rq thr p w).2 !! s2 = sessionLocks w !! s2.
Proof.
  intros Hne.
  destruct p as [| |items|answer|answer]; cbn [handlerStep].
  - unfold tryAcquireLock. repeat (case_match; simplify_eq/=); try done;
      by rewrite lookup_insert_ne.
  - destruct rq as [id|ids|items]; case_decide; cbn [snd caught releaseLock
      sessionLocks set_sessionLocks]; rewrite ?lookup_delete_ne by done;
      try done.
    + pose proof (loadBoardItems_locks s1 w) as Hl.
      destruct (loadBoardItems s1 w) as [[? ?] ?]. cbn [snd] in *.
      by rewrite Hl.
    + pose proof (loadBoardItems_locks s1 w) as Hl.
      destruct (loadBoardItems s1 w) as [[? ?] ?]. cbn [snd] in *.
      by rewrite Hl.
    + by rewrite saveBoardItems_locks.
  - destruct (keepItems rq items); cbn [snd releaseLock sessionLocks
      set_sessionLocks]; [|by rewrite lookup_delete_ne].
    case_decide; cbn [snd caught releaseLock sessionLocks set_sessionLocks];
      [by rewrite lookup_delete_ne|]. by rewrite saveBoardItems_locks.
  - case_decide; cbn [snd caught releaseLock sessionLocks set_sessionLocks];
      by rewrite ?lookup_delete_ne.
  - done.
Qed.

Lemma runHandler_other_lock fuel s1 s2 rq thr p w :
  s1 ≠ s2 →
  sessionLocks (runHandler fuel s1 rq thr p w).2 !! s2 = sessionLocks w !! s2.
Proof.
  intros Hne. revert p w. induction fuel as [|fuel IH]; intros p w; [done|].
  by rewrite runHandler_S, IH, handlerStep_other_lock.
Qed.

Lemma put_board_item_other s1 s2 id updates w :
  s1 ≠ s2 → sameSession s2 w (put_board_item s1 id updates w).2.
Proof.
  intros Hne. unfold put_board_item.
  pose proof (loadBoardItems_other s1 s2 w Hne) as Hload.
  destruct (loadBoardItems s1 w) as [[items aliased] w1]. cbn [snd] in *.
  destruct (findIndexById id items) as [[i it]|]; [|done]. cbn [snd].
  eapply sameSession_trans; [exact Hload|].
  eapply sameSession_trans; [|by apply saveBoardItems_other].
  destruct aliased; [|apply sameSession_refl].
  by apply saveToMemory_other.
Qed.

Lemma delete_session_other s1 s2 w :
  s1 ≠ s2 → sameSession s2 w (delete_session s1 w).
Proof.
  intros Hne.
  assert (redisKey s2 ≠ redisKey s1) as Hkey
    by (intros ?%redisKey_inj; done).
  unfold delete_session, redisDel, redisCall.
  repeat (case_match; simplify_eq/=); repeat split; simpl;
    rewrite ?lookup_delete_ne; done.
Qed.

(** X22: whatever Redis does, a delete, a batch delete, a sync, an update
    or the deletion of a session, at any point of its run, changes nothing
    of what another session reads from then on, nor the connections or the
    lock of that session. *)
Theorem other_requests_are_isolated
    (s1 s2 : string) (rq : lockedRequest) (thr : throwPoint) (p : phase)
    (fuel : nat) (id : string) (updates : itemPatch) (w : world) :
  s1 ≠ s2 →
  let ran := (runHandler fuel s1 rq thr p w).2 in
  let put := (put_board_item s1 id updates w).2 in
  let gone := delete_session s1 w in
  (∀ faults,
     currentItems s2 (set_redisFaults faults ran)
     = currentItems s2 (set_redisFaults faults w) ∧
     currentItems s2 (set_redisFaults faults put)
     = currentItems s2 (set_redisFaults faults w) ∧
     currentItems s2 (set_redisFaults faults gone)
     = currentItems s2 (set_redisFaults faults w)) ∧
  clientsOf s2 ran = clientsOf s2 w ∧
  clientsOf s2 put = clientsOf s2 w ∧
  clientsOf s2 gone = clientsOf s2 w ∧
  sessionLocks ran !! s2 = sessionLocks w !! s2.
Proof.
  intros Hne. cbn zeta.
  split; [intros faults; split; [|split]|].
  - by apply currentItems_sameSession, runHandler_other.
  - by apply currentItems_sameSession, put_board_item_other.
  - by apply currentItems_sameSession, delete_session_other.
  - split; [unfold clientsOf; by rewrite runHandler_registry|].
    split.
    { unfold clientsOf, put_board_item.
      pose proof (loadBoardItems_outside s1 w) as (_ & _ & Hsse & _).
      destruct (loadBoardItems s1 w) as [[items aliased] w1]. cbn [snd] in *.
      destruct (findIndexById id items) as [[i it]|]; cbn [snd];
        [|by rewrite Hsse].
      destruct (saveBoardItems_outside s1
                  (<[i := applyPatch it updates]> items)
                  (if aliased
                   then saveToMemory s1 (<[i := applyPatch it updates]> items)
                                     w1
                   else w1)) as (_ & _ & -> & _).
      destruct aliased; by rewrite <- Hsse. }
    split; [|by apply runHandler_other_lock].
    unfold clientsOf, delete_session.
    cbn [sseClientsBySession set_sseClientsBySession set_inMemorySessions].
    rewrite lookup_delete_ne by done.
    unfold redisDel, redisCall. by repeat (case_match; simplify_eq/=).
Qed.

Lemma other_requests_are_isolated_witness :
  let w := freshWorld (Some [plainItem "a" "text" 1 2 3 (HNum 4)]) in
  currentItems "t" (runHandler 4 "s" (DeleteItem "a") NoThrow AtStart w).2
  = currentItems "t" w.
Proof.
  cbn zeta.
  destruct (other_requests_are_isolated "s" "t" (DeleteItem "a") NoThrow
              AtStart 4 "a"
              (ItemPatch None None None None None None None None None None)
              (freshWorld (Some [plainItem "a" "text" 1 2 3 (HNum 4)])))
    as [Hread _]; [done|].
  destruct (Hread []) as [Hran _]. exact Hran.
Defined.

(** ** Todo lists *)

Lemma lowerAscii_idemp c : lowerAscii (lowerAscii c) = lowerAscii c.
Proof.
  destruct c as [[] [] [] [] [] [] [] []]; vm_compute; reflexivity.
Qed.

Lemma toLowerCase_idemp s : toLowerCase (toLowerCase s) = toLowerCase s.
Proof.
  induction s as [|c s IH]; [done|].
  cbn [toLowerCase]. by rewrite lowerAscii_idemp, IH.
Qed.

(** X23: the status a todo of [POST /api/todos] is stored with is one of
    [todo], [in_progress] and [done]: the status of the request in lower
    case when that is one of the three, [todo] otherwise and for a todo
    given as a bare string; normalising a second time changes nothing, and
    the text of the todo is kept. *)
Theorem normalizeStatus_range (s : option string) (t : todoInput) :
  normalizeStatus s ∈ ["todo"; "in_progress"; "done"] ∧
  normalizeStatus (Some (normalizeStatus s)) = normalizeStatus s ∧
  (toLowerCase (strOr s EmptyString) ∈ ["todo"; "in_progress"; "done"] →
   normalizeStatus s = toLowerCase (strOr s EmptyString)) ∧
  todo_status (normalizeTodo t) ∈ ["todo"; "in_progress"; "done"] ∧
  todo_text (normalizeTodo t)
  = match t with
    | TodoString text | TodoObject text _ => text
    | TodoOther shown => shown
    end.
Proof.
  assert (∀ s', normalizeStatus s' ∈ ["todo"; "in_progress"; "done"])
    as Hrange.
  { intros s'. unfold normalizeStatus.
    destruct (String.eqb_spec (toLowerCase (strOr s' EmptyString)) "todo")
      as [->|_]; [set_solver|].
    destruct (String.eqb_spec (toLowerCase (strOr s' EmptyString))
                              "in_progress") as [->|_]; [set_solver|].
    destruct (String.eqb_spec (toLowerCase (strOr s' EmptyString)) "done")
      as [->|_]; set_solver. }
  split; [apply Hrange|]. split.
  { specialize (Hrange s).
    rewrite !elem_of_cons, elem_of_nil in Hrange.
    destruct Hrange as [->|[->|[->|[]]]]; reflexivity. }
  split.
  { unfold normalizeStatus. rewrite !elem_of_cons, elem_of_nil.
    intros [->|[->|[->|[]]]]; reflexivity. }
  split; [|by destruct t].
  destruct t; cbn [normalizeTodo todo_status]; [set_solver|apply Hrange|
                                                 set_solver].
Qed.

Lemma validateSubTodos_spec subs :
  validateSubTodos subs
  = (if forallb validSubTodoInput subs
     then inr (map acceptedSubTodo subs)
     else match validateSubTodos subs with
          | inl error => inl error
          | inr _ => inl EmptyString
          end) ∧
  (forallb validSubTodoInput subs = false →
   ∃ error, validateSubTodos subs = inl error).
Proof.
  induction subs as [|sub subs [IH IHfail]]; [done|].
  cbn [validateSubTodos forallb map]. unfold validSubTodoInput at 1 3.
  destruct (truthyStr (subin_text sub) && truthyStr (subin_status sub));
    cbn [negb andb]; [|by eauto].
  destruct (validTaskStatus (textOf (subin_status sub)));
    cbn [negb andb]; [|by eauto].
  destruct (forallb validSubTodoInput subs).
  - rewrite IH. split; [done|]. discriminate.
  - destruct (IHfail eq_refl) as [error ->]. by eauto.
Qed.

Lemma validateTodos_spec taskId i todos :
  match validateTodos taskId i todos with
  | inr entries =>
      forallb validTodoInput todos = true ∧
      entries = imap (fun k todo => acceptedTodo (taskId (i + k)%nat) todo) todos
  | inl _ => forallb validTodoInput todos = false
  end.
Proof.
  revert i. induction todos as [|todo todos IH]; intros i; [done|].
  cbn [validateTodos forallb imap].
  destruct (truthyStr (etodo_text todo) && truthyStr (etodo_status todo) &&
            truthyStr (etodo_agent todo)) eqn:Hfields;
    cbn [negb andb];
    [|unfold validTodoInput; by rewrite Hfields].
  destruct (validTaskStatus (textOf (etodo_status todo))) eqn:Hstatus;
    cbn [negb andb];
    [|unfold validTodoInput; by rewrite Hfields, Hstatus].
  assert (match etodo_subTodos todo with
          | Some subs =>
              match validateSubTodos subs with
              | inl error => inl error
              | inr subs' => inr (Some subs')
              end
          | None => inr None
          end
          = if forallb validSubTodoInput (default [] (etodo_subTodos todo))
            then inr (map acceptedSubTodo <$> etodo_subTodos todo)
            else match etodo_subTodos todo with
                 | Some subs =>
                     match validateSubTodos subs with
                     | inl error => inl error
                     | inr _ => inl EmptyString
                     end
                 | None => inl EmptyString
                 end) as ->.
  { destruct (etodo_subTodos todo) as [subs|]; [|done]. simpl.
    destruct (validateSubTodos_spec subs) as [Hspec Hfail].
    destruct (forallb validSubTodoInput subs) eqn:Hall.
    - by rewrite Hspec.
    - by destruct (Hfail eq_refl) as [error ->]. }
  destruct (forallb validSubTodoInput (default [] (etodo_subTodos todo)))
    eqn:Hsubs.
  - assert (validTodoInput todo = true) as ->
      by (unfold validTodoInput; by rewrite Hfields, Hstatus, Hsubs).
    specialize (IH (S i)).
    destruct (validateTodos taskId (S i) todos) as [error|rest]; [done|].
    destruct IH as [-> ->]. split; [done|].
    rewrite Nat.add_0_r. unfold acceptedTodo at 1. f_equal.
    apply imap_ext. intros k todo' _. cbn. by rewrite Nat.add_succ_r.
  - assert (validTodoInput todo = false) as ->
      by (unfold validTodoInput; by rewrite Hfields, Hstatus, Hsubs).
    destruct (etodo_subTodos todo) as [subs|]; [|done].
    cbn [default] in Hsubs.
    destruct (validateSubTodos_spec subs) as [_ Hfail].
    by destruct (Hfail Hsubs) as [error ->].
Qed.

(** X24: the validation of [POST /api/enhanced-todo] accepts a list of
    todos exactly when every todo has a text, a status among [pending],
    [executing] and [finished], and an agent, and every sub-todo a text
    and such a status; it then keeps the todos one for one and in order,
    each with its identifier if it has one and else with the identifier
    generated for its index. The handler stores these todos with the item
    it creates, and refuses the request with status 400, changing
    nothing, when the list is not accepted. *)
Theorem validateTodos_accepts
    (taskId : nat → string) (i : nat) (todos : list enhancedTodoInput)
    (sid id : string) (body : enhancedTodoBody) (w : world) :
  let accepted k todo := acceptedTodo (taskId (i + k)%nat) todo in
  match validateTodos taskId i todos with
  | inr entries =>
      forallb validTodoInput todos = true ∧ entries = imap accepted todos
  | inl _ => forallb validTodoInput todos = false
  end ∧
  (etb_todos body = Some todos →
   match post_enhanced_todo sid id taskId body w with
   | (RespCreated _ it, _) =>
       forallb validTodoInput todos = true ∧
       item_todoData it
       = Some (TodoData (textOf (etb_title body))
                        (Some (strOr (etb_description body) EmptyString))
                        (Some (imap (fun k todo =>
                                       acceptedTodo (taskId k) todo) todos)))
   | (RespError status _, w') =>
       status = 400 ∧ w' = w ∧
       (truthyStr (etb_title body) = false ∨
        forallb validTodoInput todos = false)
   | _ => False
   end).
Proof.
  cbn zeta. split; [apply validateTodos_spec|].
  intros Htodos. unfold post_enhanced_todo, appendAndBroadcast.
  rewrite Htodos.
  destruct (truthyStr (etb_title body)); [|by auto].
  pose proof (validateTodos_spec taskId 0 todos) as Hspec.
  destruct (validateTodos taskId 0 todos) as [error|entries]; [by auto|].
  destruct Hspec as [Hvalid ->].
  destruct (loadBoardItems sid w) as [[existing aliased] w1].
  by repeat (case_match; simplify_eq/=).
Qed.

Lemma validateTodos_accepts_witness :
  let todo := EnhancedTodoInput (Some "call") (Some "pending") (Some "nurse")
                                None None in
  let body := EnhancedTodoBody (Some "Plan") None (Some [todo; todo]) None None
                               None None in
  ∃ it w',
    post_enhanced_todo "s" "e1" (fun k => "task-" +:+ String (ascii_of_nat (48 + k)) EmptyString) body
                       (freshWorld None)
    = (RespCreated "s" it, w') ∧
    item_todoData it
    = Some (TodoData "Plan" (Some EmptyString)
              (Some [acceptedTodo "task-0" todo; acceptedTodo "task-1" todo])).
Proof.
  cbn zeta.
  destruct (validateTodos_accepts (fun k => "task-" +:+ String (ascii_of_nat (48 + k)) EmptyString) 0
              [EnhancedTodoInput (Some "call") (Some "pending") (Some "nurse")
                                 None None;
               EnhancedTodoInput (Some "call") (Some "pending") (Some "nurse")
                                 None None]
              "s" "e1"
              (EnhancedTodoBody (Some "Plan") None
                 (Some [EnhancedTodoInput (Some "call") (Some "pending")
                                          (Some "nurse") None None;
                        EnhancedTodoInput (Some "call") (Some "pending")
                                          (Some "nurse") None None])
                 None None None None)
              (freshWorld None)) as [_ Hpost].
  specialize (Hpost eq_refl).
  destruct (post_enhanced_todo _ _ _ _ _) as [[| sid' it | | | |] w'] eqn:Hrun;
    vm_compute in Hrun; try discriminate Hrun.
  exists it, w'. split; [by injection Hrun as <- <-|].
  destruct Hpost as [_ ->]. vm_compute. reflexivity.
Defined.


(** ** The viewer *)

Lemma existsb_item_id id (items : list item) :
  existsb (fun it => String.eqb (item_id it) id) items = true
  ↔ id ∈ item_id <$> items.
Proof.
  rewrite existsb_exists, list_elem_of_fmap. split.
  - intros (it & Hin%list_elem_of_In & Heq%String.eqb_eq). by exists it.
  - intros (it & -> & Hin). exists it.
    split; [by apply list_elem_of_In|apply String.eqb_refl].
Qed.

Lemma applyNewItem_cases prev newItem :
  (item_id newItem ∈ item_id <$> prev ∧ applyNewItem prev newItem = prev) ∨
  ((item_id newItem ∉ item_id <$> prev) ∧
   applyNewItem prev newItem = prev ++ [newItem]).
Proof.
  unfold applyNewItem.
  destruct (existsb _ prev) eqn:Hex.
  - left. split; [|done]. by apply existsb_item_id.
  - right. split; [|done]. intros Hin%existsb_item_id. congruence.
Qed.

(** X25: the viewer adds the item of a [new-item] event at the end of the
    items it shows unless it shows an item with that identifier already,
    so that an event received twice shows once and identifiers that were
    distinct stay distinct. A viewer that shows the items of the session
    shows them again after the event of a creation when the identifier
    generated for the new item is not one of theirs; when it is, the
    viewer drops the item the session has stored. *)
Theorem viewer_follows_creation
    (sid : string) (rq : createRequest) (w w' : world) (it : item)
    (prev : list item) :
  applyNewItem (applyNewItem prev it) it = applyNewItem prev it ∧
  (NoDup (item_id <$> prev) → NoDup (item_id <$> applyNewItem prev it)) ∧
  (redisFaults w = [] →
   create sid rq w = (RespCreated sid it, w') →
   prev = currentItems sid w →
   if decide (createId rq ∈ item_id <$> prev)
   then applyNewItem prev it = prev ∧ currentItems sid w' = prev ++ [it]
   else applyNewItem prev it = currentItems sid w').
Proof.
  split; [|split].
  - destruct (applyNewItem_cases prev it) as [[Hin ->]|[Hout ->]].
    + by destruct (applyNewItem_cases prev it) as [[_ ->]|[? _]].
    + destruct (applyNewItem_cases (prev ++ [it]) it) as [[_ ->]|[Hout' _]];
        [done|].
      exfalso. apply Hout'. rewrite fmap_app. apply elem_of_app. right.
      apply list_elem_of_here.
  - intros Hnodup.
    destruct (applyNewItem_cases prev it) as [[Hin ->]|[Hout ->]]; [done|].
    rewrite fmap_app. apply NoDup_app. split; [done|]. split.
    + intros id Hid ->%list_elem_of_singleton. by apply Hout.
    + apply NoDup_singleton.
  - intros Hf Hc ->.
    destruct (create_result sid rq w Hf)
      as [[error He]|[(? & ? & _ & _ & He)
                     |(it' & w'' & He & Hid & Hitems & _)]];
      [congruence|congruence|].
    rewrite Hc in He. injection He as <- <-. rewrite <- Hid.
    destruct (applyNewItem_cases (currentItems sid w) it)
      as [[Hin ->]|[Hout ->]]; case_decide; done.
Qed.

Lemma viewer_follows_creation_witness :
  let body := BoardItemBody (Some "text") None None None None None in
  let w := freshWorld (Some [plainItem "a" "text" 1 2 3 (HNum 4)]) in
  ∃ it w',
    create "s" (PostBoardItems "b" 5 6 body) w = (RespCreated "s" it, w') ∧
    applyNewItem (currentItems "s" w) it = currentItems "s" w'.
Proof.
  cbn zeta.
  assert (∃ it w',
            create "s"
              (PostBoardItems "b" 5 6
                 (BoardItemBody (Some "text") None None None None None))
              (freshWorld (Some [plainItem "a" "text" 1 2 3 (HNum 4)]))
            = (RespCreated "s" it, w')) as (it & w' & Hc)
    by (eexists _, _; vm_compute; reflexivity).
  exists it, w'. split; [exact Hc|].
  destruct (viewer_follows_creation "s"
              (PostBoardItems "b" 5 6
                 (BoardItemBody (Some "text") None None None None None))
              (freshWorld (Some [plainItem "a" "text" 1 2 3 (HNum 4)]))
              w' it
              (currentItems "s"
                 (freshWorld (Some [plainItem "a" "text" 1 2 3 (HNum 4)]))))
    as (_ & _ & Hsync).
  specialize (Hsync eq_refl Hc eq_refl).
  destruct (decide _) as [Hin|_] in Hsync; [|exact Hsync].
  exfalso. vm_compute in Hin.
  apply elem_of_cons in Hin as [Hin|Hin]; [discriminate Hin|].
  by apply elem_of_nil in Hin.
Defined.

(** ** Legacy free placement *)

Lemma lowestBottom_from (existingItems : list item) (start : Z) it h :
  it ∈ existingItems → item_height it = HNum h →
  start ≤ fold_left
            (fun maxBottom existing =>
               match item_height existing with
               | HNum h' =>
                   if maxBottom <? item_y existing + h'
                   then item_y existing + h' else maxBottom
               | HAuto | HAbsent => maxBottom
               end) existingItems start ∧
  item_y it + h
  ≤ fold_left
      (fun maxBottom existing =>
         match item_height existing with
         | HNum h' =>
             if maxBottom <? item_y existing + h'
             then item_y existing + h' else maxBottom
         | HAuto | HAbsent => maxBottom
         end) existingItems start.
Proof.
  revert start. induction existingItems as [|e rest IH]; intros start Hin Hh.
  - by apply elem_of_nil in Hin.
  - cbn [fold_left].
    assert (∀ s l, s ≤ fold_left
              (fun maxBottom existing =>
                 match item_height existing with
                 | HNum h' =>
                     if maxBottom <? item_y existing + h'
                     then item_y existing + h' else maxBottom
                 | HAuto | HAbsent => maxBottom
                 end) l s) as Hmono.
    { intros s l. revert s. induction l as [|e' l IHl]; intros s; [done|].
      cbn [fold_left]. etrans; [|apply IHl].
      destruct (item_height e'); [|lia..].
      destruct (Z.ltb_spec s (item_y e' + n)); lia. }
    apply elem_of_cons in Hin as [->|Hin].
    + rewrite Hh. split.
      * etrans; [|apply Hmono]. destruct (Z.ltb_spec start (item_y e + h)); lia.
      * etrans; [|apply Hmono]. destruct (Z.ltb_spec start (item_y e + h)); lia.
    + destruct (IH (match item_height e with
                    | HNum h' =>
                        if start <? item_y e + h' then item_y e + h' else start
                    | _ => start
                    end) Hin Hh) as [Hs Hb].
      split; [|done]. etrans; [|exact Hs].
      destruct (item_height e); [|lia..].
      destruct (Z.ltb_spec start (item_y e + n)); lia.
Qed.

Lemma searchPosition_S n random draws newItem existingItems testX testY :
  searchPosition (S n) random draws newItem existingItems testX testY
  = if hasCollision newItem existingItems testX testY then
      if 8000 <? lowestBottom existingItems + 20 then
        searchPosition n random (S draws) newItem existingItems
                       (random draws).1 (random draws).2
      else
        searchPosition n random draws newItem existingItems testX
                       (lowestBottom existingItems + 20)
    else (testX, testY).
Proof. reflexivity. Qed.

(** X26: two items collide exactly when neither has the height [auto]
    and their boxes, a missing height counting as 500, overlap on both
    axes; the test does not depend on the order of the two. The legacy
    placement built on it returns a position at which the new item
    collides with no existing item, when every existing item has a numeric
    height and the lowest bottom edge is not beyond 7980. *)
Theorem findNonOverlappingPosition_is_free
    (random : nat → Z * Z) (newItem : item) (existingItems : list item)
    (item1 item2 : item) :
  checkCollision item1 item2 = checkCollision item2 item1 ∧
  (checkCollision item1 item2 = true ↔
   item_height item1 ≠ HAuto ∧ item_height item2 ≠ HAuto ∧
   item_x item1 < item_x item2 + item_width item2 ∧
   item_x item2 < item_x item1 + item_width item1 ∧
   item_y item1 < item_y item2 + collisionHeight (item_height item2) ∧
   item_y item2 < item_y item1 + collisionHeight (item_height item1)) ∧
  ((∀ it, it ∈ existingItems → ∃ h, item_height it = HNum h) →
   lowestBottom existingItems + 20 ≤ 8000 →
   let position := findNonOverlappingPosition random newItem existingItems in
   hasCollision newItem existingItems position.1 position.2 = false).
Proof.
  split; [|split].
  - unfold checkCollision.
    rewrite (orb_comm (isAuto (item_height item1))).
    destruct (isAuto (item_height item2) || isAuto (item_height item1));
      [done|]. f_equal.
    destruct (_ <=? item_x item2), (_ <=? item_x item1),
      (_ <=? item_y item2), (_ <=? item_y item1); done.
  - unfold checkCollision.
    destruct (item_height item1) as [h1| |], (item_height item2) as [h2| |];
      cbn [isAuto orb collisionHeight];
      rewrite ?negb_true_iff, ?orb_false_iff, ?Z.leb_gt;
      try (split; [done|by intros (? & ? & _)]);
      split; try (intros (((? & ?) & ?) & ?); repeat split; (done || lia));
      intros (_ & _ & ? & ? & ? & ?); repeat split; lia.
  - intros Hnum Hlow. cbn zeta.
    assert (∀ x, hasCollision newItem existingItems x
                   (lowestBottom existingItems + 20) = false) as Hbelow.
    { intros x. unfold hasCollision. apply not_true_iff_false.
      rewrite existsb_exists.
      intros (it & Hin%list_elem_of_In & Hcol).
      destruct (Hnum it Hin) as [h Hh].
      destruct (lowestBottom_from existingItems 0 it h Hin Hh) as [_ Hle].
      fold (lowestBottom existingItems) in Hle.
      unfold checkCollision, testItemAt in Hcol.
      cbn [item_height item_x item_y item_width plainItem] in Hcol.
      rewrite Hh in Hcol. cbn [isAuto collisionHeight] in Hcol.
      destruct (isAuto (item_height newItem) || false); [done|].
      apply negb_true_iff in Hcol.
      rewrite !orb_false_iff in Hcol. destruct Hcol as [_ Hcol].
      apply Z.leb_gt in Hcol. lia. }
    assert (∀ draws x y,
              hasCollision newItem existingItems
                (searchPosition 50 random draws newItem existingItems x y).1
                (searchPosition 50 random draws newItem existingItems x y).2
              = false) as Hsearch.
    { intros draws x y. rewrite (searchPosition_S 49).
      destruct (hasCollision newItem existingItems x y) eqn:Hfirst;
        [|done].
      destruct (Z.ltb_spec 8000 (lowestBottom existingItems + 20)); [lia|].
      by rewrite (searchPosition_S 48), Hbelow. }
    unfold findNonOverlappingPosition.
    destruct (_ || _); apply Hsearch.
Qed.

Lemma findNonOverlappingPosition_is_free_witness :
  let existing := [plainItem "a" "text" 100 100 200 (HNum 100)] in
  let newItem := plainItem "n" "text" 150 150 200 (HNum 100) in
  findNonOverlappingPosition (fun _ => (0, 0)) newItem existing = (150, 220) ∧
  hasCollision newItem existing 150 220 = false.
Proof.
  cbn zeta. split; [vm_compute; reflexivity|].
  destruct (findNonOverlappingPosition_is_free (fun _ => (0, 0))
              (plainItem "n" "text" 150 150 200 (HNum 100))
              [plainItem "a" "text" 100 100 200 (HNum 100)]
              (plainItem "n" "text" 150 150 200 (HNum 100))
              (plainItem "a" "text" 100 100 200 (HNum 100)))
    as (_ & _ & Hfree).
  apply Hfree.
  - intros it ->%list_elem_of_singleton. by exists 100.
  - by vm_compute.
Defined.

(** ** Invariants of the connection registry *)

Lemma connections_kept w w' :
  nextClient w' = nextClient w →
  (∀ s, clientsOf s w' `sublist_of` clientsOf s w) →
  (registryOk w →
   ∀ c, (nextClient w ≤ c)%nat → clientOutput w' !! c = clientOutput w !! c) →
  registryOk w ∧ connectionsOk w → registryOk w' ∧ connectionsOk w'.
Proof.
  intros Hnext Hsub Hout [Hreg [Hnodup Hquiet]].
  pose proof Hreg as [Hdisjoint Hbound].
  split; [split|split].
  - intros s1 s2 c Hne Hin1 Hin2.
    apply (Hdisjoint s1 s2 c Hne).
    + eapply elem_of_sublist; [exact Hin1|apply Hsub].
    + eapply elem_of_sublist; [exact Hin2|apply Hsub].
  - intros s c Hin. rewrite Hnext. apply (Hbound s).
    eapply elem_of_sublist; [eassumption|apply Hsub].
  - intros s. eapply sublist_NoDup; [apply Hnodup|apply Hsub].
  - intros c Hc. rewrite Hnext in Hc. rewrite Hout by done. by apply Hquiet.
Qed.

Lemma connections_same w w' :
  sseClientsBySession w' = sseClientsBySession w →
  nextClient w' = nextClient w →
  clientOutput w' = clientOutput w →
  registryOk w ∧ connectionsOk w → registryOk w' ∧ connectionsOk w'.
Proof.
  intros Hsse Hnext Hout. apply connections_kept; [done| |].
  - intros s. unfold clientsOf. by rewrite Hsse.
  - intros _ c _. by rewrite Hout.
Qed.

Lemma connections_broadcast sid message w :
  registryOk w ∧ connectionsOk w →
  registryOk (broadcastSSE sid message w) ∧
  connectionsOk (broadcastSSE sid message w).
Proof.
  destruct (broadcastSSE_frame sid message w)
    as ((Hsse & _ & Hnext) & _ & _ & Hout & _).
  apply connections_kept; [done| |].
  - intros s. unfold clientsOf. by rewrite Hsse.
  - intros [_ Hbound] c Hc. apply Hout. intros Hin%Hbound. lia.
Qed.

Lemma connections_after w e :
  registryOk w ∧ connectionsOk w →
  registryOk (after w e) ∧ connectionsOk (after w e).
Proof.
  intros Hinv.
  destruct e as [sid|sid res|sid|sid|sid rq|sid id updates|sid body
                |sid rq thr p|sid|connected faults]; cbn [after].
  - destruct Hinv as [Hreg [Hnodup Hquiet]].
    split; [by apply registryOk_openEvents|]. split.
    + intros s. rewrite clientsOf_openEvents. case_decide; [|done].
      apply NoDup_app. split; [done|]. split; [|apply NoDup_singleton].
      intros c Hin ->%list_elem_of_singleton.
      destruct Hreg as [_ Hbound]. apply Hbound in Hin. lia.
    + intros c. rewrite nextClient_openEvents. intros Hc.
      unfold openEvents. cbn [snd clientOutput set_sseClientsBySession].
      rewrite sendEvent_output_other by lia. apply Hquiet. lia.
  - revert Hinv. apply connections_kept.
    + apply nextClient_closeEvents.
    + intros s. rewrite clientsOf_closeEvents_eq.
      case_decide; [subst s; apply sublist_filter|done].
    + intros _ c _. by rewrite clientOutput_closeEvents.
  - revert Hinv. unfold get_board_items.
    pose proof (loadBoardItems_outside sid w) as (_ & _ & ? & ? & _ & ? & _).
    destruct (loadBoardItems sid w) as [[items aliased] w1].
    by apply connections_same.
  - revert Hinv. unfold get_session.
    pose proof (loadBoardItems_outside sid w) as (_ & _ & ? & ? & _ & ? & _).
    destruct (loadBoardItems sid w) as [[items aliased] w1].
    by apply connections_same.
  - revert Hinv.
    destruct (create_registry sid rq w) as ((Hsse & _ & Hnext) & Hout).
    apply connections_kept; [done| |].
    + intros s. unfold clientsOf. by rewrite Hsse.
    + intros [_ Hbound] c Hc. apply Hout. intros Hin%Hbound. lia.
  - revert Hinv. unfold put_board_item.
    pose proof (loadBoardItems_outside sid w) as (_ & _ & ? & ? & _ & ? & _).
    destruct (loadBoardItems sid w) as [[items aliased] w1].
    destruct (findIndexById id items) as [[i it]|]; cbn [snd];
      [|by apply connections_same].
    destruct (saveBoardItems_outside sid
                (<[i := applyPatch it updates]> items)
                (if aliased
                 then saveToMemory sid (<[i := applyPatch it updates]> items) w1
                 else w1)) as (_ & _ & Hs & Ho & _ & Hn & _).
    apply connections_same; rewrite ?Hs, ?Ho, ?Hn; by destruct aliased.
  - unfold post_focus. destruct (truthyStr _); [|done].
    by apply connections_broadcast.
  - revert Hinv. apply connections_same.
    + apply handlerStep_registry.
    + destruct p as [| |items|answer|answer]; cbn [handlerStep].
      * unfold tryAcquireLock. repeat (case_match; simplify_eq/=); done.
      * destruct rq as [id|ids|items]; case_decide; cbn [snd caught];
          try done.
        -- pose proof (loadBoardItems_outside sid w)
             as (_ & _ & _ & _ & _ & ? & _).
           by destruct (loadBoardItems sid w) as [[? ?] ?].
        -- pose proof (loadBoardItems_outside sid w)
             as (_ & _ & _ & _ & _ & ? & _).
           by destruct (loadBoardItems sid w) as [[? ?] ?].
        -- apply saveBoardItems_outside.
      * destruct (keepItems rq items); cbn [snd]; [|done].
        case_decide; cbn [snd caught]; [done|]. apply saveBoardItems_outside.
      * by case_decide.
      * done.
    + apply handlerStep_output.
  - revert Hinv. apply connections_kept.
    + unfold delete_session, redisDel, redisCall.
      by repeat (case_match; simplify_eq/=).
    + intros s. unfold clientsOf, delete_session.
      cbn [sseClientsBySession set_sseClientsBySession set_inMemorySessions].
      assert (sseClientsBySession (redisDel sid w) = sseClientsBySession w)
        as -> by (unfold redisDel, redisCall;
                  by repeat (case_match; simplify_eq/=)).
      destruct (decide (s = sid)) as [->|Hne].
      * rewrite lookup_delete_eq. apply sublist_nil_l.
      * by rewrite lookup_delete_ne.
    + intros _ c _. unfold delete_session, redisDel, redisCall.
      by repeat (case_match; simplify_eq/=).
  - revert Hinv. by apply connections_same.
Qed.

(** X27: in every state a server reaches, whatever requests it has
    served, in whatever order and at whatever pace, and whatever Redis
    did, a connection is registered under one session at most and once at
    most, every registered connection was handed out by an earlier
    [GET /api/events], and nothing has been written on a connection that
    is not handed out yet. *)
Theorem connections_stay_distinct
    (static : option (list item)) (events : list serverEvent) :
  let w := history static events in
  (∀ s1 s2 c, s1 ≠ s2 → c ∈ clientsOf s1 w → c ∉ clientsOf s2 w) ∧
  (∀ s c, c ∈ clientsOf s w → (c < nextClient w)%nat) ∧
  (∀ s, NoDup (clientsOf s w)) ∧
  (∀ c, (nextClient w ≤ c)%nat → outputOf c w = []).
Proof.
  cbn zeta.
  assert (registryOk (history static events) ∧
          connectionsOk (history static events)) as [[H1 H2] [H3 H4]].
  { unfold history.
    assert (registryOk (freshWorld static) ∧ connectionsOk (freshWorld static))
      as Hstart.
    { split; [apply registryOk_fresh|]. split.
      - intros s. unfold clientsOf. simpl. rewrite lookup_empty.
        apply NoDup_nil_2.
      - intros c _. apply lookup_empty. }
    revert Hstart. generalize (freshWorld static).
    induction events as [|e events IH]; intros w Hinv; [done|].
    cbn [fold_left]. by apply IH, connections_after. }
  split; [done|]. split; [done|]. split; [done|].
  intros c Hc. unfold outputOf. by rewrite H4.
Qed.

(** ** Zones *)

Lemma findPositionInZone_filter newItem existingItems z :
  findPositionInZone newItem existingItems z
  = findPositionInZone newItem
      (filter (fun it => inZone z it = true) existingItems) z.
Proof.
  unfold findPositionInZone. by rewrite filter_inZone_idemp.
Qed.

(** X28: the three zones do not overlap: an item whose corner lies in one
    of them is not counted in another, so that adding it to the board,
    wherever in the list, leaves the position the layout engine gives in
    any other zone as it was. *)
Theorem zones_are_independent
    (name1 name2 : string) (z1 z2 : zone) (newItem it : item)
    (before after : list item) :
  zoneConfig name1 = Some z1 →
  zoneConfig name2 = Some z2 →
  z1 ≠ z2 →
  inZone z1 it = true →
  inZone z2 it = false ∧
  findPositionInZone newItem (before ++ it :: after) z2
  = findPositionInZone newItem (before ++ after) z2.
Proof.
  intros Hz1 Hz2 Hne Hin.
  assert (inZone z2 it = false) as Hout.
  { unfold zoneConfig in Hz1, Hz2.
    repeat (case_match; simplify_eq/=); try done;
      unfold inZone in *; simpl in *;
      apply andb_true_iff in Hin as [[[?%Z.leb_le ?%Z.ltb_lt]%andb_true_iff
                                       ?%Z.leb_le]%andb_true_iff ?%Z.ltb_lt];
      rewrite !andb_false_iff, Z.leb_gt, !Z.ltb_ge; lia. }
  split; [done|].
  rewrite (findPositionInZone_filter _ (before ++ it :: after)),
    (findPositionInZone_filter _ (before ++ after)).
  rewrite !filter_app, filter_cons_False; [done|]. by rewrite Hout.
Qed.

Lemma zones_are_independent_witness :
  let note := plainItem "n" "doctor-note" 4260 (-2240) 450 (HNum 600) in
  let todo := tempItemOf "todo" 420 (HNum 200) in
  findPositionInZone todo [note] TASK_ZONE
  = findPositionInZone todo [] TASK_ZONE.
Proof.
  cbn zeta.
  apply (zones_are_independent "doctors-note-zone" "task-management-zone"
           DOCTORS_NOTE_ZONE TASK_ZONE
           (tempItemOf "todo" 420 (HNum 200))
           (plainItem "n" "doctor-note" 4260 (-2240) 450 (HNum 600)) [] []);
    by vm_compute.
Defined.

Lemma bestColumn_firstFit startY columns limit h :
  columns ≠ [] →
  limit < (bestColumn startY columns).2 + h →
  firstFitFrom limit h columns 0 = None.
Proof.
  intros Hne Hover.
  destruct (bestColumn_firstLeast startY columns Hne) as (_ & Hall & _).
  apply firstFitFrom_None. intros i b Hi. specialize (Hall i b Hi). lia.
Qed.

(** X29: the task-zone placement kept beside the generic one, which
    counts todo items only, always answers the first column of least
    bottom among its three, at that bottom, also when the new item then
    ends below the zone: unlike the generic placement it never goes back
    to the top of the first column. *)
Theorem findTaskZonePosition_choice (newItem : item) (existingItems : list item) :
  let todos :=
    filter (fun it => String.eqb (item_type it) "todo" = true) existingItems in
  ∃ c m,
    firstLeast (zoneColumns TASK_ZONE todos) c m ∧
    findTaskZonePosition newItem existingItems = (columnX 4260 c, m) ∧
    findPositionInZone newItem todos TASK_ZONE
    = if m + estimateItemHeight newItem <=? 2100 then (columnX 4260 c, m)
      else (4260, 60).
Proof.
  cbn zeta.
  set (todos := filter (fun it => String.eqb (item_type it) "todo" = true)
                       existingItems).
  assert (filter (fun it => inZone TASK_ZONE it
                            && String.eqb (item_type it) "todo" = true)
                 existingItems
          = filter (fun it => inZone TASK_ZONE it = true) todos) as Hfilter.
  { unfold todos. rewrite list_filter_filter. apply list_filter_iff.
    intros it. rewrite andb_true_iff. tauto. }
  destruct (findPositionInZone_least newItem todos TASK_ZONE)
    as (c & m & Hleast & Hgeneric); [simpl; lia|].
  exists c, m. split; [done|]. split; [|exact Hgeneric].
  assert (zoneColumns TASK_ZONE todos ≠ []) as Hne.
  { intros Hnil. pose proof (zoneColumns_length TASK_ZONE todos) as Hlen.
    rewrite Hnil in Hlen. simpl in Hlen. vm_compute in Hlen. lia. }
  pose proof (bestColumn_firstLeast 60 _ Hne) as Hbest.
  unfold findTaskZonePosition. rewrite Hfilter.
  change (columnBottoms (zone_x TASK_ZONE + 60) (zone_y TASK_ZONE + 60) 3
            (filter (fun it => inZone TASK_ZONE it = true) todos))
    with (zoneColumns TASK_ZONE todos).
  change (zone_y TASK_ZONE + 60) with 60 in *.
  change (zone_x TASK_ZONE + 60) with 4260 in *.
  assert (∀ c' m', firstLeast (zoneColumns TASK_ZONE todos) c' m' →
                   c' = c ∧ m' = m) as Huniq.
  { intros c' m' (Hc' & Hall' & Hfirst').
    destruct Hleast as (Hc & Hall & Hfirst).
    assert (m' = m) as -> by
      (specialize (Hall c' m' Hc'); specialize (Hall' c m Hc); lia).
    split; [|done].
    destruct (lt_eq_lt_dec c' c) as [[Hlt| ->]|Hlt]; [|done|].
    - specialize (Hfirst c' m Hlt Hc'). lia.
    - specialize (Hfirst' c m Hlt Hc). lia. }
  destruct (bestColumn 60 (zoneColumns TASK_ZONE todos)) as [c' m'] eqn:Hb.
  cbn [fst snd] in Hbest. destruct (Huniq c' m' Hbest) as [-> ->].
  destruct (Z.ltb_spec (zone_y TASK_ZONE + zone_height TASK_ZONE)
                       (m + estimateItemHeight newItem)) as [Hover|]; [|done].
  rewrite (bestColumn_firstFit 60); [done|done|]. by rewrite Hb.
Qed.

(** ** Reads *)

(** X30: as long as Redis does not fail, reading the items of a session
    answers what the session holds with its count, and a second read
    answers the same and changes nothing more; the session report counts
    the same items and the connections registered under the session. A
    read tells no connection and touches no lock. *)
Theorem reads_change_nothing (sid : string) (w : world) :
  redisFaults w = [] →
  let read := get_board_items sid w in
  read.1 = RespItems sid (currentItems sid w) (length (currentItems sid w)) ∧
  get_board_items sid read.2 = read ∧
  (get_session sid w).1
  = SessionInfo sid (length (currentItems sid w)) (length (clientsOf sid w)) ∧
  (get_session sid w).2 = read.2 ∧
  sameOutside w read.2.
Proof.
  intros Hf. cbn zeta. unfold get_board_items, get_session, currentItems.
  pose proof (loadBoardItems_twice sid w Hf) as [Hitems Hworld].
  pose proof (loadBoardItems_outside sid w) as Hout.
  destruct (loadBoardItems sid w) as [[items aliased] w1]. cbn [fst snd] in *.
  split; [done|]. split.
  { destruct (loadBoardItems sid w1) as [[items' aliased'] w2].
    cbn [fst snd] in *. by subst. }
  split; [|done].
  unfold clientsOf. by destruct Hout as (_ & _ & -> & _).
Qed.

Lemma reads_change_nothing_witness :
  let w := freshWorld (Some [plainItem "a" "text" 1 2 3 (HNum 4)]) in
  get_board_items "s" (get_board_items "s" w).2 = get_board_items "s" w.
Proof.
  cbn zeta.
  apply (reads_change_nothing "s"
           (freshWorld (Some [plainItem "a" "text" 1 2 3 (HNum 4)]))).
  reflexivity.
Defined.

(** ** Column packing: what is counted *)

Section ColumnsExact.
Variables (startX maxColumns : Z).

Lemma bumpColumn_lookup columns it (j : nat) b :
  columns !! j = Some b →
  Z.of_nat j < maxColumns →
  bumpColumn startX maxColumns columns it !! j
  = Some (if decide (columnOf startX it = Z.of_nat j)
          then Z.max b (bottomOf it) else b).
Proof.
  intros Hj Hlt. unfold bumpColumn, columnOf, bottomOf.
  cbv zeta.
  destruct (decide ((item_x it - startX) / (520 + 60) = Z.of_nat j))
    as [Hcol|Hcol].
  - rewrite Hcol, Nat2Z.id, Hj.
    replace ((0 <=? Z.of_nat j) && (Z.of_nat j <? maxColumns)) with true
      by (symmetry; apply andb_true_iff; split; lia).
    destruct (Z.ltb_spec b (item_y it + estimateItemHeight it + 60)).
    + rewrite list_lookup_insert_eq by (by eapply lookup_lt_Some).
      f_equal. lia.
    + rewrite Hj. f_equal. lia.
  - destruct ((0 <=? (item_x it - startX) / (520 + 60)) &&
              ((item_x it - startX) / (520 + 60) <? maxColumns)) eqn:Hin;
      [|done].
    apply andb_true_iff in Hin as [H0%Z.leb_le _].
    destruct (columns !! Z.to_nat ((item_x it - startX) / (520 + 60)));
      [|done].
    case_match; [|done].
    rewrite list_lookup_insert_ne; [done|]. lia.
Qed.

Lemma fold_bumpColumn_lookup items columns (j : nat) b :
  columns !! j = Some b →
  Z.of_nat j < maxColumns →
  fold_left (bumpColumn startX maxColumns) items columns !! j
  = Some (fold_left Z.max
            (map bottomOf
               (filter (fun it => columnOf startX it = Z.of_nat j) items))
            b).
Proof.
  revert columns b. induction items as [|it items IH]; intros columns b Hj Hlt;
    [done|].
  cbn [fold_left].
  rewrite (IH _ _ (bumpColumn_lookup columns it j b Hj Hlt) Hlt).
  destruct (decide (columnOf startX it = Z.of_nat j)) as [Hcol|Hcol].
  - by rewrite filter_cons_True by done.
  - by rewrite filter_cons_False by done.
Qed.
End ColumnsExact.

Lemma zoneColumns_occupied z existingItems (j : nat) :
  Z.of_nat j < (zone_width z - 120) / (520 + 60) →
  zoneColumns z existingItems !! j = Some (occupiedBottom z existingItems j).
Proof.
  intros Hlt. unfold zoneColumns, columnBottoms, occupiedBottom.
  rewrite (fold_bumpColumn_lookup _ _ _ _ j (zone_y z + 60)); [|
    apply lookup_replicate_2; lia|done].
  rewrite list_filter_filter.
  rewrite (list_filter_iff
             (fun it => columnOf (zone_x z + 60) it = Z.of_nat j ∧
                        inZone z it = true)
             (fun it => inZone z it = true ∧
                        columnOf (zone_x z + 60) it = Z.of_nat j));
    [done|]. intros it. tauto.
Qed.

Lemma zoneColumns_sameBox z existingItems existingItems' :
  Forall2 sameBox existingItems existingItems' →
  zoneColumns z existingItems = zoneColumns z existingItems'.
Proof.
  unfold zoneColumns, columnBottoms.
  generalize (replicate (Z.to_nat ((zone_width z - 120) / (520 + 60)))
                        (zone_y z + 60)).
  intros columns Hsame. revert columns.
  induction Hsame as [|it it' l l' (Hx & Hy & Hh) _ IH]; intros columns;
    [done|].
  assert (inZone z it = inZone z it') as Hzone
    by (unfold inZone; by rewrite Hx, Hy).
  destruct (inZone z it') eqn:Hin.
  - rewrite (filter_cons_True _ it), (filter_cons_True _ it') by done.
    cbn [fold_left].
    assert (bumpColumn (zone_x z + 60) ((zone_width z - 120) / (520 + 60))
              columns it
            = bumpColumn (zone_x z + 60) ((zone_width z - 120) / (520 + 60))
                columns it') as ->
      by (unfold bumpColumn; by rewrite Hx, Hy, Hh).
    apply IH.
  - rewrite (filter_cons_False _ it), (filter_cons_False _ it')
      by congruence.
    apply IH.
Qed.

Lemma findPositionInZone_columns newItem existingItems existingItems' z :
  zoneColumns z existingItems = zoneColumns z existingItems' →
  findPositionInZone newItem existingItems z
  = findPositionInZone newItem existingItems' z.
Proof.
  unfold findPositionInZone. fold (zoneColumns z existingItems).
  fold (zoneColumns z existingItems'). by intros ->.
Qed.

Lemma findPositionInZone_occupied newItem existingItems z :
  700 ≤ zone_width z →
  ∃ c,
    Z.of_nat c < (zone_width z - 120) / (520 + 60) ∧
    (∀ j, Z.of_nat j < (zone_width z - 120) / (520 + 60) →
          occupiedBottom z existingItems c ≤ occupiedBottom z existingItems j) ∧
    (∀ j, (j < c)%nat →
          occupiedBottom z existingItems c < occupiedBottom z existingItems j) ∧
    findPositionInZone newItem existingItems z
    = if occupiedBottom z existingItems c + estimateItemHeight newItem
         <=? zone_y z + zone_height z
      then (columnX (zone_x z + 60) c, occupiedBottom z existingItems c)
      else (zone_x z + 60, zone_y z + 60).
Proof.
  intros Hwide.
  destruct (findPositionInZone_least newItem existingItems z Hwide)
    as (c & m & (Hc & Hall & Hfirst) & Hpos).
  assert (Z.of_nat c < (zone_width z - 120) / (520 + 60)) as Hlt.
  { apply lookup_lt_Some in Hc. rewrite zoneColumns_length in Hc. lia. }
  rewrite zoneColumns_occupied in Hc by done. injection Hc as <-.
  exists c. split; [done|]. split; [|split; [|done]].
  - intros j Hj. apply (Hall j). by apply zoneColumns_occupied.
  - intros j Hj. apply (Hfirst j); [done|].
    apply zoneColumns_occupied. lia.
Qed.

Lemma zoneColumns_eq z existingItems existingItems' :
  (∀ j, Z.of_nat j < (zone_width z - 120) / (520 + 60) →
        occupiedBottom z existingItems j = occupiedBottom z existingItems' j) →
  zoneColumns z existingItems = zoneColumns z existingItems'.
Proof.
  intros Hsame. apply list_eq. intros j.
  destruct (Z.lt_ge_cases (Z.of_nat j) ((zone_width z - 120) / (520 + 60)))
    as [Hlt|Hge].
  - by rewrite !zoneColumns_occupied, Hsame.
  - rewrite !(proj2 (lookup_ge_None _ _)); [done|..];
      rewrite zoneColumns_length; lia.
Qed.

Lemma occupiedBottom_covers z existingItems it (j : nat) :
  it ∈ existingItems → inZone z it = true →
  columnOf (zone_x z + 60) it = Z.of_nat j →
  bottomOf it ≤ occupiedBottom z existingItems j.
Proof.
  intros Hin Hzone Hcol. unfold occupiedBottom.
  assert (∀ (l : list Z) b x, x ∈ l → x ≤ fold_left Z.max l b) as Hmax.
  { assert (∀ (l : list Z) b, b ≤ fold_left Z.max l b) as Hge.
    { induction l as [|y l IHl]; intros b; [done|].
      cbn [fold_left]. etrans; [|apply IHl]. lia. }
    induction l as [|y l IHl]; intros b x Hx; [by apply elem_of_nil in Hx|].
    cbn [fold_left]. apply elem_of_cons in Hx as [->|Hx]; [|by apply IHl].
    etrans; [|apply Hge]. lia. }
  apply Hmax. apply list_elem_of_fmap. exists it. split; [done|].
  by apply list_elem_of_filter.
Qed.

Lemma occupiedBottom_uncounted z before it after (j : nat) :
  inZone z it = false ∨
  ¬ (0 ≤ columnOf (zone_x z + 60) it < (zone_width z - 120) / (520 + 60)) →
  Z.of_nat j < (zone_width z - 120) / (520 + 60) →
  occupiedBottom z (before ++ it :: after) j
  = occupiedBottom z (before ++ after) j.
Proof.
  intros Hout Hj. unfold occupiedBottom.
  rewrite !filter_app, filter_cons_False; [done|].
  intros [Hzone Hcol]. destruct Hout as [Hout|Hout]; [congruence|].
  apply Hout. lia.
Qed.

(** C4 (amended): the placements the endpoints compute go through
    [findPositionInZone]. In a zone with a column at least, it packs
    against the existing items whose top-left corner lies in the zone
    rectangle and in one of its columns, whatever their type: the new item
    goes to the first column whose bottom, counted over these items, is
    least, or to the top of the first column when it does not fit there;
    the answer is the same for items of other kinds that stand at the same
    places and are estimated as high; every item of the rectangle that
    falls in a column, of any kind, raises the bottom of that column to
    its own bottom plus padding at least; an item outside the rectangle,
    in its left margin or right of its last column counts for nothing.
    Every creation handler that places its item stores it at the position
    so computed in its zone, [POST /api/todos] in the task zone. *)
Theorem zone_packing_counts_every_kind
    (newItem : item) (existingItems : list item) (z : zone) :
  700 ≤ zone_width z →
  let startX := zone_x z + 60 in
  let maxColumns := (zone_width z - 120) / (520 + 60) in
  let bottom := occupiedBottom z existingItems in
  (∃ c,
     Z.of_nat c < maxColumns ∧
     (∀ j, Z.of_nat j < maxColumns → bottom c ≤ bottom j) ∧
     (∀ j, (j < c)%nat → bottom c < bottom j) ∧
     findPositionInZone newItem existingItems z
     = if bottom c + estimateItemHeight newItem <=? zone_y z + zone_height z
       then (columnX startX c, bottom c)
       else (startX, zone_y z + 60))
  ∧ (∀ existingItems',
       Forall2 sameBox existingItems existingItems' →
       findPositionInZone newItem existingItems' z
       = findPositionInZone newItem existingItems z)
  ∧ (∀ it j,
       it ∈ existingItems → inZone z it = true →
       Z.of_nat j < maxColumns → columnOf startX it = Z.of_nat j →
       bottomOf it ≤ bottom j)
  ∧ (∀ before it after,
       existingItems = before ++ it :: after →
       inZone z it = false ∨ ¬ (0 ≤ columnOf startX it < maxColumns) →
       findPositionInZone newItem existingItems z
       = findPositionInZone newItem (before ++ after) z)
  ∧ (∀ sessionId rq zone w it w',
       placementZone rq = Some zone →
       create sessionId rq w = (RespCreated sessionId it, w') →
       (item_x it, item_y it)
       = findPositionInZone it (currentItems sessionId w) zone)
  ∧ ∀ sessionId id title description todo_items w,
      match (post_todos sessionId id
               (TodosBody title description todo_items None None) w).1 with
      | RespCreated _ it =>
          (item_x it, item_y it)
          = findPositionInZone (tempItemOf "todo" 420 (item_height it))
              (currentItems sessionId w) TASK_ZONE
      | RespError status _ => status = 400
      | _ => False
      end.
Proof.
  intros Hwide. cbn zeta.
  split; [by apply findPositionInZone_occupied|].
  split.
  { intros existingItems' Hsame. symmetry.
    by apply findPositionInZone_columns, zoneColumns_sameBox. }
  split; [intros it j Hin Hzone _ Hcol; by apply occupiedBottom_covers|].
  split.
  { intros before it after -> Hout.
    apply findPositionInZone_columns, zoneColumns_eq.
    intros j Hj. by apply occupiedBottom_uncounted. }
  split.
  { intros sessionId rq zone w it w' Hzone Hcreate.
    by destruct (create_placed sessionId rq w it w' zone Hzone Hcreate). }
  intros sessionId id title description todo_items w.
  unfold post_todos, currentItems, appendAndBroadcast.
  cbn [todos_title todos_description todos_todo_items todos_x todos_y].
  destruct (truthyStr title); [|reflexivity].
  destruct todo_items as [todo_items|]; [|reflexivity].
  destruct (loadBoardItems sessionId w) as [[existing aliased] w1].
  simpl.
  destruct (findPositionInZone _ existing TASK_ZONE) as [px py] eqn:Hpos.
  simpl. by rewrite Hpos.
Qed.

(** An instance: an agent note in the first column of the task zone
    sends a new todo to the second; were the note in the left margin of
    the zone, the todo would go to the first. *)
Lemma zone_packing_counts_every_kind_witness :
  let todo := tempItemOf "todo" 420 (HNum 200) in
  let agent := plainItem "a1" "agent" 4260 60 520 (HNum 300) in
  let margin := plainItem "a2" "agent" 4200 60 520 (HNum 300) in
  findPositionInZone todo [agent] TASK_ZONE = (4840, 60) ∧
  findPositionInZone todo [margin] TASK_ZONE
  = findPositionInZone todo [] TASK_ZONE ∧
  findPositionInZone todo [margin] TASK_ZONE = (4260, 60).
Proof.
  cbn zeta. split; [vm_compute; reflexivity|].
  split; [|vm_compute; reflexivity].
  destruct (zone_packing_counts_every_kind
              (tempItemOf "todo" 420 (HNum 200))
              [plainItem "a2" "agent" 4200 60 520 (HNum 300)] TASK_ZONE)
    as (_ & _ & _ & Hout & _); [by vm_compute|].
  apply (Hout [] (plainItem "a2" "agent" 4200 60 520 (HNum 300)) []);
    [reflexivity|].
  right. vm_compute. intros [H _]. by apply H.
Defined.
